(** * Auctioneer: the auction ledger, the bid command and the two sweeps

    A shallow embedding of [db.py], [sheets.py], [cogs/auction.py] and the
    background loops of [bot.py].  The SQLite table [auctions] is a finite map
    from its primary key [thread_id] to the other nine columns; every call of
    [time.time()] is an explicit [now] argument; calls to the chat platform
    and to the spreadsheet take their outcome from an environment record and
    leave an entry in a trace. *)

From Stdlib Require Import ZArith QArith Lia.
From stdpp Require Import gmap strings list fin_maps sorting.

Local Open Scope Z_scope.

(** ** Rows of the [auctions] table *)

(** The [status] column; the code only ever writes ['active'] (insert) and
    ['completed'] (update). *)
Inductive Status := active | completed.

#[global] Instance Status_eq_dec : EqDecision Status.
Proof. solve_decision. Defined.

(** The columns other than the key. *)
Record Row := mkRow {
  channel_id : Z;
  guild_id : Z;
  player_name : string;
  current_bid : Z;
  current_bidder_id : option Z;
  current_bidder_name : option string;
  created_at : Z;
  last_bid_at : Z;
  status : Status
}.

#[global] Instance Row_eq_dec : EqDecision Row.
Proof. solve_decision. Defined.

(** The table: [thread_id INTEGER PRIMARY KEY] is the key of the map. *)
Abbreviation DB := (gmap Z Row).

(** A row as the queries hand it out ([dict(row)]): the key and the columns. *)
Abbreviation Auction := (Z * Row)%type.

Definition thread_id (a : Auction) : Z := a.1.

Module Db.

(** [get_auction_by_thread]: [SELECT ... WHERE thread_id = ?]; the query has
    no condition on [status].  The ["thread_id"] entry of the result is the
    argument. *)
Definition get_auction_by_thread (db : DB) (tid : Z) : option Row :=
  db !! tid.

(** The [INSERT] shared by [create_auction] and [register_existing_auction];
    [None] stands for [aiosqlite.IntegrityError] (primary key taken). *)
Definition insert_row (db : DB) (tid : Z) (r : Row) : option DB :=
  match db !! tid with
  | Some _ => None
  | None => Some (<[tid := r]> db)
  end.

Definition create_auction (now : Z) (db : DB)
    (tid cid gid : Z) (pname : string) (bid : Z) (bidder : Z) (bname : string)
  : DB * option Row :=
  match insert_row db tid (mkRow cid gid pname bid (Some bidder) (Some bname)
                             now now active) with
  | None => (db, None)
  | Some db' => (db', get_auction_by_thread db' tid)
  end.

Definition register_existing_auction (db : DB)
    (tid cid gid : Z) (pname : string) (bid : Z) (bidder : option Z)
    (bname : string) (created last : Z)
  : DB * option Row :=
  match insert_row db tid (mkRow cid gid pname bid bidder (Some bname)
                             created last active) with
  | None => (db, None)
  | Some db' => (db', get_auction_by_thread db' tid)
  end.

(** The read half of [place_bid]: the row must exist and [amount] must exceed
    the [current_bid] that was read. *)
Definition place_bid_check (db : DB) (tid amount : Z) : bool :=
  match get_auction_by_thread db tid with
  | None => false
  | Some a => negb (amount <=? current_bid a)
  end.

Definition set_bid (amount bidder : Z) (bname : string) (now : Z) (r : Row)
  : Row :=
  mkRow (channel_id r) (guild_id r) (player_name r)
        amount (Some bidder) (Some bname) (created_at r) now (status r).

(** The write half: [UPDATE auctions SET current_bid = ?, current_bidder_id = ?,
    current_bidder_name = ?, last_bid_at = ? WHERE thread_id = ? AND
    status = 'active']. *)
Definition place_bid_update (db : DB) (tid amount bidder : Z) (bname : string)
    (now : Z) : DB :=
  match db !! tid with
  | Some r =>
      match status r with
      | active => <[tid := set_bid amount bidder bname now r]> db
      | completed => db
      end
  | None => db
  end.

Definition place_bid (now : Z) (db : DB) (tid amount bidder : Z)
    (bname : string) : DB * option Row :=
  if place_bid_check db tid amount then
    let db' := place_bid_update db tid amount bidder bname now in
    (db', get_auction_by_thread db' tid)
  else (db, None).

Definition sum_bids (l : list Auction) : Z :=
  foldr (fun a acc => current_bid a.2 + acc) 0 l.

Definition led_by (uid : Z) (a : Auction) : Prop :=
  status a.2 = active /\ current_bidder_id a.2 = Some uid.

#[global] Instance led_by_dec uid a : Decision (led_by uid a).
Proof. unfold led_by. apply _. Defined.

(** [get_committed_pom_for_user]: [COALESCE(SUM(current_bid), 0)] over the
    active rows whose [current_bidder_id] is the user. *)
Definition get_committed_pom_for_user (db : DB) (uid : Z) : Z :=
  sum_bids (filter (led_by uid) (map_to_list db)).

Definition is_active (a : Auction) : Prop := status a.2 = active.

#[global] Instance is_active_dec a : Decision (is_active a).
Proof. unfold is_active. apply _. Defined.

(** The order in which a [SELECT] without [ORDER BY] hands out the rows of
    the table: that of the primary key [thread_id], which is the rowid. *)
Definition by_thread_id (a b : Auction) : Prop := a.1 <= b.1.

#[global] Instance by_thread_id_dec a b : Decision (by_thread_id a b).
Proof. unfold by_thread_id. apply _. Defined.

(** [get_active_auctions_for_reminders]: the rows with [status = 'active'],
    by ascending [thread_id]. *)
Definition get_active_auctions_for_reminders (db : DB) : list Auction :=
  merge_sort by_thread_id (filter is_active (map_to_list db)).

Definition set_completed (r : Row) : Row :=
  mkRow (channel_id r) (guild_id r) (player_name r)
        (current_bid r) (current_bidder_id r) (current_bidder_name r)
        (created_at r) (last_bid_at r) completed.

(** [complete_auction]: the [UPDATE ... SET status = 'completed' WHERE
    thread_id = ? AND status = 'active'] followed by the [SELECT] on the
    thread id alone. *)
Definition complete_auction (db : DB) (tid : Z) : DB * option Row :=
  let db' := match db !! tid with
             | Some r =>
                 match status r with
                 | active => <[tid := set_completed r]> db
                 | completed => db
                 end
             | None => db
             end in
  (db', db' !! tid).

End Db.

(** ** The balance sheet ([sheets.py]) *)

(** One record of the [POM Balance] worksheet.  [row_id] is the [ID] cell when
    its text is the decimal form of an integer (no other cell can equal
    [str(discord_user_id)]).  [row_balance] is [Some v] for a [POM Balance]
    cell on which [int()] returns [v], and [None] for a cell on which [int()]
    raises [TypeError] or [ValueError] (an empty cell, text, a missing
    column), the two classes the code catches.  A cell holding an infinite
    number has no counterpart here: [int()] raises [OverflowError] on it, which
    nothing in [sheets.py] catches, so neither function returns on a sheet
    where the record of the user has such a cell. *)
Record BalanceRow := mkBalanceRow {
  row_id : option Z;
  row_name : string;
  row_balance : option Z
}.

Abbreviation Sheet := (list BalanceRow).

(** One line of the [Completed Auctions] worksheet. *)
Record HistoryRow := mkHistoryRow {
  h_player : string;
  h_winner_id : option Z;
  h_winner_name : string;
  h_winning_bid : Z;
  h_completed_at : Z
}.

Module Sheets.

(** [int(val)] with the [except (TypeError, ValueError)] fallback to 0, on
    the cells [BalanceRow] represents. *)
Definition int_or_zero (c : option Z) : Z :=
  match c with Some v => v | None => 0 end.

Fixpoint get_pom_balance_sync (rows : Sheet) (uid : Z) : option Z :=
  match rows with
  | [] => None
  | r :: rest =>
      if bool_decide (row_id r = Some uid)
      then Some (int_or_zero (row_balance r))
      else get_pom_balance_sync rest uid
  end.

(** The loop of [deduct_pom_sync] over the records: the first record of the
    user decides. *)
Fixpoint deduct_rows (rows : Sheet) (uid amount : Z) : Sheet * bool :=
  match rows with
  | [] => ([], false)
  | r :: rest =>
      if bool_decide (row_id r = Some uid) then
        let current := int_or_zero (row_balance r) in
        if current <? amount then (r :: rest, false)
        else (mkBalanceRow (row_id r) (row_name r) (Some (current - amount)) :: rest,
              true)
      else
        let '(rest', ok) := deduct_rows rest uid amount in (r :: rest', ok)
  end.

Definition deduct_pom_sync (rows : Sheet) (uid amount : Z) : Sheet * bool :=
  match rows with
  | [] => ([], false)
  | _ => deduct_rows rows uid amount
  end.

(** The row [append_completed_auction_sync] builds. *)
Definition completed_row (now : Z) (pname : string) (winner : option Z)
    (wname : option string) (bid : Z) : HistoryRow :=
  mkHistoryRow pname
    (match winner with Some 0 | None => None | Some w => Some w end)
    (match wname with Some ""%string | None => "Unknown"%string | Some n => n end)
    bid now.

End Sheets.

(** ** Exceptions *)

(** [discord.HTTPException] is the only exception class the handlers single
    out; everything else is caught by [except Exception] alone. *)
Inductive exn := HTTPException | OtherException.

Inductive res (A : Type) := Ok (a : A) | Raise (e : exn).
Arguments Ok {A} a.
Arguments Raise {A} e.

(** ** The [/bid] command ([cogs/auction.py]) *)

Record Interaction := mkInteraction {
  i_guild : option Z;
  i_channel : option Z;
  i_user : Z;
  i_display_name : string
}.

(** What [bid_command] answers; one constructor per [send_message]. *)
Inductive BidResponse :=
| NotInServer
| NotAnAuction
| AuctionCompleted (winner : option string) (bid : Z)
| WrongChannel
| BidTooLow (amount current : Z)
| OwnBid
| NotInSheet
| OverBudget (available balance committed : Z)
| BalanceCheckFailed
| CouldNotUpdate
| NewBid (updated : Row).

Module Cog.

Definition BID_EXPIRY_HOURS : Z := 24.

(** [_seconds_until_expiry]; both operands of [max] are Python ints. *)
Definition _seconds_until_expiry (now last_bid_at_epoch : Z) : Z :=
  let expiry := last_bid_at_epoch + BID_EXPIRY_HOURS * 3600 in
  Z.max 0 (expiry - now).

(** [_get_pom_availability]; [oracle] is what the sheet read gives: the
    records, or the exception of an unreachable sheet. *)
Definition _get_pom_availability (oracle : res Sheet) (db : DB) (uid : Z)
  : res (option (Z * Z)) :=
  match oracle with
  | Raise e => Raise e
  | Ok rows =>
      match Sheets.get_pom_balance_sync rows uid with
      | None => Ok None
      | Some balance => Ok (Some (balance, Db.get_committed_pom_for_user db uid))
      end
  end.

(** [auction["channel_id"] != AUCTION_CHANNEL_ID] compares the integer column
    with [os.getenv(...)], a string or [None]: an integer never equals a
    string, so the test holds whenever the variable is set. *)
Definition channel_differs (AUCTION_CHANNEL_ID : option string) (cid : Z) : bool :=
  match AUCTION_CHANNEL_ID with Some _ => true | None => false end.

Definition bid_command (AUCTION_CHANNEL_ID : option string) (now : Z)
    (oracle : res Sheet) (db : DB) (i : Interaction) (amount : Z)
  : DB * BidResponse :=
  match i_guild i, i_channel i with
  | Some _, Some tid =>
      match Db.get_auction_by_thread db tid with
      | None => (db, NotAnAuction)
      | Some auction =>
          if bool_decide (status auction = completed) then
            (db, AuctionCompleted (current_bidder_name auction) (current_bid auction))
          else if channel_differs AUCTION_CHANNEL_ID (channel_id auction) then
            (db, WrongChannel)
          else if amount <=? current_bid auction then
            (db, BidTooLow amount (current_bid auction))
          else if bool_decide (current_bidder_id auction = Some (i_user i)) then
            (db, OwnBid)
          else
            match _get_pom_availability oracle db (i_user i) with
            | Raise _ => (db, BalanceCheckFailed)
            | Ok None => (db, NotInSheet)
            | Ok (Some (balance, committed)) =>
                let available := balance - committed in
                if available <? amount then
                  (db, OverBudget available balance committed)
                else
                  match Db.place_bid now db tid amount (i_user i) (i_display_name i) with
                  | (db', None) => (db', CouldNotUpdate)
                  | (db', Some updated) => (db', NewBid updated)
                  end
            end
      end
  | _, _ => (db, NotInServer)
  end.

End Cog.

(** The answers other than the new high bid. *)
Definition rejected (resp : BidResponse) : Prop :=
  match resp with NewBid _ => False | _ => True end.

(** ** Operations on the ledger, in sequence *)

(** One request or transition, each run to its end before the next starts. *)
Inductive Op :=
| OpPlaceBid (now tid amount bidder : Z) (bname : string)
| OpBid (now : Z) (oracle : res Sheet) (i : Interaction) (amount : Z)
| OpComplete (tid : Z)
| OpCreate (now tid cid gid : Z) (pname : string) (bid bidder : Z) (bname : string)
| OpRegister (tid cid gid : Z) (pname : string) (bid : Z) (bidder : option Z)
    (bname : string) (created last : Z).

(** An accepted bid: the thread, the amount and the bidder of a [place_bid]
    that returned a row (its docstring: [None] when the bid is not taken), or
    of a [/bid] that was answered with the new high bid. *)
Definition Accepted : Type := Z * Z * Z.

(** Whether the operation is [db.place_bid] called on the ledger, with no
    command around it. *)
Definition is_place_bid (op : Op) : bool :=
  match op with OpPlaceBid _ _ _ _ _ => true | _ => false end.

Definition step (chan : option string) (db : DB) (op : Op) : DB * option Accepted :=
  match op with
  | OpPlaceBid now tid amount bidder bname =>
      match Db.place_bid now db tid amount bidder bname with
      | (db', Some _) => (db', Some (tid, amount, bidder))
      | (db', None) => (db', None)
      end
  | OpBid now oracle i amount =>
      match Cog.bid_command chan now oracle db i amount with
      | (db', NewBid _) =>
          (db', (fun tid => (tid, amount, i_user i)) <$> i_channel i)
      | (db', _) => (db', None)
      end
  | OpComplete tid => ((Db.complete_auction db tid).1, None)
  | OpCreate now tid cid gid pname bid bidder bname =>
      ((Db.create_auction now db tid cid gid pname bid bidder bname).1, None)
  | OpRegister tid cid gid pname bid bidder bname created last =>
      ((Db.register_existing_auction db tid cid gid pname bid bidder bname
          created last).1, None)
  end.

(** The ledger after the operations and the accepted bids, oldest first. *)
Fixpoint run (chan : option string) (db : DB) (ops : list Op)
  : DB * list Accepted :=
  match ops with
  | [] => (db, [])
  | op :: rest =>
      let '(db1, acc) := step chan db op in
      let '(db2, accs) := run chan db1 rest in
      (db2, match acc with Some b => b :: accs | None => accs end)
  end.

(** The accepted bids of one thread. *)
Definition bids_on (tid : Z) (accs : list Accepted) : list (Z * Z) :=
  map (fun b : Accepted => (b.1.2, b.2))
      (filter (fun b : Accepted => b.1.1 = tid) accs).

(** The two bid columns of a row are those of another. *)
Definition bid_fields_kept (r r1 : Row) : Prop :=
  current_bid r1 = current_bid r /\ current_bidder_id r1 = current_bidder_id r.

(** ** Two [place_bid] calls that interleave

    [place_bid] suspends between its [SELECT] and its [UPDATE]; a schedule
    says which half of which call runs next. *)
Record BidCall := mkBidCall {
  b_now : Z; b_tid : Z; b_amount : Z; b_bidder : Z; b_name : string
}.

Inductive Half := ReadOf (c : BidCall) | WriteOf (c : BidCall).

(** The reads only decide whether their call goes on to its write; a schedule
    lists a write only for a call whose read passed. *)
Fixpoint interleave (db : DB) (sched : list Half) : option DB :=
  match sched with
  | [] => Some db
  | ReadOf c :: rest =>
      if Db.place_bid_check db (b_tid c) (b_amount c)
      then interleave db rest else None
  | WriteOf c :: rest =>
      interleave (Db.place_bid_update db (b_tid c) (b_amount c) (b_bidder c)
                    (b_name c) (b_now c)) rest
  end.

(** The stored bid of a thread after a schedule. *)
Definition bid_after (db : DB) (sched : list Half) (tid : Z) : option Z :=
  db' ← interleave db sched; current_bid <$> db' !! tid.

(** ** The background sweeps ([bot.py]) *)

(** A channel object as far as the sweeps look at it. *)
Record Channel := mkChannel { ch_is_thread : bool; ch_name : string }.

Inductive Mention := MentionUser (uid : Z) | MentionName (name : string).

Inductive Message :=
| ReminderHours (player : string) (threshold : Z)
| ReminderHour (player : string) (threshold : Z)
| AuctionComplete (winner player : string) (bid : Z)
| AuctionClosed (thread_name : string) (winner : Mention) (bid : Z)
| DeductionFailed (bid : Z) (winner : Mention).

(** Calls that leave the process. *)
Inductive Call :=
| CFetchChannel (id : Z)
| CSend (target : Z) (m : Message)
| CEdit (target : Z)
| CAppend (h : HistoryRow)
| CDeduct (uid amount : Z)
| CUpdatePinned (cid : Z).

Inductive LogLine :=
| LogReminderSent (tid threshold : Z)
| LogReminderFailed (tid : Z)
| LogRemindersCheckFailed
| LogCouldNotLock (tid : Z)
| LogCouldNotDeduct (uid : Z)
| LogSheetsFailed
| LogPinnedFailed
| LogAuctionComplete (tid : Z)
| LogCompletionsCheckFailed.

(** A trace entry: a call with the exception it raised, if any, or a log line. *)
Inductive Event :=
| EvCall (c : Call) (raised : option exn)
| EvLog (l : LogLine).

(** What the outside world answers during one sweep. *)
Record Env := mkEnv {
  e_get_channel : Z -> option Channel;
  e_fetch_channel : Z -> res Channel;
  e_send : Z -> Message -> res unit;
  e_edit : Z -> res unit;
  e_append : res unit;
  e_deduct : res unit;
  e_update_pinned : Z -> res unit
}.

(** The state the sweeps work on; [w_trace] has the latest entry first. *)
Record World := mkWorld {
  w_db : DB;
  w_sheet : Sheet;
  w_history : list HistoryRow;
  _reminders_sent : gmap (Z * Z) (gset Z);
  w_trace : list Event
}.

Definition with_db (w : World) (db : DB) : World :=
  mkWorld db (w_sheet w) (w_history w) (_reminders_sent w) (w_trace w).
Definition with_sheet (w : World) (s : Sheet) : World :=
  mkWorld (w_db w) s (w_history w) (_reminders_sent w) (w_trace w).
Definition with_history (w : World) (h : list HistoryRow) : World :=
  mkWorld (w_db w) (w_sheet w) h (_reminders_sent w) (w_trace w).
Definition with_reminders (w : World) (m : gmap (Z * Z) (gset Z)) : World :=
  mkWorld (w_db w) (w_sheet w) (w_history w) m (w_trace w).
Definition emit (ev : Event) (w : World) : World :=
  mkWorld (w_db w) (w_sheet w) (w_history w) (_reminders_sent w) (ev :: w_trace w).

(** How a block can end other than by falling through. *)
Inductive abrupt := Exc (e : exn) | Continue.

Definition M (A : Type) : Type := World -> World * (A + abrupt).

Definition ret {A} (a : A) : M A := fun w => (w, inl a).
Definition bind {A B} (m : M A) (k : A -> M B) : M B :=
  fun w => match m w with
           | (w', inl a) => k a w'
           | (w', inr x) => (w', inr x)
           end.
Definition raise {A} (e : exn) : M A := fun w => (w, inr (Exc e)).
Definition continue {A} : M A := fun w => (w, inr Continue).
Definition gets {A} (f : World -> A) : M A := fun w => (w, inl (f w)).
Definition modify (f : World -> World) : M unit := fun w => (f w, inl tt).
Definition log (l : LogLine) : M unit := modify (emit (EvLog l)).
Definition pass : M unit := ret tt.

Declare Scope sweep_scope.
Delimit Scope sweep_scope with sweep.
Notation "x <- m ;; k" := (bind m (fun x => k))
  (at level 100, m at next level, k at level 200, right associativity) : sweep_scope.
Notation "m ;; k" := (bind m (fun _ => k))
  (at level 100, k at level 200, right associativity) : sweep_scope.
Local Open Scope sweep_scope.

(** [try: m  except ...: h e]; a [continue] is no exception. *)
Definition catch {A} (m : M A) (h : exn -> M A) : M A :=
  fun w => match m w with
           | (w', inr (Exc e)) => h e w'
           | r => r
           end.

(** [except discord.HTTPException: h] *)
Definition except_http {A} (m : M A) (h : M A) : M A :=
  catch m (fun e => match e with HTTPException => h | _ => raise e end).

(** [except Exception: h] *)
Definition except_any {A} (m : M A) (h : M A) : M A :=
  catch m (fun _ => h).

(** [for a in l: body a] *)
Fixpoint for_each {A} (l : list A) (body : A -> M unit) : M unit :=
  match l with
  | [] => ret tt
  | a :: rest =>
      fun w => match body a w with
               | (w', inl _) | (w', inr Continue) => for_each rest body w'
               | (w', inr (Exc e)) => (w', inr (Exc e))
               end
  end.

(** An outside call: traced, then its answer. *)
Definition call {A} (c : Call) (r : res A) : M A :=
  match r with
  | Ok a => modify (emit (EvCall c None)) ;; ret a
  | Raise e => modify (emit (EvCall c (Some e))) ;; raise e
  end.

(** Python truth of [current_bidder_id] and of [current_bidder_name]. *)
Definition truthy_id (o : option Z) : option Z :=
  match o with Some 0 | None => None | Some u => Some u end.
Definition truthy_name (o : option string) : option string :=
  match o with Some ""%string | None => None | Some n => Some n end.

Section Sweep.

Variable env : Env.
Variable now : Z.

(** [bot.get_channel(id)], then [await bot.fetch_channel(id)] with
    [except discord.HTTPException: continue]. *)
Definition resolve (id : Z) : M Channel :=
  match e_get_channel env id with
  | Some c => ret c
  | None => except_http (call (CFetchChannel id) (e_fetch_channel env id)) continue
  end.

Definition send (target : Z) (m : Message) : M unit :=
  call (CSend target m) (e_send env target m).

Definition REMINDER_THRESHOLDS : list Z := [6; 1].

(** [lower < hours_left <= threshold_hours].  [hours_left] is the float
    [seconds_left / 3600] of an integer; the bounds [h] and [h - 0.5] are
    floats that are whole multiples of 1800 seconds, so the float comparisons
    agree with the exact ones on the rationals. *)
Definition in_window (threshold_hours : Z) (hours_left : Q) : bool :=
  let lower := (inject_Z threshold_hours - (1 # 2))%Q in
  negb (Qle_bool hours_left lower) && Qle_bool hours_left (inject_Z threshold_hours).

(** [hours_left = seconds_left / 3600] for a bid placed at [last_bid]. *)
Definition hours_left (last_bid : Z) : Q :=
  (inject_Z (Cog._seconds_until_expiry now last_bid) / inject_Z 3600)%Q.

Definition sent_for (key : Z * Z) (w : World) : gset Z :=
  default ∅ (_reminders_sent w !! key).

(** The two wordings of the reminder, by [threshold_hours >= 2]. *)
Definition reminder_msg (pname : string) (threshold_hours : Z) : Message :=
  if 2 <=? threshold_hours
  then ReminderHours pname threshold_hours
  else ReminderHour pname threshold_hours.

(** The body of [for threshold_hours in REMINDER_THRESHOLDS]. *)
Definition remind_threshold (tid : Z) (pname : string) (key : Z * Z)
    (hours_left : Q) (threshold_hours : Z) : M unit :=
  sent_for_this_bid <- gets (sent_for key) ;;
  if bool_decide (threshold_hours ∈ sent_for_this_bid) then continue
  else if in_window threshold_hours hours_left then
    except_http
      (send tid (reminder_msg pname threshold_hours) ;;
       modify (fun w => with_reminders w
                 (<[key := sent_for key w ∪ {[threshold_hours]}]> (_reminders_sent w))) ;;
       log (LogReminderSent tid threshold_hours))
      (log (LogReminderFailed tid))
  else pass.

(** The body of [for a in auctions] in [_check_expiry_reminders]. *)
Definition remind_one (a : Auction) : M unit :=
  let tid := thread_id a in
  let hours_left := hours_left (last_bid_at a.2) in
  let key := (tid, last_bid_at a.2) in
  modify (fun w => with_reminders w
            (<[key := sent_for key w]> (_reminders_sent w))) ;;
  thread <- resolve tid ;;
  if negb (ch_is_thread thread) then continue
  else for_each REMINDER_THRESHOLDS
         (remind_threshold tid (player_name a.2) key hours_left).

(** One turn of the [while] loop of [_check_expiry_reminders]. *)
Definition _check_expiry_reminders : M unit :=
  except_any
    (auctions <- gets (fun w => Db.get_active_auctions_for_reminders (w_db w)) ;;
     for_each auctions remind_one)
    (log LogRemindersCheckFailed).

Definition complete_auction (tid : Z) : M (option Row) :=
  fun w => let '(db', r) := Db.complete_auction (w_db w) tid in
           (with_db w db', inl r).

(** [sheets.append_completed_auction]: the row is appended unless the call
    raises. *)
Definition append_completed_auction (pname : string) (winner : option Z)
    (wname : option string) (bid : Z) : M unit :=
  let row := Sheets.completed_row now pname winner wname bid in
  call (CAppend row) (e_append env) ;;
  modify (fun w => with_history w (w_history w ++ [row])).

(** [sheets.deduct_pom]: [deduct_pom_sync] on the sheet unless the call
    raises. *)
Definition deduct_pom (uid amount : Z) : M bool :=
  call (CDeduct uid amount) (e_deduct env) ;;
  fun w => let '(s', ok) := Sheets.deduct_pom_sync (w_sheet w) uid amount in
           (with_sheet w s', inl ok).

Definition channel_mention (bidder : option Z) (bname : option string) : Mention :=
  match truthy_id bidder with
  | Some u => MentionUser u
  | None => MentionName (default "Unknown"%string (truthy_name bname))
  end.

(** The [try] block under [# Update Google Sheets]: the history row and the
    debit share it. *)
Definition update_sheets (r : Row) : M unit :=
  except_any
    (append_completed_auction (player_name r) (current_bidder_id r)
       (current_bidder_name r) (current_bid r) ;;
     match truthy_id (current_bidder_id r) with
     | Some uid =>
         ok <- deduct_pom uid (current_bid r) ;;
         if ok then pass
         else
           log (LogCouldNotDeduct uid) ;;
           except_http
             (send (channel_id r)
                (DeductionFailed (current_bid r)
                   (channel_mention (current_bidder_id r) (current_bidder_name r))))
             pass
     | None => pass
     end)
    (log LogSheetsFailed).

(** The [try] block that refreshes the pinned list. *)
Definition refresh_pinned (r : Row) : M unit :=
  except_any
    (call (CUpdatePinned (channel_id r)) (e_update_pinned env (channel_id r)))
    (log LogPinnedFailed).

(** What follows a successful [complete_auction] in the loop body of
    [_check_auction_completions]. *)
Definition settle (a : Auction) : M unit :=
  let tid := thread_id a in
  let r := a.2 in
  thread <- resolve tid ;;
  if negb (ch_is_thread thread) then continue else
  except_http
    (send tid (AuctionComplete
                 (default "Unknown"%string (truthy_name (current_bidder_name r)))
                 (player_name r) (current_bid r)))
    pass ;;
  except_http (call (CEdit tid) (e_edit env tid)) (log (LogCouldNotLock tid)) ;;
  resolve (channel_id r) ;;
  except_http
    (send (channel_id r)
       (AuctionClosed (ch_name thread)
          (channel_mention (current_bidder_id r) (current_bidder_name r))
          (current_bid r)))
    pass ;;
  update_sheets r ;;
  refresh_pinned r ;;
  log (LogAuctionComplete tid).

(** The body of [for a in auctions] in [_check_auction_completions]. *)
Definition complete_one (a : Auction) : M unit :=
  let seconds_left := Cog._seconds_until_expiry now (last_bid_at a.2) in
  if seconds_left <=? 0 then
    completed <- complete_auction (thread_id a) ;;
    match completed with
    | None => continue
    | Some _ => settle a
    end
  else pass.

(** One turn of the [while] loop of [_check_auction_completions], the clock
    standing at [now] for the whole turn; [PerRow] below gives each row its
    own reading. *)
Definition _check_auction_completions : M unit :=
  except_any
    (auctions <- gets (fun w => Db.get_active_auctions_for_reminders (w_db w)) ;;
     for_each auctions complete_one)
    (log LogCompletionsCheckFailed).

End Sweep.

(** [_check_auction_completions] with the clock as the loop reads it:
    [_seconds_until_expiry] calls [time.time()] for each row in its turn, after
    the awaits of the rows before it.  [clock tid] is the reading for the row
    of thread [tid]; the definition above is the turn during which the clock
    stands still. *)
Module PerRow.

Definition _check_auction_completions (env : Env) (clock : Z -> Z) : M unit :=
  except_any
    (auctions <- gets (fun w => Db.get_active_auctions_for_reminders (w_db w)) ;;
     for_each auctions
       (fun a => complete_one env (clock (thread_id a)) a))
    (log LogCompletionsCheckFailed).

End PerRow.

(** ** Reading a trace *)


(** The debits requested, latest first: user and amount. *)
Fixpoint deducts (tr : list Event) : list (Z * Z) :=
  match tr with
  | [] => []
  | EvCall (CDeduct uid amount) _ :: rest => (uid, amount) :: deducts rest
  | _ :: rest => deducts rest
  end.

(** A reminder for threshold [h] in thread [tid], sent and not raised. *)
Definition is_reminder (tid h : Z) (ev : Event) : bool :=
  match ev with
  | EvCall (CSend t (ReminderHours _ h')) None
  | EvCall (CSend t (ReminderHour _ h')) None => (t =? tid) && (h' =? h)
  | _ => false
  end.

(** The same, whether or not the send raised. *)
Definition is_reminder_attempt (tid h : Z) (ev : Event) : bool :=
  match ev with
  | EvCall (CSend t (ReminderHours _ h')) _
  | EvCall (CSend t (ReminderHour _ h')) _ => (t =? tid) && (h' =? h)
  | _ => false
  end.

Definition count (f : Event -> bool) (tr : list Event) : nat :=
  length (List.filter f tr).

Definition delivered (tid h : Z) (tr : list Event) : nat :=
  count (is_reminder tid h) tr.

Definition attempted (tid h : Z) (tr : list Event) : nat :=
  count (is_reminder_attempt tid h) tr.

(** Between [w] and [w1] nothing was written and no debit was requested. *)
Definition quiet (w w1 : World) : Prop :=
  w_db w1 = w_db w /\ w_sheet w1 = w_sheet w /\ w_history w1 = w_history w /\
  deducts (w_trace w1) = deducts (w_trace w).

(** ** Turns of the reminder loop *)

(** One turn: the clock, the answers of the chat platform, and the ledger as
    the requests handled since the last turn have left it. *)
Definition Turn : Type := Z * Env * DB.

Fixpoint run_reminders (turns : list Turn) (w : World) : World :=
  match turns with
  | [] => w
  | (now, env, db) :: rest =>
      run_reminders rest (_check_expiry_reminders env now (with_db w db)).1
  end.

(** Threshold [h] of the epoch [(tid, l)] is marked and was delivered once
    more than [c] times, or is unmarked and was delivered [c] times. *)
Definition once (tid l h : Z) (c : nat) (w : World) : Prop :=
  (delivered tid h (w_trace w) = S c /\ h ∈ sent_for (tid, l) w) \/
  (delivered tid h (w_trace w) = c /\ h ∉ sent_for (tid, l) w).

(** [P] does not look at fetches, log lines or empty marker sets. *)
Definition stable (P : World -> Prop) : Prop :=
  (forall w id o, P w -> P (emit (EvCall (CFetchChannel id) o) w)) /\
  (forall w l, P w -> P (emit (EvLog l) w)) /\
  (forall w key, P w ->
     P (with_reminders w (<[key := sent_for key w]> (_reminders_sent w)))).

(** The bid-epoch of thread [tid] in the ledger is the one begun at [l]. *)
Definition same_epoch (tid l : Z) (db : DB) : Prop :=
  forall r, db !! tid = Some r -> last_bid_at r = l.

(** The chat platform fails with [discord.HTTPException] or not at all. *)
Definition http_only (env : Env) : Prop :=
  (forall id, e_fetch_channel env id <> Raise OtherException) /\
  (forall t m, e_send env t m <> Raise OtherException).

(** [id] is found, in the cache or by a fetch. *)
Definition resolves (env : Env) (id : Z) (c : Channel) : Prop :=
  e_get_channel env id = Some c \/
  (e_get_channel env id = None /\ e_fetch_channel env id = Ok c).

(** Thread [tid] is found, is a thread, and takes messages. *)
Definition delivers (env : Env) (tid : Z) : Prop :=
  (exists c, resolves env tid c /\ ch_is_thread c = true) /\
  (forall m, e_send env tid m = Ok tt).

(** A turn that can deliver the reminder of threshold [h] for the epoch
    [(tid, l)]: inside the window, the thread active and answering, no failure
    other than [discord.HTTPException]. *)
Definition can_deliver (tid l h : Z) (turn : Turn) : Prop :=
  in_window h (hours_left turn.1.1 l) = true /\
  http_only turn.1.2 /\ delivers turn.1.2 tid /\
  exists r, turn.2 !! tid = Some r /\ status r = active.

(** ** The [/auction] commands ([cogs/auction.py], class [AuctionCog]) *)

(** What [start] answers.  [StartSilent] is the bare [return] after
    [_require_auction_channel]; [StartAborted] an exception of the thread
    creation that the handler does not name. *)
Inductive StartResponse :=
| StartNotInServer
| StartInThread
| StartSilent
| StartNotInSheet
| StartOverBudget (available balance committed : Z)
| StartBalanceCheckFailed
| StartNoThread
| StartAborted (e : exn)
| StartNotRegistered
| StartCreated (tid : Z) (auction : Row).

Inductive RegisterResponse :=
| RegNotInServer
| RegNotInThread
| RegWrongChannel
| RegAlready
| RegFailed
| Registered (auction : Row).

Module AuctionCog.

(** [_require_auction_channel]: [True] when the variable is unset, otherwise
    [channel_id == AUCTION_CHANNEL_ID], an integer (or [None]) against the
    string of [os.getenv]: [False]. *)
Definition _require_auction_channel (AUCTION_CHANNEL_ID : option string)
    (i : Interaction) : bool :=
  match AUCTION_CHANNEL_ID with None => true | Some _ => false end.

(** [start].  [in_thread] is [isinstance(interaction.channel, discord.Thread)];
    [thread] is the [id] of the thread that [interaction.channel.send] and
    [msg.create_thread] give, or the exception one of them raises.  The chat
    calls after the insert (the embed, [add_user], the pinned list, the
    follow-up) do not touch the ledger and are left out. *)
Definition start (AUCTION_CHANNEL_ID : option string) (now : Z)
    (oracle : res Sheet) (in_thread : bool) (thread : res Z)
    (db : DB) (i : Interaction) (player_name : string) (initial_bid : Z)
  : DB * StartResponse :=
  match i_guild i, i_channel i with
  | Some gid, Some cid =>
      if in_thread then (db, StartInThread)
      else if negb (_require_auction_channel AUCTION_CHANNEL_ID i) then
        (db, StartSilent)
      else
        match Cog._get_pom_availability oracle db (i_user i) with
        | Raise _ => (db, StartBalanceCheckFailed)
        | Ok None => (db, StartNotInSheet)
        | Ok (Some (balance, committed)) =>
            let available := balance - committed in
            if available <? initial_bid then
              (db, StartOverBudget available balance committed)
            else
              match thread with
              | Raise HTTPException => (db, StartNoThread)
              | Raise e => (db, StartAborted e)
              | Ok tid =>
                  match Db.create_auction now db tid cid gid player_name
                          initial_bid (i_user i) (i_display_name i) with
                  | (db', None) => (db', StartNotRegistered)
                  | (db', Some auction) => (db', StartCreated tid auction)
                  end
              end
        end
  | _, _ => (db, StartNotInServer)
  end.

(** [register].  [parent_id] is [thread.parent_id]; [offset] is the integer
    [int((hours_remaining - BID_EXPIRY_HOURS) * 3600)].  The test
    [thread.parent_id != AUCTION_CHANNEL_ID] holds whenever the variable is
    set, for the same reason as in [_require_auction_channel]. *)
Definition register (AUCTION_CHANNEL_ID : option string) (now : Z)
    (in_thread : bool) (parent_id : option Z)
    (db : DB) (i : Interaction) (player_name : string) (current_bid : Z)
    (high_bidder : Z) (high_bidder_name : string) (offset : Z)
  : DB * RegisterResponse :=
  match i_guild i, i_channel i with
  | Some gid, Some tid =>
      if negb in_thread then (db, RegNotInThread)
      else
        match AUCTION_CHANNEL_ID with
        | Some _ => (db, RegWrongChannel)
        | None =>
            match Db.get_auction_by_thread db tid with
            | Some _ => (db, RegAlready)
            | None =>
                let last_bid_at := now + offset in
                let created_at := last_bid_at in
                match Db.register_existing_auction db tid
                        (default tid (truthy_id parent_id)) gid player_name
                        current_bid (Some high_bidder) high_bidder_name
                        created_at last_bid_at with
                | (db', None) => (db', RegFailed)
                | (db', Some auction) => (db', Registered auction)
                end
            end
        end
  | _, _ => (db, RegNotInServer)
  end.

End AuctionCog.

(** ** The auction embed ([cogs/auction.py]) *)

(** The three colours [_embed_color_for_time_left] chooses from. *)
Inductive Color := green | gold | red.

(** The strings of [_format_time_left]: ["Expired"], [f"{h}h {m}m"] and
    [f"{m}m"]. *)
Inductive TimeLeft :=
| Expired
| HoursMinutes (h m : Z)
| Minutes (m : Z).

Record Embed := mkEmbed {
  em_title : string;
  em_description : string;
  em_color : Color;
  em_current_bid : Z;
  em_high_bidder : option string;
  em_time_left : TimeLeft
}.

Module Embeds.

(** [_format_time_left]; the callers pass the integer of
    [_seconds_until_expiry]. *)
Definition _format_time_left (seconds : Z) : TimeLeft :=
  if seconds <=? 0 then Expired
  else
    let h := seconds / 3600 in
    let m := (seconds mod 3600) / 60 in
    if 0 <? h then HoursMinutes h m else Minutes m.

(** [_embed_color_for_time_left]; [hours] is the float
    [seconds_left / 3600] of an integer, compared with 12 and 3, which are
    whole multiples of 3600 seconds. *)
Definition _embed_color_for_time_left (seconds_left : Z) : Color :=
  let hours := (inject_Z seconds_left / inject_Z 3600)%Q in
  if Qle_bool (inject_Z 12) hours then green
  else if Qle_bool (inject_Z 3) hours then gold
  else red.

(** [_auction_embed] as every caller uses it, without [time_left_seconds]:
    [last_bid_at] is a [NOT NULL] column, so the time left is always computed.
    [em_high_bidder] is [None] where the embed shows a dash. *)
Definition _auction_embed (now : Z) (auction : Row) (title : string) : Embed :=
  let time_left_seconds := Cog._seconds_until_expiry now (last_bid_at auction) in
  mkEmbed title (player_name auction)
    (_embed_color_for_time_left time_left_seconds)
    (current_bid auction)
    (truthy_name (current_bidder_name auction))
    (_format_time_left time_left_seconds).

End Embeds.

(** ** The pinned list message ([_update_pinned_message]) *)

(** The exception classes the function tells apart: [discord.NotFound] is an
    [HTTPException], which is a [DiscordException]. *)
Inductive dexn := NotFound | OtherHTTP | OtherDiscord | NotDiscord.

Definition is_discord (e : dexn) : bool :=
  match e with NotDiscord => false | _ => true end.

Inductive ans (A : Type) := Fine (a : A) | Fails (e : dexn).
Arguments Fine {A} a.
Arguments Fails {A} e.

(** A pinned message: its id, [msg.author == bot.user], and the title of its
    first embed, if it has one. *)
Record PinnedMsg := mkPinnedMsg {
  pm_id : Z;
  pm_by_bot : bool;
  pm_title : option string
}.

(** What the channel answers. *)
Record PinEnv := mkPinEnv {
  pe_fetch_message : Z -> ans unit;
  pe_edit : Z -> ans unit;
  pe_pins : ans (list PinnedMsg);
  pe_send : ans Z;
  pe_pin : Z -> ans unit
}.

(** What was done to the channel. *)
Inductive PinAction := Edited (id : Z) | Sent (id : Z) | Pinned (id : Z).

(** The cache afterwards, the value returned or the exception raised, and
    the actions that went through, oldest first. *)
Definition PinOutcome : Type := gmap Z Z * ans bool * list PinAction.

Module Pinned.

(** The [for msg in pins] loop: [None] when it ends without a match,
    otherwise the id edited or the exception of the edit. *)
Fixpoint search_pins (env : PinEnv) (expected_embed_title : string)
    (pins : list PinnedMsg) : option (ans Z) :=
  match pins with
  | [] => None
  | msg :: rest =>
      if negb (pm_by_bot msg) then search_pins env expected_embed_title rest
      else if bool_decide (pm_title msg = Some expected_embed_title) then
        match pe_edit env (pm_id msg) with
        | Fine _ => Some (Fine (pm_id msg))
        | Fails e => Some (Fails e)
        end
      else search_pins env expected_embed_title rest
  end.

(** [# 3) Create new and pin] *)
Definition create_new (env : PinEnv) (cid : Z) (cache : gmap Z Z) : PinOutcome :=
  match pe_send env with
  | Fails e => (cache, Fails e, [])
  | Fine id =>
      match pe_pin env id with
      | Fails e => (cache, Fails e, [Sent id])
      | Fine _ => (<[cid := id]> cache, Fine true, [Sent id; Pinned id])
      end
  end.

(** [# 2) Search pins], inside [try ... except discord.DiscordException:
    pass], and what follows it. *)
Definition from_pins (env : PinEnv) (cid : Z) (expected_embed_title : string)
    (cache : gmap Z Z) : PinOutcome :=
  match pe_pins env with
  | Fails e => if is_discord e then create_new env cid cache
               else (cache, Fails e, [])
  | Fine pins =>
      match search_pins env expected_embed_title pins with
      | None => create_new env cid cache
      | Some (Fine id) => (<[cid := id]> cache, Fine true, [Edited id])
      | Some (Fails e) => if is_discord e then create_new env cid cache
                          else (cache, Fails e, [])
      end
  end.

(** [_update_pinned_message]; [is_thread] is
    [isinstance(channel, discord.Thread)], [cid] is [channel.id]. *)
Definition _update_pinned_message (env : PinEnv) (is_thread : bool) (cid : Z)
    (expected_embed_title : string) (cache : gmap Z Z) : PinOutcome :=
  if is_thread then (cache, Fine false, [])
  else
    match cache !! cid with
    | None => from_pins env cid expected_embed_title cache
    | Some msg_id =>
        match pe_fetch_message env msg_id with
        | Fails NotFound =>
            from_pins env cid expected_embed_title (delete cid cache)
        | Fails e => (cache, Fails e, [])
        | Fine _ =>
            match pe_edit env msg_id with
            | Fine _ => (cache, Fine true, [Edited msg_id])
            | Fails NotFound =>
                from_pins env cid expected_embed_title (delete cid cache)
            | Fails e => (cache, Fails e, [])
            end
        end
    end.

End Pinned.

(** The first pinned message of the bot with the expected title. *)
Definition first_own_pin (expected : string) (pins : list PinnedMsg)
  : option PinnedMsg :=
  head (filter (fun msg => pm_by_bot msg = true /\ pm_title msg = Some expected)
          pins).

(** An outcome for channel [cid] from the cache [cache]: not [False]; when
    [True], one message has the embed and the cache entry of the channel is
    its id; the entries of other channels are those of [cache]. *)
Definition tidy (cid : Z) (cache : gmap Z Z) (out : PinOutcome) : Prop :=
  out.1.2 <> Fine false /\
  (out.1.2 = Fine true ->
   exists id, out.1.1 !! cid = Some id /\
              (out.2 = [Edited id] \/ out.2 = [Sent id; Pinned id])) /\
  (forall k, k <> cid -> out.1.1 !! k = cache !! k).

(** ** The clock of the reminder loop *)

(** The second at which the window of threshold [h] opens for a bid placed at
    [l]: [h] hours before the bid expires. *)
Definition window_opens (l h : Z) : Z :=
  l + Cog.BID_EXPIRY_HOURS * 3600 - 3600 * h.

(** Consecutive clock readings are at most [d] seconds apart. *)
Fixpoint spaced (d : Z) (ts : list Z) : Prop :=
  match ts with
  | t :: (t' :: _) as rest => t' - t <= d /\ spaced d rest
  | _ => True
  end.

(** A turn that sees the epoch [(tid, l)] with the thread active and
    answering. *)
Definition sees (tid l : Z) (turn : Turn) : Prop :=
  same_epoch tid l turn.2 /\ http_only turn.1.2 /\ delivers turn.1.2 tid /\
  exists r, turn.2 !! tid = Some r /\ status r = active.

(** ** What a completion sweep does to a row *)

(** The row after a sweep at [now] that reaches it: completed when it was
    active with its last bid 24 hours old, as it was otherwise. *)
Definition complete_expired (now : Z) (r : Row) : Row :=
  if decide (status r = active /\ last_bid_at r + 86400 <= now)
  then Db.set_completed r else r.

(** The debit the settlement of a row asks for: none before expiry, none for
    a row whose [current_bidder_id] is not truthy. *)
Definition debit_due (now : Z) (a : Auction) : option (Z * Z) :=
  if decide (last_bid_at a.2 + 86400 <= now)
  then uid ← truthy_id (current_bidder_id a.2); Some (uid, current_bid a.2)
  else None.

(** The ledger after the loop bodies of a completion sweep for the rows [l],
    one after the other, each at its own clock reading. *)
Definition completed_in (clock : Z -> Z) (db : DB) (l : list Auction) : DB :=
  foldl (fun d a => if bool_decide (last_bid_at a.2 + 86400 <= clock (thread_id a))
                    then (Db.complete_auction d (thread_id a)).1 else d) db l.

(** The chat platform fails with [discord.HTTPException] or not at all, the
    lock of a thread included. *)
Definition chat_http_only (env : Env) : Prop :=
  http_only env /\ forall t, e_edit env t <> Raise OtherException.

(** What the settlement of row [r] has done between [w] and [w']: nothing
    to the ledger; to the sheet and the list of debits requested either
    nothing, or one debit of the bid from the leader, which the sheet has
    taken or not. *)
Definition settled (r : Row) (w w' : World) : Prop :=
  w_db w' = w_db w /\
  ((w_sheet w' = w_sheet w /\ deducts (w_trace w') = deducts (w_trace w)) \/
   exists uid,
     truthy_id (current_bidder_id r) = Some uid /\
     deducts (w_trace w') = (uid, current_bid r) :: deducts (w_trace w) /\
     (w_sheet w' = w_sheet w \/
      w_sheet w' = (Sheets.deduct_pom_sync (w_sheet w) uid (current_bid r)).1)).

(** ** Budgets *)

Definition bids_positive (db : DB) : Prop :=
  forall tid r, db !! tid = Some r -> 0 < current_bid r.

(** No user the sheet lists is committed beyond the balance. *)
Definition within_budget (db : DB) (sheet : Sheet) : Prop :=
  forall u b, Sheets.get_pom_balance_sync sheet u = Some b ->
              Db.get_committed_pom_for_user db u <= b.

(** What the bot is asked to do, one request run to its end before the next:
    a [/bid], an [/auction start], or a turn of one of the two loops.
    [sheet_error] is the exception of the balance read, if it raises. *)
Inductive Request :=
| ReqBid (now : Z) (sheet_error : option exn) (i : Interaction) (amount : Z)
| ReqStart (now : Z) (sheet_error : option exn) (in_thread : bool)
    (thread : res Z) (i : Interaction) (player_name : string) (initial_bid : Z)
| ReqCompletions (now : Z) (env : Env)
| ReqReminders (now : Z) (env : Env).

(** The balance read of a command sees the sheet of the moment. *)
Definition read_sheet (w : World) (sheet_error : option exn) : res Sheet :=
  match sheet_error with None => Ok (w_sheet w) | Some e => Raise e end.

Definition serve (AUCTION_CHANNEL_ID : option string) (w : World) (q : Request)
  : World :=
  match q with
  | ReqBid now err i amount =>
      with_db w (Cog.bid_command AUCTION_CHANNEL_ID now (read_sheet w err)
                   (w_db w) i amount).1
  | ReqStart now err in_thread thread i pname bid =>
      with_db w (AuctionCog.start AUCTION_CHANNEL_ID now (read_sheet w err)
                   in_thread thread (w_db w) i pname bid).1
  | ReqCompletions now env => (_check_auction_completions env now w).1
  | ReqReminders now env => (_check_expiry_reminders env now w).1
  end.

(** [app_commands.Range[int, 1, 1_000_000]] on the amounts. *)
Definition in_range (q : Request) : Prop :=
  match q with
  | ReqBid _ _ _ amount => 1 <= amount <= 1000000
  | ReqStart _ _ _ _ _ _ initial_bid => 1 <= initial_bid <= 1000000
  | _ => True
  end.

(** ** Shares of a commitment *)

(** What the row of thread [tid] adds to the commitment of [uid]. *)
Definition share (uid tid : Z) (r : Row) : Z :=
  if decide (Db.led_by uid (tid, r)) then current_bid r else 0.

(** ** What a block keeps, and how it ends *)

(** [m] keeps [P], however it ends. *)
Definition preserves {A} (P : World -> Prop) (m : M A) : Prop :=
  forall w w' x, m w = (w', x) -> P w -> P w'.

(** [m] does not end in an exception. *)
Definition safe {A} (m : M A) : Prop :=
  forall w w' e, m w <> (w', inr (Exc e)).

(** The world without the row of thread [tid]. *)
Definition without (tid : Z) (w : World) : World :=
  with_db w (delete tid (w_db w)).

(** [m] does not look at the row of thread [tid]: without that row it ends
    the same way, with the same sheet, history, markers and trace, and the
    same ledger but for that row. *)
Definition blind_to {A} (tid : Z) (m : M A) : Prop :=
  forall w, m (without tid w) = (without tid (m w).1, (m w).2).

(** ** Sample data *)

Definition row_demo : Row :=
  mkRow 10 100 "Prospect" 100 (Some 7) (Some "A") 0 0 active.

Definition db_demo : DB := {[1 := row_demo]}.

Definition call_low : BidCall := mkBidCall 5 1 150 8 "B".
Definition call_high : BidCall := mkBidCall 6 1 200 9 "C".

(** The ledger of the second budget scenario: user 7 leads thread 1 with 500,
    user 8 leads thread 2 with 50; the sheet gives user 7 a balance of 500. *)
Definition db_budget : DB :=
  {[1 := mkRow 10 100 "First" 500 (Some 7) (Some "A") 0 0 active;
    2 := mkRow 10 100 "Second" 50 (Some 8) (Some "B") 0 0 active]}.

Definition sheet_budget : Sheet :=
  [mkBalanceRow (Some 8) "B" (Some 900); mkBalanceRow (Some 7) "A" (Some 500)].

(** Scenario 1: 100 by user 7, then 150 by user 8 (accepted), 120 by user 9
    and 150 by user 8 again (both rejected), then completion. *)
Definition ops_demo : list Op :=
  let sheet := Ok [mkBalanceRow (Some 8) "B" (Some 1000);
                   mkBalanceRow (Some 9) "C" (Some 1000)] in
  [OpBid 5 sheet (mkInteraction (Some 100) (Some 1) 8 "B") 150;
   OpBid 6 sheet (mkInteraction (Some 100) (Some 1) 9 "C") 120;
   OpBid 7 sheet (mkInteraction (Some 100) (Some 1) 8 "B") 150;
   OpComplete 1].

(** The ledger functions alone: the auction of [db_demo] is completed, then
    [place_bid] is called with 300 and with 200. *)
Definition ops_late : list Op :=
  [OpComplete 1; OpPlaceBid 5 1 300 8 "B"; OpPlaceBid 6 1 200 9 "C"].

Definition sheet_demo : Sheet := [mkBalanceRow (Some 7) "A" (Some 500)].

Definition w_demo : World := mkWorld db_demo sheet_demo [] ∅ [].

Definition thread_demo : Channel := mkChannel true "Prospect".



(** The chat platform answers every call. *)
Definition env_ok : Env :=
  mkEnv (fun _ => Some thread_demo) (fun _ => Ok thread_demo)
        (fun _ _ => Ok tt) (fun _ => Ok tt) (Ok tt) (Ok tt) (fun _ => Ok tt).

(** Every send raises [discord.HTTPException]. *)
Definition env_send_fails : Env :=
  mkEnv (fun _ => Some thread_demo) (fun _ => Ok thread_demo)
        (fun _ _ => Raise HTTPException) (fun _ => Ok tt)
        (Ok tt) (Ok tt) (fun _ => Ok tt).

(** The bid of [db_demo] was placed at 0 and expires at 86400: the turns see
    6.2 hours, 6 hours and 5.9 hours left. *)
Definition turns_demo : list Turn :=
  [(64000, env_ok, db_demo); (64800, env_ok, db_demo); (65100, env_ok, db_demo)].

(** A failed send at 6 hours left, then a turn at 5.4 hours left. *)
Definition turns_late : list Turn :=
  [(64800, env_send_fails, db_demo); (66960, env_ok, db_demo)].

(** * Properties of the ledger *)

Section Ledger.

Implicit Types (db : DB) (r : Row) (tid uid amount bidder now : Z).

(** ** Lookups after each statement *)

Lemma place_bid_update_lookup db tid amount bidder bname now r :
  db !! tid = Some r ->
  Db.place_bid_update db tid amount bidder bname now !! tid =
    Some (match status r with
          | active => Db.set_bid amount bidder bname now r
          | completed => r
          end).
Proof.
  intros Hr. unfold Db.place_bid_update. rewrite Hr.
  destruct (status r); [apply lookup_insert_eq | exact Hr].
Qed.

Lemma place_bid_update_completed db tid amount bidder bname now r :
  db !! tid = Some r -> status r = completed ->
  Db.place_bid_update db tid amount bidder bname now = db.
Proof. intros Hr Hs. unfold Db.place_bid_update. now rewrite Hr, Hs. Qed.

Lemma place_bid_none db tid amount bidder bname now db' :
  Db.place_bid now db tid amount bidder bname = (db', None) -> db' = db.
Proof.
  unfold Db.place_bid, Db.place_bid_check, Db.get_auction_by_thread.
  destruct (db !! tid) as [r|] eqn:Hr; [|now intros [= <-]].
  destruct (amount <=? current_bid r); simpl; [now intros [= <-]|].
  rewrite (place_bid_update_lookup _ _ _ _ _ _ _ Hr). discriminate.
Qed.

Lemma complete_auction_lookup db tid r :
  db !! tid = Some r ->
  (Db.complete_auction db tid).1 !! tid =
    Some (match status r with active => Db.set_completed r | completed => r end).
Proof.
  intros Hr. unfold Db.complete_auction. simpl. rewrite Hr.
  destruct (status r); [apply lookup_insert_eq | exact Hr].
Qed.

Lemma insert_row_taken db tid r r' :
  db !! tid = Some r -> Db.insert_row db tid r' = None.
Proof. intros Hr. unfold Db.insert_row. now rewrite Hr. Qed.

Lemma insert_row_keeps db tid r' db' k r :
  Db.insert_row db tid r' = Some db' -> db !! k = Some r -> db' !! k = Some r.
Proof.
  unfold Db.insert_row. destruct (db !! tid) eqn:Ht; [discriminate|].
  intros [= <-] Hk. rewrite lookup_insert_ne; [exact Hk | congruence].
Qed.

(** ** The committed sum *)

Lemma sum_bids_perm l1 l2 : l1 ≡ₚ l2 -> Db.sum_bids l1 = Db.sum_bids l2.
Proof.
  induction 1 as [|a l1 l2 _ IH| |l1 l2 l3 _ IH1 _ IH2]; simpl;
    [reflexivity | rewrite IH; reflexivity | lia | congruence].
Qed.

(** A row the user does not lead adds nothing to the user's commitment. *)
Lemma committed_delete db tid r uid :
  db !! tid = Some r -> ~ Db.led_by uid (tid, r) ->
  Db.get_committed_pom_for_user db uid =
  Db.get_committed_pom_for_user (delete tid db) uid.
Proof.
  intros Hr Hled. unfold Db.get_committed_pom_for_user.
  rewrite <- (sum_bids_perm _ _
                (filter_Permutation (Db.led_by uid) _ _ (map_to_list_delete db tid r Hr))).
  rewrite filter_cons_False by exact Hled. reflexivity.
Qed.

End Ledger.

(** * Properties of the [/bid] command *)

Section BidCommand.

Implicit Types (db : DB) (r : Row) (i : Interaction).

(** Every run of [bid_command] either rejects and leaves the ledger alone, or
    has passed all of its checks and written the bid. *)
Lemma bid_command_inv chan now oracle db i amount db' resp :
  Cog.bid_command chan now oracle db i amount = (db', resp) ->
  (db' = db /\ rejected resp) \/
  (exists tid r rows balance,
      i_channel i = Some tid /\ db !! tid = Some r /\ status r = active /\
      chan = None /\ current_bid r < amount /\
      current_bidder_id r <> Some (i_user i) /\
      oracle = Ok rows /\
      Sheets.get_pom_balance_sync rows (i_user i) = Some balance /\
      amount <= balance - Db.get_committed_pom_for_user db (i_user i) /\
      db' = <[tid := Db.set_bid amount (i_user i) (i_display_name i) now r]> db /\
      resp = NewBid (Db.set_bid amount (i_user i) (i_display_name i) now r)).
Proof.
  unfold Cog.bid_command, Db.get_auction_by_thread.
  destruct (i_guild i) as [g|]; [|intros [= <- <-]; left; now split].
  destruct (i_channel i) as [tid|]; [|intros [= <- <-]; left; now split].
  destruct (db !! tid) as [r|] eqn:Hr; [|intros [= <- <-]; left; now split].
  case_bool_decide as Hst; [intros [= <- <-]; left; now split|].
  unfold Cog.channel_differs.
  destruct chan as [c|]; [intros [= <- <-]; left; now split|].
  destruct (amount <=? current_bid r) eqn:Hle; [intros [= <- <-]; left; now split|].
  apply Z.leb_gt in Hle.
  case_bool_decide as Hown; [intros [= <- <-]; left; now split|].
  unfold Cog._get_pom_availability.
  destruct oracle as [rows|e]; [|intros [= <- <-]; left; now split].
  destruct (Sheets.get_pom_balance_sync rows (i_user i)) as [balance|] eqn:Hbal;
    [|intros [= <- <-]; left; now split].
  destruct (_ <? amount) eqn:Hav; [intros [= <- <-]; left; now split|].
  apply Z.ltb_ge in Hav.
  assert (Hact : status r = active) by (destruct (status r); congruence).
  unfold Db.place_bid, Db.place_bid_check, Db.get_auction_by_thread.
  rewrite Hr. apply Z.leb_gt in Hle. rewrite Hle. simpl.
  rewrite (place_bid_update_lookup _ _ _ _ _ _ _ Hr), Hact.
  unfold Db.place_bid_update. rewrite Hr, Hact.
  intros [= <- <-]. right. apply Z.leb_gt in Hle.
  exists tid, r, rows, balance. repeat split; try assumption; reflexivity.
Qed.

End BidCommand.

(** * The claims about the ledger and the command *)

(** C9. A thread id that already has a row admits no second one:
    [create_auction] and [register_existing_auction] on it return [None] and
    hand back the ledger as it was, so the existing row stays as created. *)
Theorem duplicate_thread_rejected (db : DB) (tid : Z) (r : Row)
    (Hrow : db !! tid = Some r) :
  (forall now cid gid pname bid bidder bname,
      Db.create_auction now db tid cid gid pname bid bidder bname = (db, None)) /\
  (forall cid gid pname bid bidder bname created last,
      Db.register_existing_auction db tid cid gid pname bid bidder bname created last
      = (db, None)) /\
  Db.get_auction_by_thread db tid = Some r.
Proof.
  split; [|split].
  - intros. unfold Db.create_auction.
    now rewrite (insert_row_taken _ _ _ _ Hrow).
  - intros. unfold Db.register_existing_auction.
    now rewrite (insert_row_taken _ _ _ _ Hrow).
  - exact Hrow.
Qed.

Lemma duplicate_thread_rejected_witness :
  (Db.create_auction 0 ∅ 1 10 100 "Prospect" 100 7 "A").2 = Some row_demo /\
  Db.create_auction 50 db_demo 1 11 101 "Other" 900 8 "B" = (db_demo, None) /\
  Db.register_existing_auction db_demo 1 11 101 "Other" 900 (Some 8) "B" 3 4
  = (db_demo, None).
Proof.
  split; [reflexivity|].
  pose proof (duplicate_thread_rejected db_demo 1 row_demo eq_refl) as [Hc [Hr _]].
  split; [apply Hc | apply Hr].
Defined.

(** C4 (the code departs from it). On a completed auction a bid above the
    stored amount is not answered with [None]: [place_bid] writes nothing and
    returns the stored row. *)
Theorem place_bid_completed_returns_row (now : Z) (db : DB) (tid amount bidder : Z)
    (bname : string) (r : Row)
    (Hrow : db !! tid = Some r) (Hdone : status r = completed)
    (Hhigh : current_bid r < amount) :
  Db.place_bid now db tid amount bidder bname = (db, Some r).
Proof.
  unfold Db.place_bid, Db.place_bid_check, Db.get_auction_by_thread.
  rewrite Hrow. apply Z.leb_gt in Hhigh. rewrite Hhigh. simpl.
  rewrite (place_bid_update_completed _ _ _ _ _ _ _ Hrow Hdone).
  now rewrite Hrow.
Qed.

Lemma place_bid_completed_returns_row_witness :
  Db.place_bid 5 {[1 := Db.set_completed row_demo]} 1 150 8 "B"
  = ({[1 := Db.set_completed row_demo]}, Some (Db.set_completed row_demo)).
Proof.
  apply (place_bid_completed_returns_row 5 {[1 := Db.set_completed row_demo]}
           1 150 8 "B" (Db.set_completed row_demo)); [reflexivity | reflexivity | simpl; lia].
Defined.

(** C3, as the claim has it, fails: both calls read the stored bid 100; the
    higher bid is written first, and the write of the lower one then replaces
    200 by 150. *)
Lemma stale_write_lowers_bid :
  bid_after db_demo [ReadOf call_low; ReadOf call_high; WriteOf call_high] 1
  = Some 200 /\
  bid_after db_demo
    [ReadOf call_low; ReadOf call_high; WriteOf call_high; WriteOf call_low] 1
  = Some 150.
Proof. split; reflexivity. Qed.

(** C3, amended. The [UPDATE] of [place_bid] looks at the status alone: on an
    active row it stores the amount whatever the stored bid is, on a completed
    row it stores nothing.  The amount is compared once, with the bid that was
    read; a [place_bid] that runs from its read to its write without another
    call in between never lowers [current_bid]. *)
Theorem write_checks_status_only (db : DB) (tid : Z) (r : Row)
    (amount bidder : Z) (bname : string) (now : Z)
    (Hrow : db !! tid = Some r) :
  (status r = active ->
   Db.place_bid_update db tid amount bidder bname now
   = <[tid := Db.set_bid amount bidder bname now r]> db) /\
  (status r = completed ->
   Db.place_bid_update db tid amount bidder bname now = db) /\
  (exists r', (Db.place_bid now db tid amount bidder bname).1 !! tid = Some r' /\
              current_bid r <= current_bid r').
Proof.
  split; [|split].
  - intros Hact. unfold Db.place_bid_update. now rewrite Hrow, Hact.
  - intros Hdone. now apply place_bid_update_completed with r.
  - unfold Db.place_bid, Db.place_bid_check, Db.get_auction_by_thread.
    rewrite Hrow. destruct (amount <=? current_bid r) eqn:Hle; simpl.
    + exists r. split; [exact Hrow | lia].
    + apply Z.leb_gt in Hle.
      rewrite (place_bid_update_lookup _ _ _ _ _ _ _ Hrow).
      destruct (status r); eexists; (split; [reflexivity|]); simpl; lia.
Qed.

Lemma write_checks_status_only_witness :
  Db.place_bid_update db_demo 1 30 8 "B" 5
  = <[1 := Db.set_bid 30 8 "B" 5 row_demo]> db_demo.
Proof.
  exact (proj1 (write_checks_status_only db_demo 1 row_demo 30 8 "B" 5 eq_refl) eq_refl).
Defined.

(** C6. Whoever leads an auction cannot bid on it: whatever the amount, the
    command rejects the bid and the ledger stays as it is; when no earlier
    check applies the answer is the own-bid one. *)
Theorem own_bid_rejected (chan : option string) (now : Z) (oracle : res Sheet)
    (db : DB) (i : Interaction) (amount tid : Z) (r : Row)
    (Hthread : i_channel i = Some tid) (Hrow : db !! tid = Some r)
    (Hlead : current_bidder_id r = Some (i_user i)) :
  let out := Cog.bid_command chan now oracle db i amount in
  out.1 = db /\ rejected out.2 /\
  (i_guild i <> None -> status r = active -> chan = None ->
   current_bid r < amount -> out.2 = OwnBid).
Proof.
  intros out. subst out.
  destruct (Cog.bid_command chan now oracle db i amount) as [db' resp] eqn:Hcmd.
  cbn [fst snd]. split; [|split].
  - destruct (bid_command_inv _ _ _ _ _ _ _ _ Hcmd)
      as [[-> _]|(t & r0 & _ & _ & Ht & Hr0 & _ & _ & _ & Hne & _)]; [reflexivity|].
    congruence.
  - destruct (bid_command_inv _ _ _ _ _ _ _ _ Hcmd)
      as [[_ Hrej]|(t & r0 & _ & _ & Ht & Hr0 & _ & _ & _ & Hne & _)]; [exact Hrej|].
    congruence.
  - intros Hg Hact -> Hhigh. revert Hcmd.
    unfold Cog.bid_command, Db.get_auction_by_thread.
    destruct (i_guild i); [|congruence]. rewrite Hthread, Hrow, Hact.
    apply Z.leb_gt in Hhigh. simpl. rewrite Hhigh, Hlead.
    rewrite bool_decide_eq_true_2 by reflexivity. now intros [= _ <-].
Qed.

Lemma own_bid_rejected_witness :
  Cog.bid_command None 5 (Ok [mkBalanceRow (Some 7) "A" (Some 5000000)]) db_demo
    (mkInteraction (Some 100) (Some 1) 7 "A") 1000000
  = (db_demo, OwnBid).
Proof.
  pose proof (own_bid_rejected None 5 (Ok [mkBalanceRow (Some 7) "A" (Some 5000000)])
                db_demo (mkInteraction (Some 100) (Some 1) 7 "A") 1000000 1 row_demo
                eq_refl eq_refl eq_refl) as (Hdb & _ & Hown).
  apply injective_projections; [exact Hdb|].
  apply Hown; [discriminate | reflexivity | reflexivity | simpl; lia].
Defined.

(** C5. Every [/bid] is either rejected, and then the ledger is untouched, or
    accepted, and then its amount is at most the bidder's balance, as the sheet
    gives it for this very command, minus the bidder's commitment; the bidder
    does not lead the auction bid on, so the commitment is the sum over the
    other active auctions the bidder leads.  A bid that passes the earlier
    checks and exceeds balance minus commitment is answered as over budget. *)
Theorem bid_within_budget (chan : option string) (now : Z) (oracle : res Sheet)
    (db : DB) (i : Interaction) (amount : Z) :
  let out := Cog.bid_command chan now oracle db i amount in
  let committed := Db.get_committed_pom_for_user db (i_user i) in
  ((out.1 = db /\ rejected out.2) \/
   (exists rows balance tid u,
       out.2 = NewBid u /\ oracle = Ok rows /\ i_channel i = Some tid /\
       Sheets.get_pom_balance_sync rows (i_user i) = Some balance /\
       amount <= balance - committed /\
       committed = Db.get_committed_pom_for_user (delete tid db) (i_user i))) /\
  (forall rows balance tid r,
      oracle = Ok rows ->
      Sheets.get_pom_balance_sync rows (i_user i) = Some balance ->
      i_guild i <> None -> i_channel i = Some tid -> db !! tid = Some r ->
      status r = active -> chan = None -> current_bid r < amount ->
      current_bidder_id r <> Some (i_user i) ->
      balance - committed < amount ->
      out = (db, OverBudget (balance - committed) balance committed)).
Proof.
  intros out committed. subst out committed. split.
  - destruct (Cog.bid_command chan now oracle db i amount) as [db' resp] eqn:Hcmd.
    cbn [fst snd].
    destruct (bid_command_inv _ _ _ _ _ _ _ _ Hcmd)
      as [[-> Hrej]|(tid & r & rows & balance & Ht & Hr & Hact & _ & _ & Hne
                     & Hor & Hbal & Hle & _ & ->)].
    + left. now split.
    + right. exists rows, balance, tid. eexists.
      repeat split; try eassumption.
      apply committed_delete with r; [exact Hr|].
      intros [_ Hled]. exact (Hne Hled).
  - intros rows balance tid r -> Hbal Hg Ht Hr Hact -> Hhigh Hne Hover.
    unfold Cog.bid_command, Db.get_auction_by_thread, Cog._get_pom_availability.
    destruct (i_guild i); [|congruence]. rewrite Ht, Hr, Hact, Hbal.
    apply Z.leb_gt in Hhigh. apply Z.ltb_lt in Hover. simpl.
    rewrite Hhigh, Hover. now rewrite bool_decide_eq_false_2 by exact Hne.
Qed.

(** Scenario 2: with balance 500 and 500 committed on thread 1, user 7 has
    nothing available; a bid of 100 on thread 2 is over budget and the ledger
    is as before. *)
Lemma bid_within_budget_witness :
  Cog.bid_command None 9 (Ok sheet_budget) db_budget
    (mkInteraction (Some 100) (Some 2) 7 "A") 100
  = (db_budget, OverBudget 0 500 500).
Proof.
  exact (proj2 (bid_within_budget None 9 (Ok sheet_budget) db_budget
                  (mkInteraction (Some 100) (Some 2) 7 "A") 100)
           sheet_budget 500 2
           (mkRow 10 100 "Second" 50 (Some 8) (Some "B") 0 0 active)
           eq_refl eq_refl ltac:(discriminate) eq_refl eq_refl eq_refl eq_refl
           ltac:(simpl; lia) ltac:(discriminate) ltac:(vm_compute; reflexivity)).
Defined.

(** ** Sequences of operations *)

Lemma step_row chan (db : DB) op db1 acc tid (r : Row) :
  step chan db op = (db1, acc) -> db !! tid = Some r ->
  exists r1, db1 !! tid = Some r1 /\
    current_bid r <= current_bid r1 /\
    (status r = completed -> status r1 = completed /\ bid_fields_kept r r1) /\
    match acc with
    | Some b =>
        if decide (b.1.1 = tid)
        then status r = active \/ is_place_bid op = false ->
             current_bid r < b.1.2 /\ current_bid r1 = b.1.2 /\
             current_bidder_id r1 = Some b.2
        else bid_fields_kept r r1
    | None => bid_fields_kept r r1
    end.
Proof.
  assert (Hstay : exists r1, Some r = Some r1 /\
            current_bid r <= current_bid r1 /\
            (status r = completed -> status r1 = completed /\ bid_fields_kept r r1) /\
            bid_fields_kept r r1).
  { exists r. split; [reflexivity|]. split; [lia|].
    split; [intros Hc; split; [exact Hc | now split] | now split]. }
  intros Hstep Hr. destruct op; cbn [step] in Hstep.
  - (* place_bid *)
    unfold Db.place_bid, Db.place_bid_check, Db.get_auction_by_thread in Hstep.
    destruct (db !! tid0) as [r0|] eqn:Hr0;
      [|injection Hstep as <- <-; rewrite Hr; exact Hstay].
    destruct (amount <=? current_bid r0) eqn:Hle; cbn [negb] in Hstep;
      [injection Hstep as <- <-; rewrite Hr; exact Hstay|].
    apply Z.leb_gt in Hle.
    rewrite (place_bid_update_lookup _ _ _ _ _ _ _ Hr0) in Hstep.
    injection Hstep as <- <-. cbn [fst snd].
    destruct (decide (tid0 = tid)) as [->|Hne].
    + assert (r0 = r) as -> by congruence.
      unfold Db.place_bid_update. rewrite Hr.
      destruct (status r) eqn:Hst.
      * rewrite lookup_insert_eq. eexists. split; [reflexivity|].
        cbn [Db.set_bid current_bid current_bidder_id status].
        split; [lia|]. split; [discriminate|]. intros _. now repeat split.
      * exists r. split; [exact Hr|]. split; [lia|].
        split; [intros _; split; [exact Hst | now split]|].
        intros [Habs|Habs]; discriminate.
    + unfold Db.place_bid_update. rewrite Hr0.
      destruct (status r0); [rewrite lookup_insert_ne by exact Hne|];
        rewrite Hr; exact Hstay.
  - (* /bid *)
    destruct (Cog.bid_command chan now oracle db i amount) as [db' resp] eqn:Hcmd.
    destruct (bid_command_inv _ _ _ _ _ _ _ _ Hcmd)
      as [[-> Hrej]|(t & r0 & _ & _ & Ht & Hr0 & Hact & _ & Hhigh & _ & _ & _ & _
                     & -> & ->)].
    + destruct resp; try destruct Hrej; injection Hstep as <- <-;
        rewrite Hr; exact Hstay.
    + injection Hstep as <- <-. rewrite Ht. cbn [fmap option_fmap option_map fst snd].
      destruct (decide (t = tid)) as [->|Hne].
      * rewrite lookup_insert_eq. eexists. split; [reflexivity|].
        assert (r0 = r) as -> by congruence.
        cbn [Db.set_bid current_bid current_bidder_id status].
        split; [lia|]. split; [congruence|]. intros _. now repeat split.
      * rewrite lookup_insert_ne by exact Hne. rewrite Hr. exact Hstay.
  - (* complete_auction *)
    injection Hstep as <- <-.
    destruct (decide (tid = tid0)) as [->|Hne].
    + rewrite Hr.
      destruct (status r) eqn:Hst; [rewrite lookup_insert_eq | rewrite Hr];
        (eexists; split; [reflexivity|]);
        cbn [Db.set_completed current_bid status];
        (split; [lia|]); (split; [|now split]); intros Hc;
        (split; [first [reflexivity | exact Hst] | now split]).
    + destruct (db !! tid0) as [r0|];
        [destruct (status r0); [rewrite lookup_insert_ne by congruence|]|];
        rewrite Hr; exact Hstay.
  - (* create_auction *)
    injection Hstep as <- <-. unfold Db.create_auction.
    destruct (Db.insert_row db tid0 _) as [db'|] eqn:Hins; cbn [fst].
    + rewrite (insert_row_keeps _ _ _ _ _ _ Hins Hr). exact Hstay.
    + rewrite Hr. exact Hstay.
  - (* register_existing_auction *)
    injection Hstep as <- <-. unfold Db.register_existing_auction.
    destruct (Db.insert_row db tid0 _) as [db'|] eqn:Hins; cbn [fst].
    + rewrite (insert_row_keeps _ _ _ _ _ _ Hins Hr). exact Hstay.
    + rewrite Hr. exact Hstay.
Qed.

Lemma bids_on_cons tid (b : Accepted) accs :
  bids_on tid (b :: accs) =
    if decide (b.1.1 = tid) then (b.1.2, b.2) :: bids_on tid accs
    else bids_on tid accs.
Proof.
  unfold bids_on. rewrite filter_cons. now destruct (decide (b.1.1 = tid)).
Qed.

(** C7 (the code departs from it). Along any sequence of [place_bid],
    [/bid], [complete_auction], [create_auction] and
    [register_existing_auction], each run to its end before the next, the row
    of a thread keeps existing and its [current_bid] never goes down; once
    the row is completed its two bid columns stay as they are, and
    [complete_auction] changes neither.  While the auction is active, and for
    [/bid] at any time, the accepted bids form a strictly increasing chain
    above the bid the row started with, and the row carries the amount and
    the bidder of the last accepted bid.  [place_bid] on its own departs from
    this after completion: with an amount above the stored bid it returns
    the row, its signal of acceptance, and writes nothing. *)
Theorem bids_strictly_increase (chan : option string) (tid : Z) (ops : list Op) :
  forall (db : DB) (r : Row) (Hrow : db !! tid = Some r),
  (exists r', (run chan db ops).1 !! tid = Some r' /\
    current_bid r <= current_bid r' /\
    (status r = completed -> status r' = completed /\ bid_fields_kept r r') /\
    (status r' = active \/ Forall (fun op => is_place_bid op = false) ops ->
     StronglySorted Z.lt
       (current_bid r :: map fst (bids_on tid (run chan db ops).2)) /\
     match last (bids_on tid (run chan db ops).2) with
     | Some (amount, bidder) =>
         current_bid r' = amount /\ current_bidder_id r' = Some bidder
     | None => bid_fields_kept r r'
     end)) /\
  (forall now amount bidder bname,
      status r = completed -> current_bid r < amount ->
      Db.place_bid now db tid amount bidder bname = (db, Some r) /\
      step chan db (OpPlaceBid now tid amount bidder bname)
      = (db, Some (tid, amount, bidder))).
Proof.
  intros db r Hrow. split.
  2: { intros now amount bidder bname Hst Hhigh.
       assert (Hpb : Db.place_bid now db tid amount bidder bname = (db, Some r)).
       { unfold Db.place_bid, Db.place_bid_check, Db.get_auction_by_thread.
         rewrite Hrow. rewrite (proj2 (Z.leb_gt _ _) Hhigh). cbn [negb].
         rewrite (place_bid_update_completed _ _ _ _ _ _ _ Hrow Hst).
         now rewrite Hrow. }
       split; [exact Hpb|]. cbn [step]. now rewrite Hpb. }
  revert db r Hrow. induction ops as [|op ops IH]; intros db r Hrow.
  - exists r. cbn. split; [exact Hrow|]. split; [lia|].
    split; [intros Hc; split; [exact Hc | now split]|].
    intros _. split; [repeat constructor | now split].
  - cbn [run]. destruct (step chan db op) as [db1 acc] eqn:Hstep.
    destruct (step_row _ _ _ _ _ _ _ Hstep Hrow) as (r1 & Hr1 & Hle1 & Hdone1 & Hacc).
    destruct (IH db1 r1 Hr1) as (r' & Hr' & Hle & Hdone & Hchain).
    destruct (run chan db1 ops) as [db2 accs]. cbn [fst snd] in *.
    exists r'. split; [exact Hr'|]. split; [lia|].
    split.
    { intros Hc. destruct (Hdone1 Hc) as [Hc1 [Hb1 Hi1]].
      destruct (Hdone Hc1) as [Hc' [Hb' Hi']].
      split; [exact Hc'|]. split; congruence. }
    intros Hwhen.
    assert (Hrest : status r' = active \/
                    Forall (fun op => is_place_bid op = false) ops).
    { destruct Hwhen as [Ha|Hf]; [now left|].
      right. now apply Forall_cons in Hf as [_ Hf]. }
    assert (Hnow : status r = active \/ is_place_bid op = false).
    { destruct Hwhen as [Ha|Hf]; [|right; now apply Forall_cons in Hf as [Hf _]].
      left. destruct (status r) eqn:Hst; [reflexivity|].
      destruct (Hdone1 eq_refl) as [Hc1 _]. destruct (Hdone Hc1) as [Hc' _].
      congruence. }
    destruct (Hchain Hrest) as [Hsorted Hlast]. clear Hchain.
    assert (Hkept : bid_fields_kept r r1 ->
              StronglySorted Z.lt (current_bid r :: map fst (bids_on tid accs)) /\
              match last (bids_on tid accs) with
              | Some (amount, bidder) =>
                  current_bid r' = amount /\ current_bidder_id r' = Some bidder
              | None => bid_fields_kept r r'
              end).
    { intros [Hb Hid]. rewrite <- Hb. split; [exact Hsorted|].
      destruct (last (bids_on tid accs)) as [[a b]|]; [exact Hlast|].
      destruct Hlast as [Hb' Hid']. split; congruence. }
    destruct acc as [b|]; [|exact (Hkept Hacc)].
    rewrite bids_on_cons. destruct (decide (b.1.1 = tid)) as [_|_];
      [|exact (Hkept Hacc)].
    destruct (Hacc Hnow) as (Hlt & Hb1 & Hid1). rewrite Hb1 in Hle, Hsorted.
    split.
    + cbn [map fst]. constructor; [exact Hsorted|].
      apply StronglySorted_inv in Hsorted as [_ Hall].
      constructor; [exact Hlt|].
      eapply Forall_impl; [exact Hall|]. intros x Hx. simpl in Hx. lia.
    + rewrite last_cons.
      destruct (last (bids_on tid accs)) as [[a b']|]; [exact Hlast|].
      destruct Hlast as [Hb' Hid']. split; congruence.
Qed.

(** The ledger of [ops_late]: both calls of [place_bid] return the row, 300
    before 200, and the row keeps the bid of 100 by user 7. *)
Lemma bids_strictly_increase_witness :
  (run None db_demo ops_late).2 = [(1, 300, 8); (1, 200, 9)] /\
  exists r', (run None db_demo ops_late).1 !! 1 = Some r' /\
             current_bid row_demo <= current_bid r' /\
             current_bid r' = 100 /\ current_bidder_id r' = Some 7.
Proof.
  split; [reflexivity|].
  destruct (bids_strictly_increase None 1 ops_late db_demo row_demo eq_refl)
    as [(r' & Hr' & Hle & _) _].
  exists r'. split; [exact Hr'|]. split; [exact Hle|].
  assert (Hrow : (run None db_demo ops_late).1 !! 1
                 = Some (Db.set_completed row_demo)) by reflexivity.
  rewrite Hrow in Hr'. injection Hr' as <-. split; reflexivity.
Defined.

Example ops_demo_result :
  (run None db_demo ops_demo).2 = [(1, 150, 8)] /\
  (run None db_demo ops_demo).1 !! 1
  = Some (mkRow 10 100 "Prospect" 150 (Some 8) (Some "B") 0 5 completed).
Proof. split; reflexivity. Qed.

(** * Reasoning about the sweeps *)

Section Preserves.

Context (P : World -> Prop).

Lemma preserves_ret {A} (a : A) : preserves P (ret a).
Proof. intros w w' x [= <- _] H. exact H. Qed.

Lemma preserves_raise {A} e : preserves P (@raise A e).
Proof. intros w w' x [= <- _] H. exact H. Qed.

Lemma preserves_continue {A} : preserves P (@continue A).
Proof. intros w w' x [= <- _] H. exact H. Qed.

Lemma preserves_gets {A} (f : World -> A) : preserves P (gets f).
Proof. intros w w' x [= <- _] H. exact H. Qed.

Lemma preserves_modify f :
  (forall w, P w -> P (f w)) -> preserves P (modify f).
Proof. intros Hf w w' x [= <- _] H. now apply Hf. Qed.

Lemma preserves_bind {A B} (m : M A) (k : A -> M B) :
  preserves P m -> (forall a, preserves P (k a)) -> preserves P (bind m k).
Proof.
  intros Hm Hk w w' x. unfold bind.
  destruct (m w) as [w1 [a|ab]] eqn:Hmw.
  - intros Hkw Hw. exact (Hk a _ _ _ Hkw (Hm _ _ _ Hmw Hw)).
  - intros [= <- _] Hw. exact (Hm _ _ _ Hmw Hw).
Qed.

Lemma preserves_catch {A} (m : M A) (h : exn -> M A) :
  preserves P m -> (forall e, preserves P (h e)) -> preserves P (catch m h).
Proof.
  intros Hm Hh w w' x. unfold catch.
  destruct (m w) as [w1 [a|[e|]]] eqn:Hmw.
  - intros [= <- _] Hw. exact (Hm _ _ _ Hmw Hw).
  - intros Hhw Hw. exact (Hh e _ _ _ Hhw (Hm _ _ _ Hmw Hw)).
  - intros [= <- _] Hw. exact (Hm _ _ _ Hmw Hw).
Qed.

Lemma preserves_except_http {A} (m h : M A) :
  preserves P m -> preserves P h -> preserves P (except_http m h).
Proof.
  intros Hm Hh. apply preserves_catch; [exact Hm|].
  intros [|]; [exact Hh | apply preserves_raise].
Qed.

Lemma preserves_except_any {A} (m h : M A) :
  preserves P m -> preserves P h -> preserves P (except_any m h).
Proof. intros Hm Hh. apply preserves_catch; [exact Hm | intros _; exact Hh]. Qed.

Lemma preserves_call {A} c (r : res A) :
  (forall w o, P w -> P (emit (EvCall c o) w)) -> preserves P (call c r).
Proof.
  intros Hc. destruct r as [a|e]; unfold call.
  - apply preserves_bind; [apply preserves_modify; intros; now apply Hc|].
    intros _. apply preserves_ret.
  - apply preserves_bind; [apply preserves_modify; intros; now apply Hc|].
    intros _. apply preserves_raise.
Qed.

Lemma preserves_for_each {A} (l : list A) (body : A -> M unit) :
  (forall a, a ∈ l -> preserves P (body a)) -> preserves P (for_each l body).
Proof.
  induction l as [|a l IH]; intros Hbody; [apply preserves_ret|].
  intros w w' x. cbn [for_each].
  destruct (body a w) as [w1 [u|[e|]]] eqn:Hb; intros Hrun Hw.
  - apply (IH (fun b Hb' => Hbody b (list_elem_of_further _ _ _ Hb')) _ _ _ Hrun).
    exact (Hbody a (list_elem_of_here _ _) _ _ _ Hb Hw).
  - injection Hrun as <- _. exact (Hbody a (list_elem_of_here _ _) _ _ _ Hb Hw).
  - apply (IH (fun b Hb' => Hbody b (list_elem_of_further _ _ _ Hb')) _ _ _ Hrun).
    exact (Hbody a (list_elem_of_here _ _) _ _ _ Hb Hw).
Qed.

End Preserves.

Lemma preserves_log P l :
  (forall w, P w -> P (emit (EvLog l) w)) -> preserves P (log l).
Proof. intros H. now apply preserves_modify. Qed.

(** A loop whose bodies raise nothing runs every body; what one body brings
    about, and the others keep, holds at the end. *)
Lemma for_each_establishes {A} (Q : World -> Prop) (l : list A)
    (body : A -> M unit) (a : A) :
  a ∈ l ->
  (forall b, b ∈ l -> safe (body b)) ->
  (forall b, b ∈ l -> preserves Q (body b)) ->
  (forall w w' x, body a w = (w', x) -> Q w') ->
  forall w w' x, for_each l body w = (w', x) -> Q w'.
Proof.
  induction l as [|b l IH]; intros Hin Hsafe Hkeep Hest w w' x;
    [now apply elem_of_nil in Hin|].
  cbn [for_each]. destruct (body b w) as [w1 [u|[e|]]] eqn:Hb; intros Hrun.
  - apply elem_of_cons in Hin as [->|Hin].
    + eapply (preserves_for_each Q l body); [|exact Hrun|exact (Hest _ _ _ Hb)].
      intros c Hc. apply Hkeep. now apply list_elem_of_further.
    + eapply IH; eauto using list_elem_of_further.
  - exfalso. exact (Hsafe b (list_elem_of_here _ _) _ _ _ Hb).
  - apply elem_of_cons in Hin as [->|Hin].
    + eapply (preserves_for_each Q l body); [|exact Hrun|exact (Hest _ _ _ Hb)].
      intros c Hc. apply Hkeep. now apply list_elem_of_further.
    + eapply IH; eauto using list_elem_of_further.
Qed.

Lemma safe_for_each {A} (l : list A) (body : A -> M unit) :
  (forall b, b ∈ l -> safe (body b)) -> safe (for_each l body).
Proof.
  induction l as [|b l IH]; intros Hsafe w w' e; [discriminate|].
  cbn [for_each]. destruct (body b w) as [w1 [u|[e1|]]] eqn:Hb.
  - apply IH. intros c Hc. apply Hsafe. now apply list_elem_of_further.
  - exfalso. exact (Hsafe b (list_elem_of_here _ _) _ _ _ Hb).
  - apply IH. intros c Hc. apply Hsafe. now apply list_elem_of_further.
Qed.

(** ** Settlement *)

Section Settlement.

Variables (env : Env) (now : Z).

Lemma resolve_preserves P id :
  (forall w o, P w -> P (emit (EvCall (CFetchChannel id) o) w)) ->
  preserves P (resolve env id).
Proof.
  intros HP. unfold resolve. destruct (e_get_channel env id).
  - apply preserves_ret.
  - apply preserves_except_http; [now apply preserves_call | apply preserves_continue].
Qed.

Lemma deduct_pom_preserves P uid amount :
  (forall w o, P w -> P (emit (EvCall (CDeduct uid amount) o) w)) ->
  (forall w s, P w -> P (with_sheet w s)) ->
  preserves P (deduct_pom env uid amount).
Proof.
  intros Hc Hs. unfold deduct_pom.
  apply preserves_bind; [now apply preserves_call|].
  intros _ w w' x. destruct (Sheets.deduct_pom_sync _ _ _) as [s' ok].
  intros [= <- _] Hw. now apply Hs.
Qed.

(** Walks down a block, leaving the side conditions on its primitive steps. *)
Ltac keeps :=
  lazymatch goal with
  | |- preserves _ (bind _ _) => apply preserves_bind; [keeps | intros ?; keeps]
  | |- preserves _ (except_http _ _) => apply preserves_except_http; keeps
  | |- preserves _ (except_any _ _) => apply preserves_except_any; keeps
  | |- preserves _ (ret _) => apply preserves_ret
  | |- preserves _ pass => apply preserves_ret
  | |- preserves _ continue => apply preserves_continue
  | |- preserves _ (gets _) => apply preserves_gets
  | |- preserves _ (log _) => apply preserves_log
  | |- preserves _ (call _ _) => apply preserves_call
  | |- preserves _ (modify _) => apply preserves_modify
  | |- preserves _ (resolve _ _) => apply resolve_preserves
  | |- preserves _ (send _ _ _) => unfold send; keeps
  | |- preserves _ (deduct_pom _ _ _) => apply deduct_pom_preserves
  | |- preserves _ (if ?b then _ else _) => destruct b; keeps
  | |- preserves _ (match ?o with Some _ => _ | None => _ end) => destruct o; keeps
  | |- _ => idtac
  end.

(** No step of the settlement writes to the ledger. *)
Lemma settle_keeps_db a d : preserves (fun w => w_db w = d) (settle env now a).
Proof.
  unfold settle, update_sheets, refresh_pinned, append_completed_auction.
  keeps; auto.
Qed.


End Settlement.

Section SettlementSteps.

Variables (env : Env) (now : Z).

Lemma quiet_refl w : quiet w w.
Proof. now repeat split. Qed.


Lemma bind_inl {A B} (m : M A) (k : A -> M B) w w1 a :
  m w = (w1, inl a) -> bind m k w = k a w1.
Proof. intros H. unfold bind. now rewrite H. Qed.

Lemma resolve_found id c w :
  resolves env id c -> exists w1, resolve env id w = (w1, inl c) /\ quiet w w1.
Proof.
  intros [Hc|[Hc Hf]]; unfold resolve; rewrite Hc.
  - exists w. split; [reflexivity | apply quiet_refl].
  - unfold except_http, catch, call. rewrite Hf. cbn.
    eexists. split; [reflexivity | now repeat split].
Qed.

Lemma guarded_send t m w :
  e_send env t m <> Raise OtherException ->
  exists w1, except_http (send env t m) pass w = (w1, inl tt) /\ quiet w w1.
Proof.
  intros Hne. unfold except_http, catch, send, call.
  destruct (e_send env t m) as [[]|[|]]; [| |congruence]; cbn;
    eexists; (split; [reflexivity | now repeat split]).
Qed.

Lemma guarded_edit t w :
  e_edit env t <> Raise OtherException ->
  exists w1, except_http (call (CEdit t) (e_edit env t)) (log (LogCouldNotLock t)) w
             = (w1, inl tt) /\ quiet w w1.
Proof.
  intros Hne. unfold except_http, catch, call.
  destruct (e_edit env t) as [[]|[|]]; [| |congruence]; cbn;
    eexists; (split; [reflexivity | now repeat split]).
Qed.








End SettlementSteps.

(** * The claims about settlement *)




(** * Reasoning about the reminder sweep *)

Section ReminderSteps.

Implicit Types (w : World) (key : Z * Z) (tr : list Event).

Lemma sent_for_setdefault k key w :
  sent_for k (with_reminders w (<[key := sent_for key w]> (_reminders_sent w)))
  = sent_for k w.
Proof.
  unfold sent_for. cbn [with_reminders _reminders_sent].
  destruct (decide (key = k)) as [->|Hne].
  - now rewrite lookup_insert_eq.
  - now rewrite lookup_insert_ne.
Qed.

Lemma sent_for_add k key h w :
  sent_for k (with_reminders w
                (<[key := sent_for key w ∪ {[h]}]> (_reminders_sent w)))
  = if decide (key = k) then sent_for k w ∪ {[h]} else sent_for k w.
Proof.
  unfold sent_for at 1. cbn [with_reminders _reminders_sent].
  destruct (decide (key = k)) as [->|Hne].
  - now rewrite lookup_insert_eq.
  - now rewrite lookup_insert_ne.
Qed.

Lemma is_reminder_msg t h tid pname h' o :
  is_reminder t h (EvCall (CSend tid (reminder_msg pname h')) o)
  = match o with None => (tid =? t) && (h' =? h) | Some _ => false end.
Proof. unfold reminder_msg. destruct (2 <=? h'), o; reflexivity. Qed.

Lemma is_attempt_msg t h tid pname h' o :
  is_reminder_attempt t h (EvCall (CSend tid (reminder_msg pname h')) o)
  = (tid =? t) && (h' =? h).
Proof. unfold reminder_msg. destruct (2 <=? h'), o; reflexivity. Qed.

(** What one pass of the threshold loop does, case by case. *)
Lemma remind_threshold_run env tid pname key hl h w :
  remind_threshold env tid pname key hl h w =
  if bool_decide (h ∈ sent_for key w) then (w, inr Continue)
  else if in_window h hl then
    match e_send env tid (reminder_msg pname h) with
    | Ok _ =>
        (emit (EvLog (LogReminderSent tid h))
           (with_reminders (emit (EvCall (CSend tid (reminder_msg pname h)) None) w)
              (<[key := sent_for key w ∪ {[h]}]> (_reminders_sent w))),
         inl tt)
    | Raise HTTPException =>
        (emit (EvLog (LogReminderFailed tid))
           (emit (EvCall (CSend tid (reminder_msg pname h)) (Some HTTPException)) w),
         inl tt)
    | Raise OtherException =>
        (emit (EvCall (CSend tid (reminder_msg pname h)) (Some OtherException)) w,
         inr (Exc OtherException))
    end
  else (w, inl tt).
Proof.
  unfold remind_threshold, bind, gets.
  destruct (bool_decide (h ∈ sent_for key w)); [reflexivity|].
  destruct (in_window h hl); [|reflexivity].
  unfold except_http, catch, send, call, bind.
  destruct (e_send env tid (reminder_msg pname h)) as [[]|[|]]; reflexivity.
Qed.

End ReminderSteps.

Section ReminderInvariants.

Variables (t l h : Z).

Implicit Types (w : World) (env : Env).

Lemma trace_emit ev w : w_trace (emit ev w) = ev :: w_trace w.
Proof. reflexivity. Qed.

Lemma trace_with_reminders w m : w_trace (with_reminders w m) = w_trace w.
Proof. reflexivity. Qed.

Lemma sent_for_emit k ev w : sent_for k (emit ev w) = sent_for k w.
Proof. reflexivity. Qed.

Lemma sent_for_with_emit k ev w m :
  sent_for k (with_reminders (emit ev w) m) = sent_for k (with_reminders w m).
Proof. reflexivity. Qed.

Lemma count_cons f ev tr :
  count f (ev :: tr) = if f ev then S (count f tr) else count f tr.
Proof. unfold count. simpl. now destruct (f ev). Qed.

Ltac norm_world :=
  repeat first [ rewrite trace_emit | rewrite trace_with_reminders
               | rewrite sent_for_emit | rewrite sent_for_with_emit ].

Lemma same_thread_threshold tid h' :
  (tid =? t) && (h' =? h) = true <-> tid = t /\ h' = h.
Proof. rewrite andb_true_iff, !Z.eqb_eq. tauto. Qed.

(** The marker and the count of deliveries move together. *)
Lemma remind_threshold_once env tid pname l' hl h' c :
  (tid = t -> l' = l) ->
  preserves (once t l h c) (remind_threshold env tid pname (tid, l') hl h').
Proof.
  intros Hk w w' x. rewrite remind_threshold_run.
  case_bool_decide as Hin; [now intros [= <- _]|].
  destruct (in_window h' hl); [|now intros [= <- _]].
  destruct (e_send env tid (reminder_msg pname h')) as [[]|[|]];
    intros [= <- _]; unfold once, delivered; norm_world;
    rewrite !count_cons, is_reminder_msg; cbn [is_reminder];
    [|tauto|tauto].
  rewrite sent_for_add.
  destruct ((tid =? t) && (h' =? h)) eqn:Hsame.
  - apply same_thread_threshold in Hsame as [-> ->].
    rewrite (Hk eq_refl) in Hin |- *. rewrite decide_True by reflexivity.
    intros [[_ Habs]|[Hc _]]; [contradiction|]. left. split; [congruence|set_solver].
  - destruct (decide ((tid, l') = (t, l))) as [[= -> ->]|_]; [|tauto].
    assert (h' <> h).
    { intros ->. rewrite Z.eqb_refl in Hsame. now rewrite Z.eqb_refl in Hsame. }
    intros [[Hc Hs]|[Hc Hs]]; [left|right]; (split; [exact Hc|]).
    + apply elem_of_union. now left.
    + intros [Hs'|Hs']%elem_of_union; [exact (Hs Hs')|].
      apply elem_of_singleton in Hs'. congruence.
Qed.

(** A marker, once set, stays. *)
Lemma remind_threshold_marked env tid pname key hl h' :
  preserves (fun w => h ∈ sent_for (t, l) w)
    (remind_threshold env tid pname key hl h').
Proof.
  intros w w' x. rewrite remind_threshold_run.
  case_bool_decide as Hin; [now intros [= <- _]|].
  destruct (in_window h' hl); [|now intros [= <- _]].
  destruct (e_send env tid (reminder_msg pname h')) as [[]|[|]];
    intros [= <- _]; norm_world; [|tauto|tauto].
  rewrite sent_for_add. destruct (decide (key = (t, l))); [set_solver|tauto].
Qed.

(** Outside the window of [h] nothing is sent for [(t, h)]. *)
Lemma remind_threshold_outside env tid pname key hl h' f c :
  (forall ev, f ev = true -> is_reminder_attempt t h ev = true) ->
  (tid = t -> h' = h -> in_window h hl = false) ->
  preserves (fun w => count f (w_trace w) = c)
    (remind_threshold env tid pname key hl h').
Proof.
  intros Hf Hout w w' x. rewrite remind_threshold_run.
  case_bool_decide as Hin; [now intros [= <- _]|].
  destruct (in_window h' hl) eqn:Hw; [|now intros [= <- _]].
  assert (Hno : forall o, f (EvCall (CSend tid (reminder_msg pname h')) o) = false).
  { intros o. destruct (f _) eqn:Hfe; [|reflexivity].
    apply Hf in Hfe. rewrite is_attempt_msg in Hfe.
    apply same_thread_threshold in Hfe as [-> ->].
    rewrite (Hout eq_refl eq_refl) in Hw. discriminate. }
  assert (Hlog : forall ll, f (EvLog ll) = false).
  { intros ll. destruct (f _) eqn:Hfe; [|reflexivity]. now apply Hf in Hfe. }
  destruct (e_send env tid (reminder_msg pname h')) as [[]|[|]];
    intros [= <- _]; norm_world;
    rewrite !count_cons, ?Hno, ?Hlog; tauto.
Qed.

(** While every send to [t] raises [discord.HTTPException], its markers and
    its count of deliveries stay as they are. *)
Lemma remind_threshold_failing env tid pname l' hl h' S c :
  (forall m, e_send env t m = Raise HTTPException) ->
  preserves (fun w => sent_for (t, l) w = S /\ delivered t h (w_trace w) = c)
    (remind_threshold env tid pname (tid, l') hl h').
Proof.
  intros Hfail w w' x. rewrite remind_threshold_run.
  case_bool_decide as Hin; [now intros [= <- _]|].
  destruct (in_window h' hl); [|now intros [= <- _]].
  destruct (decide (tid = t)) as [->|Hne].
  - rewrite Hfail. intros [= <- _]. unfold delivered. norm_world.
    rewrite !count_cons, is_reminder_msg. tauto.
  - assert (Hb : (tid =? t) && (h' =? h) = false).
    { apply andb_false_iff. left. now apply Z.eqb_neq. }
    destruct (e_send env tid (reminder_msg pname h')) as [[]|[|]];
      intros [= <- _]; unfold delivered; norm_world;
      rewrite !count_cons, is_reminder_msg; cbn [is_reminder]; [|tauto|tauto].
    rewrite Hb, sent_for_add. rewrite decide_False by congruence. tauto.
Qed.

End ReminderInvariants.

Section ReminderSweep.

Implicit Types (w : World) (env : Env) (a : Auction).

Lemma active_lookup (db : DB) a :
  a ∈ Db.get_active_auctions_for_reminders db <->
  db !! a.1 = Some a.2 /\ status a.2 = active.
Proof.
  unfold Db.get_active_auctions_for_reminders.
  rewrite merge_sort_Permutation.
  rewrite list_elem_of_filter. destruct a as [k r]. cbn [fst snd].
  rewrite elem_of_map_to_list. unfold Db.is_active. cbn [snd]. tauto.
Qed.

Lemma stable_marked k h : stable (fun w => h ∈ sent_for k w).
Proof.
  repeat split; intros; [assumption | assumption |].
  now rewrite sent_for_setdefault.
Qed.

Lemma remind_one_preserves P env now a :
  stable P ->
  (forall h', preserves P
     (remind_threshold env (thread_id a) (player_name a.2)
        (thread_id a, last_bid_at a.2) (hours_left now (last_bid_at a.2)) h')) ->
  preserves P (remind_one env now a).
Proof.
  intros (Hfetch & Hlog & Hdef) Hthr. unfold remind_one. cbv zeta.
  apply preserves_bind; [apply preserves_modify; intros; now apply Hdef|].
  intros _. apply preserves_bind; [apply resolve_preserves; intros; now apply Hfetch|].
  intros thread. destruct (negb (ch_is_thread thread)); [apply preserves_continue|].
  apply preserves_for_each. intros h' _. apply Hthr.
Qed.

Lemma sweep_unfold env now w :
  _check_expiry_reminders env now w
  = except_any
      (for_each (Db.get_active_auctions_for_reminders (w_db w)) (remind_one env now))
      (log LogRemindersCheckFailed) w.
Proof. reflexivity. Qed.

Lemma sweep_preserves P env now w w' x :
  stable P ->
  (forall a h', a ∈ Db.get_active_auctions_for_reminders (w_db w) ->
     preserves P
       (remind_threshold env (thread_id a) (player_name a.2)
          (thread_id a, last_bid_at a.2) (hours_left now (last_bid_at a.2)) h')) ->
  _check_expiry_reminders env now w = (w', x) -> P w -> P w'.
Proof.
  intros Hst Hthr. rewrite sweep_unfold.
  apply preserves_except_any.
  - apply preserves_for_each. intros a Ha.
    apply remind_one_preserves; [exact Hst|]. intros h'. now apply Hthr.
  - apply preserves_log. intros. now apply Hst.
Qed.

(** The reminder sweep does not write to the ledger. *)
Lemma sweep_keeps_db env now w :
  w_db (_check_expiry_reminders env now w).1 = w_db w.
Proof.
  destruct (_check_expiry_reminders env now w) as [w' x] eqn:Hrun. cbn [fst].
  apply (sweep_preserves (fun w0 => w_db w0 = w_db w) _ _ _ _ _
           ltac:(now repeat split)) in Hrun; [exact Hrun| |reflexivity].
  intros a h' _ w1 w2 y. rewrite remind_threshold_run.
  destruct (bool_decide _); [now intros [= <- _]|].
  destruct (in_window _ _); [|now intros [= <- _]].
  destruct (e_send _ _ _) as [[]|[|]]; now intros [= <- _].
Qed.

Lemma safe_bind {A B} (m : M A) (k : A -> M B) :
  safe m -> (forall x, safe (k x)) -> safe (bind m k).
Proof.
  intros Hm Hk w w' e. unfold bind.
  destruct (m w) as [w1 [a|[e1|]]] eqn:Hmw; [apply Hk | | discriminate].
  exfalso. exact (Hm _ _ _ Hmw).
Qed.

Lemma resolve_safe env id :
  e_fetch_channel env id <> Raise OtherException -> safe (resolve env id).
Proof.
  intros Hne w w' e. unfold resolve.
  destruct (e_get_channel env id); [discriminate|].
  unfold except_http, catch, call, bind.
  destruct (e_fetch_channel env id) as [c|[|]]; [discriminate|discriminate|congruence].
Qed.

Lemma remind_threshold_safe env tid pname key hl h' :
  (forall m, e_send env tid m <> Raise OtherException) ->
  safe (remind_threshold env tid pname key hl h').
Proof.
  intros Hne w w' e. rewrite remind_threshold_run.
  destruct (bool_decide _); [discriminate|].
  destruct (in_window _ _); [|discriminate].
  pose proof (Hne (reminder_msg pname h')) as Hm.
  destruct (e_send env tid (reminder_msg pname h')) as [[]|[|]];
    [discriminate|discriminate|congruence].
Qed.

Lemma remind_one_safe env now a : http_only env -> safe (remind_one env now a).
Proof.
  intros [Hf Hs]. unfold remind_one. cbv zeta.
  apply safe_bind; [discriminate|]. intros _.
  apply safe_bind; [apply resolve_safe, Hf|]. intros thread.
  destruct (negb (ch_is_thread thread)); [discriminate|].
  apply safe_for_each. intros h' _. apply remind_threshold_safe. intros m. apply Hs.
Qed.

(** A turn inside the window of [h], with the thread answering, leaves [h]
    marked. *)
Lemma remind_one_marks env now t h r w w' x :
  delivers env t -> h ∈ REMINDER_THRESHOLDS ->
  in_window h (hours_left now (last_bid_at r)) = true ->
  remind_one env now (t, r) w = (w', x) ->
  h ∈ sent_for (t, last_bid_at r) w'.
Proof.
  intros [(c & Hres & Hist) Hsend] Hh Hwin. unfold remind_one.
  cbn [thread_id fst snd]. unfold bind at 1, modify.
  match goal with
  | |- context [resolve env t] =>
      match goal with
      | |- bind _ _ ?w0 = _ -> _ =>
          destruct (resolve_found env t c w0 Hres) as (w1 & E & _);
          rewrite (bind_inl _ _ _ _ _ E)
      end
  end.
  rewrite Hist. cbn [negb].
  apply (for_each_establishes (fun w0 => h ∈ sent_for (t, last_bid_at r) w0)
           REMINDER_THRESHOLDS _ h Hh).
  - intros h' _. apply remind_threshold_safe. intros m. now rewrite Hsend.
  - intros h' _. apply remind_threshold_marked.
  - intros w2 w3 y. rewrite remind_threshold_run.
    case_bool_decide as Hin; [now intros [= <- _]|].
    rewrite Hwin, Hsend. intros [= <- _].
    rewrite sent_for_emit, sent_for_with_emit, sent_for_add.
    rewrite decide_True by reflexivity. apply elem_of_union. right.
    now apply elem_of_singleton.
Qed.

Lemma sweep_marks env now t l h r w :
  http_only env -> delivers env t -> h ∈ REMINDER_THRESHOLDS ->
  w_db w !! t = Some r -> status r = active -> last_bid_at r = l ->
  in_window h (hours_left now l) = true ->
  h ∈ sent_for (t, l) (_check_expiry_reminders env now w).1.
Proof.
  intros Hhttp Hdel Hh Hrow Hact <- Hwin. rewrite sweep_unfold.
  unfold except_any, catch.
  destruct (for_each _ _ w) as [w1 [u|[e|]]] eqn:Hrun; cbn [fst].
  - revert Hrun.
    apply (for_each_establishes (fun w0 => h ∈ sent_for (t, last_bid_at r) w0)
             _ _ (t, r)).
    + apply active_lookup. now split.
    + intros b _. now apply remind_one_safe.
    + intros b _. apply remind_one_preserves; [apply stable_marked|].
      intros h'. apply remind_threshold_marked.
    + intros w2 w3 y. now apply remind_one_marks.
  - exfalso. revert Hrun. apply safe_for_each. intros b _. now apply remind_one_safe.
  - revert Hrun.
    apply (for_each_establishes (fun w0 => h ∈ sent_for (t, last_bid_at r) w0)
             _ _ (t, r)).
    + apply active_lookup. now split.
    + intros b _. now apply remind_one_safe.
    + intros b _. apply remind_one_preserves; [apply stable_marked|].
      intros h'. apply remind_threshold_marked.
    + intros w2 w3 y. now apply remind_one_marks.
Qed.

End ReminderSweep.

Section ReminderRuns.

Variables (t l h : Z).

Implicit Types (w : World) (env : Env) (turns : list Turn).

Lemma stable_count f c :
  (forall ev, f ev = true -> is_reminder_attempt t h ev = true) ->
  stable (fun w => count f (w_trace w) = c).
Proof.
  intros Hf.
  assert (Hno : forall ev, is_reminder_attempt t h ev = false -> f ev = false).
  { intros ev Hev. destruct (f ev) eqn:Hfe; [|reflexivity].
    apply Hf in Hfe. congruence. }
  repeat split; intros; rewrite ?trace_emit, ?trace_with_reminders, ?count_cons,
    ?Hno by reflexivity; assumption.
Qed.

Lemma delivered_is_attempt ev :
  is_reminder t h ev = true -> is_reminder_attempt t h ev = true.
Proof. destruct ev as [[| ? [] | | | |] [|]|]; simpl; congruence. Qed.

Lemma stable_once c : stable (once t l h c).
Proof.
  split; [|split]; [intros w0 id o HI | intros w0 ll HI | intros w0 key HI];
    unfold once, delivered in *;
    rewrite ?trace_emit, ?trace_with_reminders, ?count_cons, ?sent_for_emit,
      ?sent_for_setdefault; cbn [is_reminder]; exact HI.
Qed.

Lemma epoch_of_active w a :
  same_epoch t l (w_db w) ->
  a ∈ Db.get_active_auctions_for_reminders (w_db w) ->
  thread_id a = t -> last_bid_at a.2 = l.
Proof.
  intros Hep [Hrow _]%active_lookup Ht. unfold thread_id in Ht. subst t.
  exact (Hep _ Hrow).
Qed.

Lemma sweep_once env now c w :
  same_epoch t l (w_db w) ->
  once t l h c w -> once t l h c (_check_expiry_reminders env now w).1.
Proof.
  intros Hep. destruct (_check_expiry_reminders env now w) as [w' x] eqn:Hrun.
  cbn [fst]. revert Hrun. apply sweep_preserves; [apply stable_once|].
  intros a h' Ha. apply remind_threshold_once. exact (epoch_of_active w a Hep Ha).
Qed.

Lemma sweep_marked env now w :
  h ∈ sent_for (t, l) w -> h ∈ sent_for (t, l) (_check_expiry_reminders env now w).1.
Proof.
  destruct (_check_expiry_reminders env now w) as [w' x] eqn:Hrun.
  cbn [fst]. revert Hrun.
  apply (sweep_preserves (fun w0 => h ∈ sent_for (t, l) w0));
    [apply stable_marked|].
  intros a h' _. apply remind_threshold_marked.
Qed.

Lemma sweep_outside env now f w :
  (forall ev, f ev = true -> is_reminder_attempt t h ev = true) ->
  same_epoch t l (w_db w) ->
  in_window h (hours_left now l) = false ->
  count f (w_trace (_check_expiry_reminders env now w).1) = count f (w_trace w).
Proof.
  intros Hf Hep Hout.
  destruct (_check_expiry_reminders env now w) as [w' x] eqn:Hrun.
  cbn [fst].
  refine (sweep_preserves (fun w0 => count f (w_trace w0) = count f (w_trace w))
            env now w w' x (stable_count f _ Hf) _ Hrun eq_refl).
  intros a h' Ha. apply (remind_threshold_outside t h); [exact Hf|].
  intros Ht _. now rewrite (epoch_of_active w a Hep Ha Ht).
Qed.

Lemma sweep_failing env now w :
  (forall m, e_send env t m = Raise HTTPException) ->
  sent_for (t, l) (_check_expiry_reminders env now w).1 = sent_for (t, l) w /\
  delivered t h (w_trace (_check_expiry_reminders env now w).1)
  = delivered t h (w_trace w).
Proof.
  intros Hfail.
  destruct (_check_expiry_reminders env now w) as [w' x] eqn:Hrun. cbn [fst].
  refine (sweep_preserves
            (fun w0 => sent_for (t, l) w0 = sent_for (t, l) w /\
                       delivered t h (w_trace w0) = delivered t h (w_trace w))
            env now w w' x _ _ Hrun (conj eq_refl eq_refl)).
  - split; [|split]; [intros w0 id o [HS HD] | intros w0 ll [HS HD]
                      | intros w0 key [HS HD]];
      unfold delivered in *;
      rewrite ?trace_emit, ?trace_with_reminders, ?count_cons, ?sent_for_emit,
        ?sent_for_setdefault; cbn [is_reminder]; now split.
  - intros a h' _. now apply remind_threshold_failing.
Qed.

(** Turns in a row. *)

Lemma run_once turns c : forall w,
  Forall (fun turn : Turn => same_epoch t l turn.2) turns ->
  once t l h c w -> once t l h c (run_reminders turns w).
Proof.
  induction turns as [|[[now env] db] turns IH]; intros w Hep HI; [exact HI|].
  apply Forall_cons in Hep as [Hep1 Hep]. cbn [run_reminders].
  apply IH; [exact Hep|]. apply sweep_once; [exact Hep1 | exact HI].
Qed.

Lemma run_marked turns : forall w,
  h ∈ sent_for (t, l) w -> h ∈ sent_for (t, l) (run_reminders turns w).
Proof.
  induction turns as [|[[now env] db] turns IH]; intros w HQ; [exact HQ|].
  cbn [run_reminders]. apply IH. now apply sweep_marked.
Qed.


Lemma run_delivers turns c : forall w,
  h ∈ REMINDER_THRESHOLDS ->
  Forall (fun turn : Turn => same_epoch t l turn.2) turns ->
  Exists (can_deliver t l h) turns ->
  once t l h c w ->
  delivered t h (w_trace (run_reminders turns w)) = S c.
Proof.
  induction turns as [|[[now env] db] turns IH]; intros w Hh Hep Hex HI;
    [now apply Exists_nil in Hex|].
  apply Forall_cons in Hep as [Hep1 Hep]. cbn [run_reminders].
  pose proof (sweep_once env now c (with_db w db) Hep1 HI) as HI1.
  apply Exists_cons in Hex as [(Hwin & Hhttp & Hdel & r & Hrow & Hact)|Hex].
  - cbn [fst snd] in *.
    pose proof (sweep_marks env now t l h r (with_db w db) Hhttp Hdel Hh
                  Hrow Hact (Hep1 _ Hrow) Hwin) as HQ.
    pose proof (run_once turns c _ Hep HI1) as HI2.
    pose proof (run_marked turns _ HQ) as HQ2.
    destruct HI2 as [[Hc _]|[_ Hn]]; [exact Hc | contradiction].
  - now apply IH.
Qed.

End ReminderRuns.

(** * The claims about reminders *)

Lemma same_epoch_demo : same_epoch 1 0 db_demo.
Proof.
  intros r Hr. unfold db_demo in Hr.
  apply lookup_singleton_Some in Hr as [_ <-]. reflexivity.
Qed.

Lemma http_only_ok : http_only env_ok.
Proof. split; intros; discriminate. Qed.

Lemma delivers_ok tid : delivers env_ok tid.
Proof.
  split; [|reflexivity]. exists thread_demo. split; [left|]; reflexivity.
Qed.



(** C10, as the claim has it, fails for a turn past the window: the send at
    6 hours left raises, the next turn sees 5.4 hours left and sends nothing;
    the reminder was attempted once, delivered never, and stays unmarked. *)
Lemma failed_reminder_lost_past_window :
  let w' := run_reminders turns_late w_demo in
  attempted 1 6 (w_trace w') = 1%nat /\
  delivered 1 6 (w_trace w') = 0%nat /\
  bool_decide (6 ∈ sent_for (1, 0) w') = false.
Proof. vm_compute. repeat split. Qed.

(** C10, amended. A threshold is marked only in a turn that delivers its
    reminder.  When the sends to the thread raise [discord.HTTPException], the
    marker set of the epoch and the count of deliveries are as before; a later
    turn that is still inside the window and can deliver marks the threshold
    and delivers once; a later turn outside the window attempts nothing and
    leaves the threshold unmarked. *)
Theorem failed_reminder_retried_in_window (t l h : Z) (env : Env) (now : Z)
    (w : World)
    (Hh : h ∈ REMINDER_THRESHOLDS)
    (Hepoch : same_epoch t l (w_db w))
    (Hfresh : h ∉ sent_for (t, l) w)
    (Hfail : forall m, e_send env t m = Raise HTTPException) :
  let w1 := (_check_expiry_reminders env now w).1 in
  let n := delivered t h (w_trace w) in
  (sent_for (t, l) w1 = sent_for (t, l) w /\ delivered t h (w_trace w1) = n) /\
  (forall env' now',
      can_deliver t l h (now', env', w_db w) ->
      let w2 := (_check_expiry_reminders env' now' w1).1 in
      delivered t h (w_trace w2) = S n /\ h ∈ sent_for (t, l) w2) /\
  (forall env' now',
      in_window h (hours_left now' l) = false ->
      let w2 := (_check_expiry_reminders env' now' w1).1 in
      attempted t h (w_trace w2) = attempted t h (w_trace w1) /\
      delivered t h (w_trace w2) = n /\ h ∉ sent_for (t, l) w2) /\
  (forall env0 now0 w0,
      same_epoch t l (w_db w0) -> h ∉ sent_for (t, l) w0 ->
      h ∈ sent_for (t, l) (_check_expiry_reminders env0 now0 w0).1 ->
      delivered t h (w_trace (_check_expiry_reminders env0 now0 w0).1)
      = S (delivered t h (w_trace w0))).
Proof.
  intros w1 n. subst w1 n.
  destruct (sweep_failing t l h env now w Hfail) as [HS HD].
  pose proof (sweep_keeps_db env now w) as Hdb.
  set (w1 := (_check_expiry_reminders env now w).1) in *.
  assert (Hep1 : same_epoch t l (w_db w1)) by now rewrite Hdb.
  assert (HI1 : once t l h (delivered t h (w_trace w)) w1).
  { right. split; [exact HD | now rewrite HS]. }
  split; [now split|]. split; [|split].
  - intros env' now' (Hwin & Hhttp & Hdel & r & Hrow & Hact).
    cbn [fst snd] in Hwin, Hhttp, Hdel, Hrow. cbv zeta. rewrite <- Hdb in Hrow.
    pose proof (sweep_marks env' now' t l h r w1 Hhttp Hdel Hh Hrow Hact
                  (Hep1 _ Hrow) Hwin) as HQ.
    split; [|exact HQ].
    destruct (sweep_once t l h env' now' _ w1 Hep1 HI1) as [[Hc _]|[_ Hn]];
      [exact Hc | contradiction].
  - intros env' now' Hout. cbv zeta.
    pose proof (sweep_outside t l h env' now' (is_reminder t h) w1
                  (delivered_is_attempt t h) Hep1 Hout) as Hd.
    fold (delivered t h (w_trace (_check_expiry_reminders env' now' w1).1)) in Hd.
    fold (delivered t h (w_trace w1)) in Hd. rewrite HD in Hd.
    split; [|split; [exact Hd|]].
    + exact (sweep_outside t l h env' now' (is_reminder_attempt t h) w1
               (fun ev H => H) Hep1 Hout).
    + destruct (sweep_once t l h env' now' _ w1 Hep1 HI1) as [[Hc _]|[_ Hn]];
        [|exact Hn].
      rewrite Hd in Hc. exfalso. exact (n_Sn _ Hc).
  - intros env0 now0 w0 Hep0 Hfresh0 Hin.
    assert (HI0 : once t l h (delivered t h (w_trace w0)) w0)
      by (right; now split).
    destruct (sweep_once t l h env0 now0 _ w0 Hep0 HI0) as [[Hc _]|[_ Hn]];
      [exact Hc | contradiction].
Qed.

(** The send at 6 hours left raises; the turn at 5.9 hours left, with the
    thread answering again, delivers the reminder. *)
Lemma failed_reminder_retried_in_window_witness :
  let w1 := (_check_expiry_reminders env_send_fails 64800 w_demo).1 in
  let w2 := (_check_expiry_reminders env_ok 65100 w1).1 in
  delivered 1 6 (w_trace w1) = 0%nat /\ delivered 1 6 (w_trace w2) = 1%nat.
Proof.
  pose proof (failed_reminder_retried_in_window 1 0 6 env_send_fails 64800 w_demo
                (list_elem_of_here _ _) same_epoch_demo (not_elem_of_empty _)
                (fun _ => eq_refl)) as ([_ H1] & H2 & _).
  split; [exact H1|].
  refine (proj1 (H2 env_ok 65100 _)).
  split; [vm_compute; reflexivity|]. split; [exact http_only_ok|].
  split; [apply delivers_ok|]. exists row_demo. split; reflexivity.
Defined.


(** * Further properties of the ledger *)

Section Commitment.

Implicit Types (db : DB) (r : Row) (tid uid : Z).

Lemma committed_split db tid r uid :
  db !! tid = Some r ->
  Db.get_committed_pom_for_user db uid
  = share uid tid r + Db.get_committed_pom_for_user (delete tid db) uid.
Proof.
  intros Hr. unfold Db.get_committed_pom_for_user, share.
  rewrite <- (sum_bids_perm _ _
                (filter_Permutation (Db.led_by uid) _ _ (map_to_list_delete db tid r Hr))).
  rewrite filter_cons. destruct (decide (Db.led_by uid (tid, r))); reflexivity.
Qed.

Lemma committed_insert_fresh db tid r uid :
  db !! tid = None ->
  Db.get_committed_pom_for_user (<[tid := r]> db) uid
  = share uid tid r + Db.get_committed_pom_for_user db uid.
Proof.
  intros Hr. unfold Db.get_committed_pom_for_user, share.
  rewrite (sum_bids_perm _ _
             (filter_Permutation (Db.led_by uid) _ _ (map_to_list_insert db tid r Hr))).
  rewrite filter_cons. destruct (decide (Db.led_by uid (tid, r))); reflexivity.
Qed.

Lemma committed_replace db tid r r' uid :
  db !! tid = Some r ->
  Db.get_committed_pom_for_user (<[tid := r']> db) uid
  = Db.get_committed_pom_for_user db uid - share uid tid r + share uid tid r'.
Proof.
  intros Hr. rewrite (committed_split db tid r uid Hr).
  rewrite <- (insert_delete_eq db tid r').
  rewrite committed_insert_fresh by apply lookup_delete_eq. lia.
Qed.

End Commitment.

(** X1. A successful [create_auction] adds the first bid to the commitment of
    the starter and leaves every other commitment as it was. *)
Theorem commitment_after_create (now : Z) (db db' : DB)
    (tid cid gid : Z) (pname : string) (bid bidder : Z) (bname : string) (r : Row)
    (Hok : Db.create_auction now db tid cid gid pname bid bidder bname
           = (db', Some r)) :
  forall uid,
    Db.get_committed_pom_for_user db' uid
    = Db.get_committed_pom_for_user db uid
      + (if decide (uid = bidder) then bid else 0).
Proof.
  intros uid. revert Hok. unfold Db.create_auction, Db.insert_row.
  destruct (db !! tid) eqn:Hfree; [discriminate|].
  intros [= <- _]. rewrite (committed_insert_fresh _ _ _ _ Hfree).
  unfold share, Db.led_by. cbn [snd status current_bidder_id current_bid].
  destruct (decide (uid = bidder)) as [->|Hne].
  - rewrite decide_True by (split; reflexivity). lia.
  - rewrite decide_False by (intros [_ [= ->]]; congruence). lia.
Qed.

Lemma commitment_after_create_witness :
  Db.get_committed_pom_for_user
    (Db.create_auction 9 db_demo 2 10 100 "Other" 40 7 "A").1 7 = 100 + 40.
Proof.
  exact (commitment_after_create 9 db_demo _ 2 10 100 "Other" 40 7 "A" _ eq_refl 7).
Defined.

(** X2. An accepted [place_bid] (active row, amount above the stored bid)
    takes the old bid off the commitment of the old leader and puts the new
    amount on the commitment of the bidder; nobody else's commitment moves. *)
Theorem commitment_after_place_bid (now : Z) (db : DB) (tid amount bidder : Z)
    (bname : string) (r : Row)
    (Hrow : db !! tid = Some r) (Hact : status r = active)
    (Hhigh : current_bid r < amount) :
  forall uid,
    Db.get_committed_pom_for_user
      (Db.place_bid now db tid amount bidder bname).1 uid
    = Db.get_committed_pom_for_user db uid - share uid tid r
      + (if decide (uid = bidder) then amount else 0).
Proof.
  intros uid. unfold Db.place_bid, Db.place_bid_check, Db.get_auction_by_thread.
  rewrite Hrow. apply Z.leb_gt in Hhigh. rewrite Hhigh. cbn [negb fst].
  unfold Db.place_bid_update. rewrite Hrow, Hact.
  rewrite (committed_replace _ _ _ _ _ Hrow). f_equal.
  unfold share at 1.
  destruct (decide (Db.led_by uid (tid, Db.set_bid amount bidder bname now r)))
    as [[_ Hl]|Hn]; destruct (decide (uid = bidder)) as [->|Hne];
    try reflexivity.
  - cbn in Hl. congruence.
  - exfalso. apply Hn. split; [exact Hact | reflexivity].
Qed.

Lemma commitment_after_place_bid_witness :
  Db.get_committed_pom_for_user (Db.place_bid 5 db_demo 1 150 8 "B").1 7 = 0 /\
  Db.get_committed_pom_for_user (Db.place_bid 5 db_demo 1 150 8 "B").1 8 = 150.
Proof.
  pose proof (commitment_after_place_bid 5 db_demo 1 150 8 "B" row_demo
                eq_refl eq_refl ltac:(simpl; lia)) as H.
  split; [exact (H 7) | exact (H 8)].
Defined.

(** X3. Completing an active auction releases its bid from the commitment of
    its leader and changes no other commitment. *)
Theorem commitment_after_complete (db : DB) (tid : Z) (r : Row)
    (Hrow : db !! tid = Some r) (Hact : status r = active) :
  forall uid,
    Db.get_committed_pom_for_user (Db.complete_auction db tid).1 uid
    = Db.get_committed_pom_for_user db uid - share uid tid r.
Proof.
  intros uid. unfold Db.complete_auction. cbn [fst]. rewrite Hrow, Hact.
  rewrite (committed_replace _ _ _ _ _ Hrow).
  assert (Hz : share uid tid (Db.set_completed r) = 0).
  { unfold share, Db.led_by. cbn [snd status Db.set_completed].
    now rewrite decide_False by (intros [[=] _]). }
  rewrite Hz. lia.
Qed.

Lemma commitment_after_complete_witness :
  Db.get_committed_pom_for_user (Db.complete_auction db_demo 1).1 7 = 0.
Proof.
  exact (commitment_after_complete db_demo 1 row_demo eq_refl eq_refl 7).
Defined.

(** * Further properties of the balance sheet *)

Section BalanceSheet.

Implicit Types (rows : Sheet) (uid amount : Z).

Lemma deduct_pom_sync_rows rows uid amount :
  Sheets.deduct_pom_sync rows uid amount = Sheets.deduct_rows rows uid amount.
Proof. now destruct rows. Qed.

Lemma balance_cons r rows uid :
  Sheets.get_pom_balance_sync (r :: rows) uid
  = if bool_decide (row_id r = Some uid)
    then Some (Sheets.int_or_zero (row_balance r))
    else Sheets.get_pom_balance_sync rows uid.
Proof. reflexivity. Qed.

End BalanceSheet.

(** X4. [get_pom_balance_sync] answers [None] exactly for a user no record of
    the sheet carries; otherwise the first record of the user decides,
    whatever the later records of the user and the records of other users
    hold: where [int()] reads its balance cell as [v], the answer is [v], and
    where [int()] raises [TypeError] or [ValueError] on the cell, the answer
    is 0.  (A cell on which [int()] raises another error is no cell of
    [BalanceRow]; the function does not return on it.) *)
Theorem balance_known_iff_listed (rows : Sheet) (uid : Z) :
  (Sheets.get_pom_balance_sync rows uid = None <->
   Forall (fun r => row_id r <> Some uid) rows) /\
  (forall pre r post v,
      rows = pre ++ r :: post ->
      Forall (fun r0 => row_id r0 <> Some uid) pre ->
      row_id r = Some uid ->
      row_balance r = Some v ->
      Sheets.get_pom_balance_sync rows uid = Some v) /\
  (forall pre r post,
      rows = pre ++ r :: post ->
      Forall (fun r0 => row_id r0 <> Some uid) pre ->
      row_id r = Some uid ->
      row_balance r = None ->
      Sheets.get_pom_balance_sync rows uid = Some 0).
Proof.
  split; [|split].
  3: { intros pre r post -> Hpre Hid Hv.
       induction pre as [|p pre IH]; cbn [app]; rewrite balance_cons.
       - rewrite bool_decide_eq_true_2 by exact Hid. now rewrite Hv.
       - apply Forall_cons in Hpre as [Hp Hpre].
         rewrite bool_decide_eq_false_2 by exact Hp. now apply IH. }
  - induction rows as [|r rows IH]; [split; [constructor | reflexivity]|].
    rewrite balance_cons. case_bool_decide as Hid.
    + split; [discriminate|]. intros HF. apply Forall_cons in HF as [Hne _].
      contradiction.
    + rewrite IH. split; [intros HF; now constructor|].
      intros HF. now apply Forall_cons in HF as [_ HF].
  - intros pre r post v -> Hpre Hid Hv.
    induction pre as [|p pre IH]; cbn [app]; rewrite balance_cons.
    + rewrite bool_decide_eq_true_2 by exact Hid. now rewrite Hv.
    + apply Forall_cons in Hpre as [Hp Hpre].
      rewrite bool_decide_eq_false_2 by exact Hp. now apply IH.
Qed.

(** X5. For a positive amount (the only ones the commands let through),
    [deduct_pom_sync] succeeds exactly when the sheet knows the user and the
    balance covers the amount.  On failure the sheet is as it was; on success
    the balance read back is the old one less the amount.  Either way the
    balances of the other users and the number of records stay. *)
Theorem deduct_pom_sync_spec (rows : Sheet) (uid amount : Z)
    (Hpos : 0 < amount) :
  let out := Sheets.deduct_pom_sync rows uid amount in
  (out.2 = true <->
   exists b, Sheets.get_pom_balance_sync rows uid = Some b /\ amount <= b) /\
  (out.2 = false -> out.1 = rows) /\
  (out.2 = true ->
   forall b, Sheets.get_pom_balance_sync rows uid = Some b ->
             Sheets.get_pom_balance_sync out.1 uid = Some (b - amount)) /\
  (forall u, u <> uid ->
             Sheets.get_pom_balance_sync out.1 u = Sheets.get_pom_balance_sync rows u) /\
  length out.1 = length rows.
Proof.
  cbv zeta. rewrite deduct_pom_sync_rows. clear Hpos.
  induction rows as [|r rows IH].
  - cbn. repeat split; try discriminate. intros (b & Hb & _). discriminate.
  - cbn [Sheets.deduct_rows]. rewrite balance_cons.
    case_bool_decide as Hid.
    + destruct (Sheets.int_or_zero (row_balance r) <? amount) eqn:Hlt; cbn [fst snd].
      * apply Z.ltb_lt in Hlt. repeat split; try discriminate; try reflexivity.
        intros (b & [= <-] & Hle). lia.
      * apply Z.ltb_ge in Hlt. split; [split; [intros _; eauto|reflexivity]|].
        split; [discriminate|]. split.
        -- intros _ b [= <-]. rewrite balance_cons. cbn [row_id row_balance].
           now rewrite bool_decide_eq_true_2.
        -- split; [|reflexivity]. intros u Hu. rewrite !balance_cons.
           cbn [row_id]. rewrite Hid.
           now rewrite bool_decide_eq_false_2 by congruence.
    + destruct (Sheets.deduct_rows rows uid amount) as [rest ok] eqn:Hrec.
      cbn [fst snd] in *. destruct IH as (Hok & Hfail & Hsucc & Hother & Hlen).
      split; [exact Hok|]. split; [intros Hf; now rewrite (Hfail Hf)|].
      split.
      * intros Ht b Hb. rewrite balance_cons.
        rewrite bool_decide_eq_false_2 by exact Hid. now apply Hsucc.
      * split; [|cbn; now rewrite Hlen]. intros u Hu. rewrite !balance_cons.
        case_bool_decide; [reflexivity | now apply Hother].
Qed.

(** User 7 has 500: a debit of 100 leaves 400, a debit of 600 is refused. *)
Lemma deduct_pom_sync_spec_witness :
  Sheets.get_pom_balance_sync (Sheets.deduct_pom_sync sheet_demo 7 100).1 7
  = Some 400 /\
  (Sheets.deduct_pom_sync sheet_demo 7 600).1 = sheet_demo.
Proof.
  split.
  - exact (proj1 (proj2 (proj2 (deduct_pom_sync_spec sheet_demo 7 100
                                   ltac:(lia)))) eq_refl 500 eq_refl).
  - exact (proj1 (proj2 (deduct_pom_sync_spec sheet_demo 7 600 ltac:(lia))) eq_refl).
Defined.

(** * Further properties of the reminder clock *)

Section Clock.

Implicit Types (s h l now : Z).

Lemma hours_le s h :
  Qle_bool (inject_Z s / inject_Z 3600) (inject_Z h) = true <-> s <= 3600 * h.
Proof.
  rewrite Qle_bool_iff. unfold Qle, Qdiv, Qmult, Qinv, inject_Z.
  cbn -[Z.mul Z.add]. lia.
Qed.

Lemma hours_le_half s h :
  Qle_bool (inject_Z s / inject_Z 3600) (inject_Z h - (1 # 2)) = true
  <-> s <= 3600 * h - 1800.
Proof.
  rewrite Qle_bool_iff.
  unfold Qle, Qdiv, Qmult, Qinv, Qminus, Qplus, Qopp, inject_Z.
  cbn -[Z.mul Z.add]. lia.
Qed.

(** The window test on whole seconds. *)
Lemma in_window_seconds h s :
  in_window h (inject_Z s / inject_Z 3600) = true
  <-> 3600 * h - 1800 < s <= 3600 * h.
Proof.
  unfold in_window. cbv zeta.
  rewrite andb_true_iff, negb_true_iff, hours_le, <- not_true_iff_false,
    hours_le_half. lia.
Qed.

Lemma window_clock now l h :
  1 <= h ->
  in_window h (hours_left now l) = true
  <-> window_opens l h <= now < window_opens l h + 1800.
Proof.
  intros Hh. unfold hours_left. rewrite in_window_seconds.
  unfold Cog._seconds_until_expiry, window_opens, Cog.BID_EXPIRY_HOURS. lia.
Qed.

(** Readings at most half an hour apart, the first before second [W + 1800]
    and the last at or after [W], have one in between. *)
Lemma polling_hits (W : Z) (ts : list Z) :
  spaced 1800 ts ->
  (exists t0, head ts = Some t0 /\ t0 < W + 1800) ->
  (exists tn, last ts = Some tn /\ W <= tn) ->
  Exists (fun t => W <= t < W + 1800) ts.
Proof.
  induction ts as [|t ts IH]; intros Hsp (t0 & Hhd & Ht0) (tn & Hla & Htn);
    [discriminate|].
  injection Hhd as ->.
  destruct (Z_le_gt_dec W t0) as [Hle|Hgt]; [apply Exists_cons_hd; lia|].
  apply Exists_cons_tl. destruct ts as [|t' ts].
  - injection Hla as <-. lia.
  - destruct Hsp as [Hgap Hsp]. apply IH; [exact Hsp | |].
    + exists t'. split; [reflexivity | lia].
    + exists tn. split; [|exact Htn]. now rewrite last_cons_cons in Hla.
Qed.

End Clock.

(** X6. On the clock: for a bid placed at second [l], the reminder of a
    threshold of [h >= 1] hours is due from second [l + 86400 - 3600 h] on, for
    1800 seconds; it is due at no other second. *)
Theorem reminder_window_on_clock (now l h : Z) (Hh : 1 <= h) :
  in_window h (hours_left now l) = true
  <-> l + 86400 - 3600 * h <= now < l + 86400 - 3600 * h + 1800.
Proof.
  rewrite (window_clock now l h Hh).
  unfold window_opens, Cog.BID_EXPIRY_HOURS. lia.
Qed.

Lemma reminder_window_on_clock_witness :
  in_window 6 (hours_left 66599 0) = true /\
  in_window 6 (hours_left 66600 0) = false.
Proof.
  split.
  - apply (reminder_window_on_clock 66599 0 6); lia.
  - apply not_true_iff_false. intros H.
    apply (reminder_window_on_clock 66600 0 6) in H; lia.
Defined.

(** X7. Turns of the reminder loop that are at most half an hour apart do not
    step over a window: when the first turn comes before the window closes and
    the last at or after its opening, every turn seeing the epoch with the
    thread active and answering, a threshold not yet marked is delivered
    exactly once. *)
Theorem reminder_delivered_by_polling (t l h : Z) (turns : list Turn) (w : World)
    (Hh : h ∈ REMINDER_THRESHOLDS)
    (Hfresh : h ∉ sent_for (t, l) w)
    (Hsees : Forall (sees t l) turns)
    (Hgaps : spaced 1800 (map (fun turn : Turn => turn.1.1) turns))
    (Hfirst : exists turn, head turns = Some turn /\
                           turn.1.1 < window_opens l h + 1800)
    (Hlast : exists turn, last turns = Some turn /\
                          window_opens l h <= turn.1.1) :
  delivered t h (w_trace (run_reminders turns w))
  = S (delivered t h (w_trace w)).
Proof.
  assert (H1 : 1 <= h).
  { unfold REMINDER_THRESHOLDS in Hh.
    repeat (apply elem_of_cons in Hh as [->|Hh]; [lia|]).
    now apply elem_of_nil in Hh. }
  apply (run_delivers t l h turns _ w Hh).
  - eapply Forall_impl; [exact Hsees|]. now intros turn [Hep _].
  - assert (Hhit : Exists (fun c => window_opens l h <= c < window_opens l h + 1800)
                     (map (fun turn : Turn => turn.1.1) turns)).
    { apply polling_hits; [exact Hgaps | |].
      - destruct Hfirst as (turn & Hhd & Hlt). exists turn.1.1.
        split; [|exact Hlt]. destruct turns; [discriminate|].
        now injection Hhd as ->.
      - destruct Hlast as (turn & Hla & Hle). exists turn.1.1.
        split; [|exact Hle].
        change (map (fun turn0 : Turn => turn0.1.1) turns)
          with ((fun turn0 : Turn => turn0.1.1) <$> turns).
        now rewrite fmap_last, Hla. }
    apply Exists_exists in Hhit as (c & Hc & Hwin).
    apply list_elem_of_In, in_map_iff in Hc as (turn & <- & Hturn).
    apply list_elem_of_In in Hturn.
    apply Exists_exists. exists turn. split; [exact Hturn|].
    pose proof (proj1 (Forall_forall _ _) Hsees turn Hturn)
      as (Hep & Hhttp & Hdel & Hrow).
    split; [|now split].
    now apply window_clock.
  - right. now split.
Qed.

Lemma reminder_delivered_by_polling_witness :
  delivered 1 6 (w_trace (run_reminders turns_demo w_demo)) = 1%nat.
Proof.
  apply (reminder_delivered_by_polling 1 0 6 turns_demo w_demo).
  - apply list_elem_of_here.
  - apply not_elem_of_empty.
  - assert (Hs : forall now, sees 1 0 (now, env_ok, db_demo)).
    { intros now. split; [exact same_epoch_demo|]. split; [exact http_only_ok|].
      split; [apply delivers_ok|]. exists row_demo. split; reflexivity. }
    unfold turns_demo. repeat (apply Forall_cons; split; [apply Hs|]).
    apply Forall_nil_2.
  - cbn. lia.
  - eexists. split; [reflexivity|]. vm_compute. reflexivity.
  - eexists. split; [reflexivity|]. vm_compute. discriminate.
Defined.

(** * Further properties of the commands *)

Section Commands.

Implicit Types (db : DB) (r : Row) (i : Interaction).

(** The row [create_auction] writes for [start]. *)
Lemma start_inv chan now oracle in_thread thread db i pname bid db' resp :
  AuctionCog.start chan now oracle in_thread thread db i pname bid = (db', resp) ->
  (db' = db /\ forall tid a, resp <> StartCreated tid a) \/
  (exists gid cid tid rows balance,
      i_guild i = Some gid /\ i_channel i = Some cid /\ in_thread = false /\
      chan = None /\ oracle = Ok rows /\
      Sheets.get_pom_balance_sync rows (i_user i) = Some balance /\
      bid <= balance - Db.get_committed_pom_for_user db (i_user i) /\
      thread = Ok tid /\ db !! tid = None /\
      db' = <[tid := mkRow cid gid pname bid (Some (i_user i))
                       (Some (i_display_name i)) now now active]> db /\
      resp = StartCreated tid
               (mkRow cid gid pname bid (Some (i_user i))
                  (Some (i_display_name i)) now now active)).
Proof.
  unfold AuctionCog.start, AuctionCog._require_auction_channel.
  destruct (i_guild i) as [gid|]; [|intros [= <- <-]; left; now split].
  destruct (i_channel i) as [cid|]; [|intros [= <- <-]; left; now split].
  destruct in_thread; [intros [= <- <-]; left; now split|].
  destruct chan as [c|]; cbn [negb]; [intros [= <- <-]; left; now split|].
  unfold Cog._get_pom_availability.
  destruct oracle as [rows|e]; [|intros [= <- <-]; left; now split].
  destruct (Sheets.get_pom_balance_sync rows (i_user i)) as [balance|] eqn:Hbal;
    [|intros [= <- <-]; left; now split].
  destruct (_ <? bid) eqn:Hav; [intros [= <- <-]; left; now split|].
  apply Z.ltb_ge in Hav.
  destruct thread as [tid|[|]]; [|intros [= <- <-]; left; now split..].
  unfold Db.create_auction, Db.insert_row, Db.get_auction_by_thread.
  destruct (db !! tid) eqn:Hfree; [intros [= <- <-]; left; now split|].
  rewrite lookup_insert_eq. intros [= <- <-]. right.
  exists gid, cid, tid, rows, balance. repeat split; try assumption; reflexivity.
Qed.

End Commands.

(** X8. [/bid] answers with the new high bid exactly when: it is used in a
    server channel whose id has a row, the row is active, the variable
    [DISCORD_AUCTION_CHANNEL_ID] is unset, the amount is above the stored bid,
    the bidder does not lead the thread, the sheet answers and lists the
    bidder, and the amount is within balance less commitment. *)
Theorem bid_accepted_iff (chan : option string) (now : Z) (oracle : res Sheet)
    (db : DB) (i : Interaction) (amount : Z) :
  (exists r', (Cog.bid_command chan now oracle db i amount).2 = NewBid r') <->
  (exists g tid r rows balance,
      i_guild i = Some g /\ i_channel i = Some tid /\ db !! tid = Some r /\
      status r = active /\ chan = None /\ current_bid r < amount /\
      current_bidder_id r <> Some (i_user i) /\ oracle = Ok rows /\
      Sheets.get_pom_balance_sync rows (i_user i) = Some balance /\
      amount <= balance - Db.get_committed_pom_for_user db (i_user i)).
Proof.
  split.
  - intros [r' Hr'].
    destruct (Cog.bid_command chan now oracle db i amount) as [db' resp] eqn:Hrun.
    cbn [snd] in Hr'. subst resp.
    assert (Hg : exists g, i_guild i = Some g).
    { destruct (i_guild i) as [g|] eqn:Hg; [eauto|].
      unfold Cog.bid_command in Hrun. rewrite Hg in Hrun. discriminate. }
    destruct Hg as [g Hg].
    destruct (bid_command_inv _ _ _ _ _ _ _ _ Hrun)
      as [[_ Hrej]|(tid & r & rows & balance & Hc & Hr & Hact & Hch & Hhigh
                    & Hown & Hor & Hbal & Hle & _)]; [contradiction|].
    exists g, tid, r, rows, balance. repeat split; assumption.
  - intros (g & tid & r & rows & balance & Hg & Hc & Hr & Hact & -> & Hhigh
            & Hown & -> & Hbal & Hle).
    unfold Cog.bid_command, Db.get_auction_by_thread.
    rewrite Hg, Hc, Hr.
    rewrite bool_decide_eq_false_2 by (rewrite Hact; discriminate).
    cbn [Cog.channel_differs].
    rewrite (proj2 (Z.leb_gt _ _) Hhigh).
    rewrite bool_decide_eq_false_2 by exact Hown.
    unfold Cog._get_pom_availability. rewrite Hbal.
    rewrite (proj2 (Z.ltb_ge _ _) Hle).
    unfold Db.place_bid, Db.place_bid_check, Db.get_auction_by_thread.
    rewrite Hr, (proj2 (Z.leb_gt _ _) Hhigh). cbn [negb].
    rewrite (place_bid_update_lookup _ _ _ _ _ _ _ Hr), Hact.
    eexists. reflexivity.
Qed.

(** X9. After an accepted [/bid] the bidder's commitment has grown by the
    amount and is within the balance the sheet gave; the commitment of every
    other user is what it was, less the old bid for the one who led. *)
Theorem bid_accepted_commitment (chan : option string) (now : Z) (rows : Sheet)
    (db db' : DB) (i : Interaction) (amount : Z) (r' : Row)
    (Hok : Cog.bid_command chan now (Ok rows) db i amount = (db', NewBid r')) :
  exists tid r balance,
    i_channel i = Some tid /\ db !! tid = Some r /\
    Sheets.get_pom_balance_sync rows (i_user i) = Some balance /\
    Db.get_committed_pom_for_user db' (i_user i)
    = Db.get_committed_pom_for_user db (i_user i) + amount /\
    Db.get_committed_pom_for_user db' (i_user i) <= balance /\
    forall u, u <> i_user i ->
      Db.get_committed_pom_for_user db' u
      = Db.get_committed_pom_for_user db u - share u tid r.
Proof.
  destruct (bid_command_inv _ _ _ _ _ _ _ _ Hok)
    as [[_ Hrej]|(tid & r & rows' & balance & Hc & Hr & Hact & Hch & Hhigh
                  & Hown & [= <-] & Hbal & Hle & -> & _)]; [contradiction|].
  exists tid, r, balance. split; [exact Hc|]. split; [exact Hr|].
  split; [exact Hbal|].
  assert (Hnew : forall u,
    share u tid (Db.set_bid amount (i_user i) (i_display_name i) now r)
    = if decide (u = i_user i) then amount else 0).
  { intros u. unfold share, Db.led_by.
    cbn [snd Db.set_bid status current_bidder_id current_bid].
    destruct (decide (u = i_user i)) as [->|Hne].
    - rewrite decide_True by (split; [exact Hact | reflexivity]). reflexivity.
    - rewrite decide_False by (intros [_ [= Heq]]; congruence). reflexivity. }
  assert (Hold : share (i_user i) tid r = 0).
  { unfold share, Db.led_by. cbn [snd].
    rewrite decide_False by (intros [_ Hl]; contradiction). reflexivity. }
  assert (Hme : Db.get_committed_pom_for_user
                  (<[tid := Db.set_bid amount (i_user i) (i_display_name i) now r]> db)
                  (i_user i)
                = Db.get_committed_pom_for_user db (i_user i) + amount).
  { rewrite (committed_replace _ _ _ _ _ Hr), Hnew, Hold.
    rewrite decide_True by reflexivity. lia. }
  split; [exact Hme|]. split; [rewrite Hme; lia|].
  intros u Hu. rewrite (committed_replace _ _ _ _ _ Hr), Hnew.
  rewrite decide_False by exact Hu. lia.
Qed.

Lemma bid_accepted_commitment_witness :
  let sheet := [mkBalanceRow (Some 8) "B" (Some 1000)] in
  let db' := (Cog.bid_command None 5 (Ok sheet) db_demo
                (mkInteraction (Some 100) (Some 1) 8 "B") 150).1 in
  Db.get_committed_pom_for_user db' 8 = 150 /\
  Db.get_committed_pom_for_user db' 7 = 0.
Proof.
  cbv zeta.
  destruct (bid_accepted_commitment None 5 [mkBalanceRow (Some 8) "B" (Some 1000)]
              db_demo _ (mkInteraction (Some 100) (Some 1) 8 "B") 150 _ eq_refl)
    as (tid & r & balance & Hc & Hr & _ & Hme & _ & Hother).
  cbn in Hc. injection Hc as <-.
  unfold db_demo in Hr. apply lookup_singleton_Some in Hr as [_ <-].
  split; [exact Hme|]. exact (Hother 7 ltac:(discriminate)).
Defined.

(** X10. [/auction start] creates an auction exactly when: it is used in a
    server channel that is no thread, [DISCORD_AUCTION_CHANNEL_ID] is unset,
    the sheet answers and lists the starter, the first bid is within balance
    less commitment, the thread is created, and its id has no row yet.  With
    any other answer the ledger is as it was. *)
Theorem start_created_iff (chan : option string) (now : Z) (oracle : res Sheet)
    (in_thread : bool) (thread : res Z) (db : DB) (i : Interaction)
    (pname : string) (bid : Z) :
  let out := AuctionCog.start chan now oracle in_thread thread db i pname bid in
  ((exists tid a, out.2 = StartCreated tid a) <->
   (exists gid cid tid rows balance,
       i_guild i = Some gid /\ i_channel i = Some cid /\ in_thread = false /\
       chan = None /\ oracle = Ok rows /\
       Sheets.get_pom_balance_sync rows (i_user i) = Some balance /\
       bid <= balance - Db.get_committed_pom_for_user db (i_user i) /\
       thread = Ok tid /\ db !! tid = None)) /\
  ((forall tid a, out.2 <> StartCreated tid a) -> out.1 = db).
Proof.
  cbv zeta.
  destruct (AuctionCog.start chan now oracle in_thread thread db i pname bid)
    as [db' resp] eqn:Hrun. cbn [fst snd].
  split; [split|].
  - intros (tid & a & ->).
    destruct (start_inv _ _ _ _ _ _ _ _ _ _ _ Hrun)
      as [[_ Hno]|(gid & cid & tid' & rows & balance & Hg & Hc & Hth & Hch & Hor
                   & Hbal & Hle & Htid & Hfree & _)];
      [now destruct (Hno tid a)|].
    exists gid, cid, tid', rows, balance. repeat split; assumption.
  - intros (gid & cid & tid & rows & balance & Hg & Hc & -> & -> & -> & Hbal
            & Hle & -> & Hfree).
    revert Hrun.
    unfold AuctionCog.start, AuctionCog._require_auction_channel,
      Cog._get_pom_availability.
    rewrite Hg, Hc, Hbal. cbn [negb].
    rewrite (proj2 (Z.ltb_ge _ _) Hle).
    unfold Db.create_auction, Db.insert_row, Db.get_auction_by_thread.
    rewrite Hfree, lookup_insert_eq. intros [= _ <-]. eauto.
  - intros Hno.
    destruct (start_inv _ _ _ _ _ _ _ _ _ _ _ Hrun)
      as [[Hdb _]|(gid & cid & tid & rows & balance & _ & _ & _ & _ & _ & _ & _
                   & _ & _ & _ & Hresp)]; [exact Hdb|].
    now destruct (Hno _ _ Hresp).
Qed.

(** X11. The auction that [/auction start] creates is active, carries the
    first bid with the starter as its leader, and has both time stamps at the
    second of its creation; no other row changes; the starter's commitment
    has grown by the first bid and is within the balance the sheet gave; no
    other commitment moves. *)
Theorem start_created_commitment (chan : option string) (now : Z) (rows : Sheet)
    (in_thread : bool) (thread : res Z) (db db' : DB) (i : Interaction)
    (pname : string) (bid tid : Z) (a : Row)
    (Hok : AuctionCog.start chan now (Ok rows) in_thread thread db i pname bid
           = (db', StartCreated tid a)) :
  exists balance,
    Sheets.get_pom_balance_sync rows (i_user i) = Some balance /\
    db !! tid = None /\ db' !! tid = Some a /\
    (forall k, k <> tid -> db' !! k = db !! k) /\
    status a = active /\ current_bid a = bid /\
    current_bidder_id a = Some (i_user i) /\
    created_at a = now /\ last_bid_at a = now /\
    Db.get_committed_pom_for_user db' (i_user i)
    = Db.get_committed_pom_for_user db (i_user i) + bid /\
    Db.get_committed_pom_for_user db' (i_user i) <= balance /\
    forall u, u <> i_user i ->
      Db.get_committed_pom_for_user db' u = Db.get_committed_pom_for_user db u.
Proof.
  destruct (start_inv _ _ _ _ _ _ _ _ _ _ _ Hok)
    as [[_ Hno]|(gid & cid & tid' & rows' & balance & _ & _ & _ & _ & [= <-]
                 & Hbal & Hle & _ & Hfree & Hdb & Hresp)];
    [now destruct (Hno tid a)|].
  injection Hresp as Ht Ha. subst tid' a db'. clear Hok.
  exists balance. split; [exact Hbal|]. split; [exact Hfree|].
  split; [apply lookup_insert_eq|].
  split; [intros k Hk; now apply lookup_insert_ne|].
  do 5 (split; [reflexivity|]).
  assert (Hnew : forall u,
    share u tid (mkRow cid gid pname bid (Some (i_user i))
                   (Some (i_display_name i)) now now active)
    = if decide (u = i_user i) then bid else 0).
  { intros u. unfold share, Db.led_by.
    cbn [snd status current_bidder_id current_bid].
    destruct (decide (u = i_user i)) as [->|Hne].
    - rewrite decide_True by (split; reflexivity). reflexivity.
    - rewrite decide_False by (intros [_ [= Heq]]; congruence). reflexivity. }
  rewrite !(committed_insert_fresh _ _ _ _ Hfree), Hnew.
  rewrite decide_True by reflexivity.
  split; [lia|]. split; [lia|].
  intros u Hu. rewrite (committed_insert_fresh _ _ _ _ Hfree), Hnew.
  rewrite decide_False by exact Hu. lia.
Qed.

(** User 7 has 500 and leads thread 1 with 100: starting at 40 is within
    budget and brings the commitment to 140. *)
Lemma start_created_commitment_witness :
  Db.get_committed_pom_for_user
    (AuctionCog.start None 9 (Ok sheet_demo) false (Ok 2) db_demo
       (mkInteraction (Some 100) (Some 10) 7 "A") "Other" 40).1 7 = 140.
Proof.
  destruct (start_created_commitment None 9 sheet_demo false (Ok 2) db_demo _
              (mkInteraction (Some 100) (Some 10) 7 "A") "Other" 40 _ _ eq_refl)
    as (balance & _ & _ & _ & _ & _ & _ & _ & _ & _ & Hme & _).
  exact Hme.
Defined.

(** X12. With [DISCORD_AUCTION_CHANNEL_ID] set, to whatever value, no command
    writes to the ledger: [/bid] never answers with a new high bid,
    [/auction start] never creates and [/auction register] never registers.
    The code compares the integer ids of the chat platform with the string
    of [os.getenv]. *)
Theorem channel_variable_blocks_commands (c : string) (now : Z)
    (oracle : res Sheet) (db : DB) (i : Interaction) :
  (forall amount,
      let out := Cog.bid_command (Some c) now oracle db i amount in
      out.1 = db /\ rejected out.2) /\
  (forall in_thread thread pname bid,
      let out := AuctionCog.start (Some c) now oracle in_thread thread db i
                   pname bid in
      out.1 = db /\ forall tid a, out.2 <> StartCreated tid a) /\
  (forall in_thread parent pname bid bidder bname offset,
      let out := AuctionCog.register (Some c) now in_thread parent db i pname
                   bid bidder bname offset in
      out.1 = db /\ forall a, out.2 <> Registered a).
Proof.
  split; [|split].
  - intros amount. cbv zeta.
    destruct (Cog.bid_command (Some c) now oracle db i amount)
      as [db' resp] eqn:Hrun. cbn [fst snd].
    destruct (bid_command_inv _ _ _ _ _ _ _ _ Hrun)
      as [[Hdb Hrej]|(tid & r & rows & balance & _ & _ & _ & Hch & _)];
      [now split | discriminate].
  - intros in_thread thread pname bid. cbv zeta.
    destruct (AuctionCog.start (Some c) now oracle in_thread thread db i pname bid)
      as [db' resp] eqn:Hrun. cbn [fst snd].
    destruct (start_inv _ _ _ _ _ _ _ _ _ _ _ Hrun)
      as [[Hdb Hno]|(gid & cid & tid & rows & balance & _ & _ & _ & Hch & _)];
      [now split | discriminate].
  - intros in_thread parent pname bid bidder bname offset. cbv zeta.
    unfold AuctionCog.register.
    destruct (i_guild i), (i_channel i), in_thread; cbn [negb fst snd];
      (split; [reflexivity | discriminate]).
Qed.

(** * Further properties of the completion sweep *)

Section Completions.

Variables (env : Env) (now : Z).

Implicit Types (w : World) (a : Auction) (db : DB).

Lemma expired_clock l :
  (Cog._seconds_until_expiry now l <=? 0) = bool_decide (l + 86400 <= now).
Proof.
  unfold Cog._seconds_until_expiry, Cog.BID_EXPIRY_HOURS. cbv zeta.
  case_bool_decide; [apply Z.leb_le | apply Z.leb_gt]; lia.
Qed.

Lemma completions_unfold w :
  _check_auction_completions env now w
  = except_any
      (for_each (Db.get_active_auctions_for_reminders (w_db w))
         (complete_one env now))
      (log LogCompletionsCheckFailed) w.
Proof. reflexivity. Qed.

Lemma for_each_no_continue {A} (l : list A) (body : A -> M unit) w w' :
  for_each l body w <> (w', inr Continue).
Proof.
  revert w. induction l as [|b l IH]; intros w; [discriminate|].
  cbn [for_each]. destruct (body b w) as [w1 [u|[e|]]]; [apply IH | discriminate | apply IH].
Qed.

Lemma complete_auction_other db tid k :
  k <> tid -> (Db.complete_auction db tid).1 !! k = db !! k.
Proof.
  intros Hk. unfold Db.complete_auction. cbn [fst].
  destruct (db !! tid) as [r|]; [|reflexivity].
  destruct (status r); [now apply lookup_insert_ne | reflexivity].
Qed.

(** The ledger after one body of the loop, however the body ends. *)
Lemma complete_one_db a w :
  w_db (complete_one env now a w).1
  = if bool_decide (last_bid_at a.2 + 86400 <= now)
    then (Db.complete_auction (w_db w) (thread_id a)).1 else w_db w.
Proof.
  unfold complete_one. cbv zeta. rewrite expired_clock.
  case_bool_decide; [|reflexivity].
  unfold bind at 1, complete_auction.
  destruct (Db.complete_auction (w_db w) (thread_id a)) as [db' c].
  cbn [fst]. destruct c as [r|]; [|reflexivity].
  destruct (settle env now a (with_db w db')) as [w' x] eqn:Hs. cbn [fst].
  exact (settle_keeps_db env now a db' _ _ _ Hs eq_refl).
Qed.

Lemma complete_expired_lookup db a :
  a ∈ Db.get_active_auctions_for_reminders db ->
  last_bid_at a.2 + 86400 <= now ->
  complete_expired now <$> db !! thread_id a = Some (Db.set_completed a.2).
Proof.
  intros [Hrow Hact]%active_lookup Hexp. unfold thread_id. rewrite Hrow.
  cbn. unfold complete_expired. now rewrite decide_True by now split.
Qed.

(** Each row is as the sweep found it, or completed because it had expired. *)
Lemma complete_one_touches db0 a :
  a ∈ Db.get_active_auctions_for_reminders db0 ->
  preserves (fun w => forall tid,
               w_db w !! tid = db0 !! tid \/
               w_db w !! tid = complete_expired now <$> db0 !! tid)
    (complete_one env now a).
Proof.
  intros Ha w w' x Hrun HP tid.
  pose proof (complete_one_db a w) as Hdb. rewrite Hrun in Hdb. cbn [fst] in Hdb.
  rewrite Hdb. case_bool_decide as Hexp; [|apply HP].
  destruct (decide (tid = thread_id a)) as [->|Hne];
    [|rewrite complete_auction_other by exact Hne; apply HP].
  right. rewrite (complete_expired_lookup db0 a Ha Hexp).
  apply active_lookup in Ha as [Hrow Hact].
  destruct (HP (thread_id a)) as [Hsame|Hdone].
  - unfold thread_id in *. rewrite Hrow in Hsame.
    now rewrite (complete_auction_lookup _ _ _ Hsame), Hact.
  - rewrite (complete_expired_lookup db0 a) in Hdone
      by (try apply active_lookup; auto).
    now rewrite (complete_auction_lookup _ _ _ Hdone).
Qed.

Lemma completions_touch w tid :
  w_db (_check_auction_completions env now w).1 !! tid = w_db w !! tid \/
  w_db (_check_auction_completions env now w).1 !! tid
  = complete_expired now <$> w_db w !! tid.
Proof.
  destruct (_check_auction_completions env now w) as [w' x] eqn:Hrun.
  cbn [fst]. revert tid. rewrite completions_unfold in Hrun.
  refine (preserves_except_any
            (fun w1 => forall tid, w_db w1 !! tid = w_db w !! tid \/
                                   w_db w1 !! tid = complete_expired now <$> w_db w !! tid)
            _ _ _ _ _ _ _ Hrun _).
  - apply preserves_for_each. intros a Ha. now apply complete_one_touches.
  - apply preserves_log. intros w1 HP. exact HP.
  - intros tid. now left.
Qed.

(** *** When the chat platform fails with [discord.HTTPException] only *)

Lemma safe_except_any {A} (m h : M A) : safe h -> safe (except_any m h).
Proof.
  intros Hh w w' e. unfold except_any, catch.
  destruct (m w) as [w1 [a|[e1|]]]; [discriminate | apply Hh | discriminate].
Qed.

Lemma settle_safe a : chat_http_only env -> safe (settle env now a).
Proof.
  intros [[Hf Hs] He]. unfold settle. cbv zeta.
  apply safe_bind; [apply resolve_safe, Hf|]. intros thread.
  destruct (negb (ch_is_thread thread)); [discriminate|].
  apply safe_bind.
  { intros w w' e.
    match goal with
    | |- except_http (send env ?t ?m) pass w <> _ =>
        destruct (guarded_send env t m w (Hs t m)) as (w1 & E & _)
    end.
    rewrite E. discriminate. }
  intros _. apply safe_bind.
  { intros w w' e.
    destruct (guarded_edit env (thread_id a) w (He _)) as (w1 & E & _).
    rewrite E. discriminate. }
  intros _. apply safe_bind; [apply resolve_safe, Hf|]. intros _.
  apply safe_bind.
  { intros w w' e.
    match goal with
    | |- except_http (send env ?t ?m) pass w <> _ =>
        destruct (guarded_send env t m w (Hs t m)) as (w1 & E & _)
    end.
    rewrite E. discriminate. }
  intros _. apply safe_bind; [apply safe_except_any; discriminate|].
  intros _. apply safe_bind; [apply safe_except_any; discriminate|].
  intros _. discriminate.
Qed.

Lemma complete_one_safe a : chat_http_only env -> safe (complete_one env now a).
Proof.
  intros Hchat. unfold complete_one. cbv zeta.
  destruct (_ <=? 0); [|discriminate].
  apply safe_bind.
  - intros w w' e. unfold complete_auction.
    destruct (Db.complete_auction _ _). discriminate.
  - intros [r|]; [now apply settle_safe | discriminate].
Qed.

End Completions.

(** ** The turn with a clock reading for each row *)

Section PerRowTurn.

Variables (env : Env) (clock : Z -> Z).

Implicit Types (w : World) (a : Auction) (db : DB).

Lemma turn_unfold w :
  PerRow._check_auction_completions env clock w
  = except_any
      (for_each (Db.get_active_auctions_for_reminders (w_db w))
         (fun a => complete_one env (clock (thread_id a)) a))
      (log LogCompletionsCheckFailed) w.
Proof. reflexivity. Qed.

(** The turn with the clock standing still is the turn in which every row
    gets the same reading. *)
Lemma turn_frozen now :
  PerRow._check_auction_completions env (fun _ => now)
  = _check_auction_completions env now.
Proof. reflexivity. Qed.

Lemma turn_touches w tid :
  w_db (PerRow._check_auction_completions env clock w).1 !! tid = w_db w !! tid \/
  w_db (PerRow._check_auction_completions env clock w).1 !! tid
  = complete_expired (clock tid) <$> w_db w !! tid.
Proof.
  destruct (PerRow._check_auction_completions env clock w) as [w' x] eqn:Hrun.
  cbn [fst]. revert tid. rewrite turn_unfold in Hrun.
  refine (preserves_except_any
            (fun w1 => forall tid,
               w_db w1 !! tid = w_db w !! tid \/
               w_db w1 !! tid = complete_expired (clock tid) <$> w_db w !! tid)
            _ _ _ _ _ _ _ Hrun _).
  - apply preserves_for_each. intros a Ha w1 w2 y Hb HP tid.
    pose proof (complete_one_db env (clock (thread_id a)) a w1) as Hdb.
    rewrite Hb in Hdb. cbn [fst] in Hdb.
    rewrite Hdb. case_bool_decide as Hexp; [|apply HP].
    destruct (decide (tid = thread_id a)) as [->|Hne];
      [|rewrite complete_auction_other by exact Hne; apply HP].
    right.
    rewrite (complete_expired_lookup (clock (thread_id a)) (w_db w) a Ha Hexp).
    pose proof Ha as [Hrow Hact]%active_lookup.
    destruct (HP (thread_id a)) as [Hsame|Hdone].
    + unfold thread_id in *. rewrite Hrow in Hsame.
      now rewrite (complete_auction_lookup _ _ _ Hsame), Hact.
    + rewrite (complete_expired_lookup (clock (thread_id a)) (w_db w) a Ha Hexp)
        in Hdone.
      now rewrite (complete_auction_lookup _ _ _ Hdone).
  - apply preserves_log. intros w1 HP. exact HP.
  - intros tid. now left.
Qed.

Lemma for_each_completes l : forall w,
  chat_http_only env ->
  w_db (for_each l (fun a => complete_one env (clock (thread_id a)) a) w).1
  = completed_in clock (w_db w) l.
Proof.
  induction l as [|a l IH]; intros w Hchat; [reflexivity|].
  cbn [for_each completed_in foldl].
  pose proof (complete_one_db env (clock (thread_id a)) a w) as Hdb.
  destruct (complete_one env (clock (thread_id a)) a w) as [w1 [u|[e|]]] eqn:Hb;
    cbn [fst] in Hdb.
  - rewrite IH by exact Hchat. now rewrite Hdb.
  - exfalso. exact (complete_one_safe env _ a Hchat _ _ _ Hb).
  - rewrite IH by exact Hchat. now rewrite Hdb.
Qed.

Lemma completed_in_keeps l : forall db k,
  Forall (fun a => thread_id a <> k \/
                   ~ last_bid_at a.2 + 86400 <= clock (thread_id a)) l ->
  completed_in clock db l !! k = db !! k.
Proof.
  induction l as [|a l IH]; intros db k Hl; [reflexivity|].
  apply Forall_cons in Hl as [Ha Hl]. cbn [completed_in foldl].
  fold (completed_in clock
          (if bool_decide (last_bid_at a.2 + 86400 <= clock (thread_id a))
           then (Db.complete_auction db (thread_id a)).1 else db) l).
  rewrite IH by exact Hl. case_bool_decide as Hexp; [|reflexivity].
  destruct Ha as [Hne|Hno]; [|contradiction].
  apply complete_auction_other. congruence.
Qed.

Lemma completed_lookup db tid r :
  db !! tid = Some r -> status r = completed ->
  forall l, completed_in clock db l !! tid = Some r.
Proof.
  intros Hr Hst l. revert db Hr.
  induction l as [|a l IH]; intros db Hr; [exact Hr|].
  cbn [completed_in foldl]. apply IH. case_bool_decide; [|exact Hr].
  destruct (decide (tid = thread_id a)) as [->|Hne].
  - now rewrite (complete_auction_lookup _ _ _ Hr), Hst.
  - now rewrite complete_auction_other.
Qed.

Lemma completed_in_hits l : forall db a r,
  a ∈ l -> last_bid_at a.2 + 86400 <= clock (thread_id a) ->
  db !! thread_id a = Some r -> status r = active ->
  completed_in clock db l !! thread_id a = Some (Db.set_completed r).
Proof.
  induction l as [|b l IH]; intros db a r Ha Hexp Hr Hact;
    [now apply elem_of_nil in Ha|].
  cbn [completed_in foldl].
  fold (completed_in clock
          (if bool_decide (last_bid_at b.2 + 86400 <= clock (thread_id b))
           then (Db.complete_auction db (thread_id b)).1 else db) l).
  destruct (decide (thread_id b = thread_id a /\
                    last_bid_at b.2 + 86400 <= clock (thread_id b)))
    as [[Heq Hb]|Hn].
  - rewrite bool_decide_eq_true_2 by exact Hb. rewrite Heq.
    apply completed_lookup; [|reflexivity].
    now rewrite (complete_auction_lookup _ _ _ Hr), Hact.
  - apply elem_of_cons in Ha as [->|Ha]; [exfalso; apply Hn; now split|].
    apply IH; try assumption.
    case_bool_decide as Hb; [|exact Hr].
    rewrite complete_auction_other; [exact Hr|].
    intros Heq. apply Hn. now split.
Qed.

End PerRowTurn.

(** ** A completed row is out of the sweep's sight *)

Section Frame.

Variable tid : Z.

Implicit Types (w : World) (a : Auction) (db : DB).

Lemma blind_ret {A} (v : A) : blind_to tid (ret v).
Proof. intros w. reflexivity. Qed.

Lemma blind_raise {A} e : blind_to tid (@raise A e).
Proof. intros w. reflexivity. Qed.

Lemma blind_continue {A} : blind_to tid (@continue A).
Proof. intros w. reflexivity. Qed.

Lemma blind_modify f :
  (forall w, f (without tid w) = without tid (f w)) -> blind_to tid (modify f).
Proof. intros Hf w. unfold modify. cbn [fst snd]. now rewrite Hf. Qed.

Lemma blind_log l : blind_to tid (log l).
Proof. apply blind_modify. reflexivity. Qed.

Lemma blind_bind {A B} (m : M A) (k : A -> M B) :
  blind_to tid m -> (forall v, blind_to tid (k v)) -> blind_to tid (bind m k).
Proof.
  intros Hm Hk w. unfold bind. rewrite Hm.
  destruct (m w) as [w1 [v|x]]; cbn [fst snd]; [apply Hk | reflexivity].
Qed.

Lemma blind_catch {A} (m : M A) (h : exn -> M A) :
  blind_to tid m -> (forall e, blind_to tid (h e)) -> blind_to tid (catch m h).
Proof.
  intros Hm Hh w. unfold catch. rewrite Hm.
  destruct (m w) as [w1 [v|[e|]]]; cbn [fst snd]; [reflexivity | apply Hh | reflexivity].
Qed.

Lemma blind_except_http {A} (m h : M A) :
  blind_to tid m -> blind_to tid h -> blind_to tid (except_http m h).
Proof.
  intros Hm Hh. apply blind_catch; [exact Hm|].
  intros [|]; [exact Hh | apply blind_raise].
Qed.

Lemma blind_except_any {A} (m h : M A) :
  blind_to tid m -> blind_to tid h -> blind_to tid (except_any m h).
Proof. intros Hm Hh. apply blind_catch; [exact Hm | intros _; exact Hh]. Qed.

Lemma blind_call {A} c (r : res A) : blind_to tid (call c r).
Proof.
  destruct r as [v|e]; unfold call; apply blind_bind;
    try (apply blind_modify; reflexivity); intros _;
    [apply blind_ret | apply blind_raise].
Qed.

Lemma blind_for_each {A} (l : list A) (body : A -> M unit) :
  (forall b, b ∈ l -> blind_to tid (body b)) -> blind_to tid (for_each l body).
Proof.
  induction l as [|b l IH]; intros Hbody w; [reflexivity|].
  cbn [for_each]. rewrite (Hbody b) by (apply elem_of_cons; now left).
  assert (Hrest : blind_to tid (for_each l body)).
  { apply IH. intros b' Hb'. apply Hbody. apply elem_of_cons. now right. }
  destruct (body b w) as [w1 [u|[e|]]]; cbn [fst snd];
    [apply Hrest | reflexivity | apply Hrest].
Qed.

Lemma blind_resolve env id : blind_to tid (resolve env id).
Proof.
  unfold resolve. destruct (e_get_channel env id); [apply blind_ret|].
  apply blind_except_http; [apply blind_call | apply blind_continue].
Qed.

Lemma blind_send env target m : blind_to tid (send env target m).
Proof. apply blind_call. Qed.

Lemma blind_update_sheets env now r : blind_to tid (update_sheets env now r).
Proof.
  unfold update_sheets. apply blind_except_any; [|apply blind_log].
  apply blind_bind.
  { unfold append_completed_auction. cbv zeta.
    apply blind_bind; [apply blind_call|]. intros _.
    apply blind_modify. reflexivity. }
  intros _. destruct (truthy_id (current_bidder_id r)) as [uid|];
    [|apply blind_ret].
  apply blind_bind.
  { unfold deduct_pom. apply blind_bind; [apply blind_call|]. intros _ w.
    change (w_sheet (without tid w)) with (w_sheet w).
    destruct (Sheets.deduct_pom_sync (w_sheet w) uid (current_bid r)) as [s' ok].
    reflexivity. }
  intros [|]; [apply blind_ret|].
  apply blind_bind; [apply blind_log|]. intros _.
  apply blind_except_http; [apply blind_send | apply blind_ret].
Qed.

Lemma blind_settle env now a : blind_to tid (settle env now a).
Proof.
  unfold settle. cbv zeta.
  apply blind_bind; [apply blind_resolve|]. intros thread.
  destruct (negb (ch_is_thread thread)); [apply blind_continue|].
  apply blind_bind;
    [apply blind_except_http; [apply blind_send | apply blind_ret]|].
  intros _. apply blind_bind;
    [apply blind_except_http; [apply blind_call | apply blind_log]|].
  intros _. apply blind_bind; [apply blind_resolve|].
  intros _. apply blind_bind;
    [apply blind_except_http; [apply blind_send | apply blind_ret]|].
  intros _. apply blind_bind; [apply blind_update_sheets|].
  intros _. apply blind_bind;
    [apply blind_except_any; [apply blind_call | apply blind_log]|].
  intros _. apply blind_log.
Qed.

(** [complete_auction] of another thread commutes with leaving the row out. *)
Lemma complete_auction_delete db k :
  k <> tid ->
  Db.complete_auction (delete tid db) k
  = (delete tid (Db.complete_auction db k).1, (Db.complete_auction db k).2).
Proof.
  intros Hk. unfold Db.complete_auction. cbv zeta. cbn [fst snd].
  rewrite lookup_delete_ne by congruence.
  destruct (db !! k) as [r|] eqn:Hr;
    [|now rewrite lookup_delete_ne by congruence].
  destruct (status r).
  - rewrite !lookup_insert_eq. now rewrite delete_insert_ne by congruence.
  - now rewrite lookup_delete_ne by congruence.
Qed.

Lemma blind_complete_one env now a :
  thread_id a <> tid -> blind_to tid (complete_one env now a).
Proof.
  intros Hk. unfold complete_one. cbv zeta.
  destruct (_ <=? 0); [|apply blind_ret].
  apply blind_bind.
  - intros w. unfold complete_auction.
    change (w_db (without tid w)) with (delete tid (w_db w)).
    rewrite (complete_auction_delete _ _ Hk).
    destruct (Db.complete_auction (w_db w) (thread_id a)) as [db' c].
    reflexivity.
  - intros [r|]; [apply blind_settle | apply blind_continue].
Qed.

Lemma active_sorted db :
  StronglySorted Db.by_thread_id (Db.get_active_auctions_for_reminders db).
Proof.
  assert (Htrans : Transitive Db.by_thread_id)
    by (intros a b c; unfold Db.by_thread_id; lia).
  assert (Htotal : Total Db.by_thread_id)
    by (intros a b; unfold Db.by_thread_id; lia).
  apply StronglySorted_merge_sort; assumption.
Qed.

(** The list comes in the order of the thread ids, each thread once. *)
Lemma active_increasing db :
  StronglySorted Z.lt (Db.get_active_auctions_for_reminders db).*1.
Proof.
  assert (Hnd : NoDup (Db.get_active_auctions_for_reminders db).*1).
  { unfold Db.get_active_auctions_for_reminders. rewrite merge_sort_Permutation.
    apply (sublist_NoDup _ _ (NoDup_fst_map_to_list db)).
    apply fmap_sublist, sublist_filter. }
  pose proof (active_sorted db) as Hs.
  induction Hs as [|a l _ IH Hall]; [constructor|].
  cbn [fmap list_fmap] in *. apply NoDup_cons in Hnd as [Hnotin Hnd].
  constructor; [exact (IH Hnd)|].
  apply Forall_fmap, Forall_forall. intros b Hb.
  rewrite Forall_forall in Hall. specialize (Hall b Hb).
  unfold Db.by_thread_id in Hall.
  assert (Hne : a.1 <> b.1).
  { intros Heq. apply Hnotin. rewrite Heq. now apply list_elem_of_fmap_2. }
  cbn. lia.
Qed.

(** A completed row is not in the list the sweeps read: the list is the one
    of the ledger without that row. *)
Lemma active_without db r0 :
  db !! tid = Some r0 -> status r0 = completed ->
  Db.get_active_auctions_for_reminders (delete tid db)
  = Db.get_active_auctions_for_reminders db.
Proof.
  intros Hr Hst.
  apply (StronglySorted_unique_strong Db.by_thread_id);
    [|apply active_sorted..|].
  - intros x1 x2 [H1 _]%active_lookup [H2 _]%active_lookup Hle Hge.
    unfold Db.by_thread_id in Hle, Hge.
    assert (Hk : x1.1 = x2.1) by lia.
    apply lookup_delete_Some in H1 as [_ H1]. rewrite Hk in H1.
    destruct x1 as [k1 r1], x2 as [k2 r2]. cbn [fst snd] in *. congruence.
  - unfold Db.get_active_auctions_for_reminders.
    rewrite !merge_sort_Permutation.
    rewrite <- (map_to_list_delete db tid r0 Hr).
    rewrite filter_cons_False; [reflexivity|].
    unfold Db.is_active. cbn [snd]. congruence.
Qed.

(** The turn of the completion loop passes a completed row by. *)
Lemma turn_frame env clock w r0 :
  w_db w !! tid = Some r0 -> status r0 = completed ->
  PerRow._check_auction_completions env clock (without tid w)
  = (without tid (PerRow._check_auction_completions env clock w).1,
     (PerRow._check_auction_completions env clock w).2).
Proof.
  intros Hr Hst. rewrite !turn_unfold.
  change (w_db (without tid w)) with (delete tid (w_db w)).
  rewrite (active_without _ _ Hr Hst).
  apply blind_except_any; [|apply blind_log].
  apply blind_for_each. intros a [Hrow Hact]%active_lookup.
  apply blind_complete_one. unfold thread_id. intros Heq.
  rewrite Heq, Hr in Hrow. congruence.
Qed.

(** A body of the loop that still holds the row of a completed thread goes
    on to the settlement: [complete_auction] hands back the stored row. *)
Lemma stale_row_settles env now w r0 stale :
  w_db w !! tid = Some r0 -> status r0 = completed ->
  last_bid_at stale + 86400 <= now ->
  complete_one env now (tid, stale) w = settle env now (tid, stale) w.
Proof.
  intros Hr Hst Hexp. unfold complete_one. cbv zeta.
  rewrite expired_clock. rewrite bool_decide_eq_true_2 by exact Hexp.
  unfold bind at 1, complete_auction, Db.complete_auction.
  cbn [thread_id fst snd]. rewrite Hr, Hst, Hr.
  now destruct w.
Qed.

End Frame.

(** C2, as the claim has it, fails: the second [complete_auction] on a thread
    returns the completed row, not [None]. *)
Lemma complete_twice_returns_row :
  (Db.complete_auction (Db.complete_auction db_demo 1).1 1).2
  = Some (Db.set_completed row_demo).
Proof. reflexivity. Qed.

(** C2, amended. The first [complete_auction] on an active row sets its
    status to completed and returns it; a second call changes nothing in the
    ledger and returns that same completed row; [None] is returned only for a
    thread without a row; the completed thread is no longer among the active
    auctions the sweep goes through.  That, and not the value returned, is
    what keeps the settlement from running twice: a turn of the completion
    loop on a ledger that holds the completed row ends as it does on the
    ledger without the row, with the same sheet, history and trace, and leaves
    the row as it is; whereas a body of the loop that still holds a row of the
    thread, once that row has expired, runs the settlement again. *)
Theorem complete_auction_idempotent (db : DB) (tid : Z) (r : Row)
    (Hrow : db !! tid = Some r) (Hact : status r = active) :
  let first := Db.complete_auction db tid in
  first = (<[tid := Db.set_completed r]> db, Some (Db.set_completed r)) /\
  Db.complete_auction first.1 tid = (first.1, Some (Db.set_completed r)) /\
  (forall r', (tid, r') ∉ Db.get_active_auctions_for_reminders first.1) /\
  (forall db0 t, (Db.complete_auction db0 t).2 = None <-> db0 !! t = None) /\
  (forall env clock w,
      w_db w !! tid = Some (Db.set_completed r) ->
      let turn := PerRow._check_auction_completions env clock in
      turn (without tid w) = (without tid (turn w).1, (turn w).2) /\
      w_db (turn w).1 !! tid = Some (Db.set_completed r)) /\
  (forall env now w stale,
      w_db w !! tid = Some (Db.set_completed r) ->
      last_bid_at stale + 86400 <= now ->
      complete_one env now (tid, stale) w = settle env now (tid, stale) w).
Proof.
  assert (Hfirst : Db.complete_auction db tid
                   = (<[tid := Db.set_completed r]> db, Some (Db.set_completed r))).
  { unfold Db.complete_auction. rewrite Hrow, Hact. now rewrite lookup_insert_eq. }
  intros first. subst first. rewrite Hfirst. cbn [fst snd].
  split; [reflexivity|]. split; [|split; [|split; [|split]]].
  - unfold Db.complete_auction. rewrite lookup_insert_eq. cbn [status Db.set_completed].
    now rewrite lookup_insert_eq.
  - intros r' Hin. unfold Db.get_active_auctions_for_reminders in Hin.
    rewrite merge_sort_Permutation in Hin.
    apply list_elem_of_filter in Hin as [Hactive Hin].
    apply elem_of_map_to_list in Hin. rewrite lookup_insert_eq in Hin.
    injection Hin as <-. discriminate Hactive.
  - intros db0 t. unfold Db.complete_auction. simpl.
    destruct (db0 !! t) as [r0|] eqn:H0; [|now rewrite H0].
    destruct (status r0); [rewrite lookup_insert_eq | rewrite H0];
      split; discriminate.
  - intros env clock w Hdone. cbv zeta. split.
    + exact (turn_frame tid env clock w _ Hdone eq_refl).
    + destruct (turn_touches env clock w tid) as [Hsame|Hexp].
      * now rewrite Hsame.
      * rewrite Hexp, Hdone. cbn. unfold complete_expired.
        now rewrite decide_False by (intros [H _]; discriminate H).
  - intros env now w stale Hdone Hexp.
    exact (stale_row_settles tid env now w _ stale Hdone eq_refl Hexp).
Qed.

Lemma complete_auction_idempotent_witness :
  Db.complete_auction (Db.complete_auction db_demo 1).1 1
  = ((Db.complete_auction db_demo 1).1, Some (Db.set_completed row_demo)).
Proof.
  exact (proj1 (proj2 (complete_auction_idempotent db_demo 1 row_demo eq_refl eq_refl))).
Defined.

(** Two turns of the completion loop in a row on the sample ledger, the row
    expired: the winner is debited in the first and not again in the second. *)
Example second_turn_settles_nothing :
  let turn := PerRow._check_auction_completions env_ok (fun _ => 86400) in
  deducts (w_trace (turn w_demo).1) = [(7, 100)] /\
  deducts (w_trace (turn (turn w_demo).1).1) = [(7, 100)].
Proof. split; vm_compute; reflexivity. Qed.

Lemma chat_http_only_ok : chat_http_only env_ok.
Proof. split; [exact http_only_ok | intros; discriminate]. Qed.

(** X13. A turn of either background loop ends normally whatever the chat
    platform and the spreadsheet answer: no exception leaves
    [_check_auction_completions] or [_check_expiry_reminders], so the
    [while] loops go on to their [sleep]. *)
Theorem sweeps_never_raise (env : Env) (now : Z) (w : World) :
  (_check_auction_completions env now w).2 = inl tt /\
  (_check_expiry_reminders env now w).2 = inl tt.
Proof.
  split.
  - rewrite completions_unfold. unfold except_any, catch.
    destruct (for_each _ _ w) as [w1 [[]|[e|]]] eqn:Hrun; [reflexivity..|].
    now apply for_each_no_continue in Hrun.
  - rewrite sweep_unfold. unfold except_any, catch.
    destruct (for_each _ _ w) as [w1 [[]|[e|]]] eqn:Hrun; [reflexivity..|].
    now apply for_each_no_continue in Hrun.
Qed.

(** X14. Whatever the outside world answers, a completion sweep adds and
    removes no row, and a row it changes was active with its last bid at
    least 24 hours old, and has changed in its status only. *)
Theorem completion_sweep_touches (env : Env) (now : Z) (w : World) (tid : Z) :
  let db' := w_db (_check_auction_completions env now w).1 in
  match w_db w !! tid with
  | None => db' !! tid = None
  | Some r =>
      db' !! tid = Some r \/
      (status r = active /\ last_bid_at r + 86400 <= now /\
       db' !! tid = Some (Db.set_completed r))
  end.
Proof.
  cbv zeta. pose proof (completions_touch env now w tid) as H.
  destruct (w_db w !! tid) as [r|] eqn:Hr; cbn in H; [|now destruct H].
  destruct H as [H|H]; [now left|].
  unfold complete_expired in H.
  destruct (decide (status r = active /\ last_bid_at r + 86400 <= now))
    as [[Hact Hexp]|_]; [right; now repeat split | now left].
Qed.

(** X15. When the chat platform fails with [discord.HTTPException] or not at
    all, a completion sweep completes every active row whose last bid is at
    least 24 hours old at the clock reading of its own check, and leaves
    every other row as it is, whatever the spreadsheet does. *)
Theorem completion_sweep_completes_all (env : Env) (clock : Z -> Z) (w : World)
    (Hchat : chat_http_only env) :
  forall tid,
    w_db (PerRow._check_auction_completions env clock w).1 !! tid
    = complete_expired (clock tid) <$> w_db w !! tid.
Proof.
  intros k. rewrite turn_unfold. unfold except_any, catch.
  pose proof (for_each_completes env clock
                (Db.get_active_auctions_for_reminders (w_db w)) w Hchat) as Hdb.
  destruct (for_each _ _ w) as [w1 [u|[e|]]] eqn:Hrun; cbn [fst] in *.
  2: { exfalso. revert Hrun. apply safe_for_each. intros b _.
       now apply complete_one_safe. }
  all: rewrite Hdb;
    destruct (w_db w !! k) as [r|] eqn:Hr; cbn;
    [ unfold complete_expired;
      destruct (decide (status r = active /\ last_bid_at r + 86400 <= clock k))
        as [[Hact Hexp]|Hn];
      [ apply (completed_in_hits clock _ (w_db w) (k, r) r);
        [apply active_lookup; now split | exact Hexp | exact Hr | exact Hact]
      | rewrite completed_in_keeps; [exact Hr|];
        apply Forall_forall; intros a [Hrow Hact]%active_lookup;
        destruct (decide (thread_id a = k)) as [<-|Hne]; [|now left];
        right; intros Hexp; apply Hn; unfold thread_id in Hr;
        rewrite Hrow in Hr; injection Hr as <-; now split ]
    | rewrite completed_in_keeps; [exact Hr|];
      apply Forall_forall; intros a [Hrow Hact]%active_lookup; left;
      intros <-; unfold thread_id in Hr; congruence ].
Qed.

(** Thread 1 of [db_demo] had its last bid at second 0: a turn whose clock
    reads 86400 at its row completes it. *)
Lemma completion_sweep_completes_all_witness :
  w_db (PerRow._check_auction_completions env_ok (fun _ => 86400) w_demo).1 !! 1
  = complete_expired 86400 <$> w_db w_demo !! 1.
Proof.
  apply (completion_sweep_completes_all env_ok (fun _ => 86400) w_demo).
  split; [exact http_only_ok | intros; discriminate].
Defined.

(** X16. An accepted [/bid] at second [t] keeps the auction open for a day
    against every completion sweep that reads the row the bid wrote: the row
    is active, with the bidder leading at the amount and [last_bid_at = t],
    and a sweep whose clock reading at the row is before [t + 86400] leaves
    it so.  The sweep works on the rows as it read them: a loop body that
    holds the row as it was read before the bid, expired by then, completes
    the row all the same, fresh bid or not. *)
Theorem accepted_bid_has_a_day (chan : option string) (t : Z)
    (oracle : res Sheet) (db db' : DB) (i : Interaction) (amount : Z) (r' : Row)
    (Hok : Cog.bid_command chan t oracle db i amount = (db', NewBid r')) :
  exists tid,
    i_channel i = Some tid /\ db' !! tid = Some r' /\
    status r' = active /\ current_bidder_id r' = Some (i_user i) /\
    current_bid r' = amount /\ last_bid_at r' = t /\
    (forall env clock w,
        w_db w !! tid = Some r' -> clock tid < t + 86400 ->
        w_db (PerRow._check_auction_completions env clock w).1 !! tid
        = Some r') /\
    (forall env now w stale,
        w_db w !! tid = Some r' ->
        last_bid_at stale + 86400 <= now ->
        w_db (complete_one env now (tid, stale) w).1 !! tid
        = Some (Db.set_completed r')).
Proof.
  destruct (bid_command_inv _ _ _ _ _ _ _ _ Hok)
    as [[_ Hrej]|(tid & r & rows & balance & Hc & Hr & Hact & _ & _ & _ & _
                  & _ & _ & Hdb & Hresp)]; [contradiction|].
  injection Hresp as ->. exists tid.
  split; [exact Hc|]. split; [rewrite Hdb; apply lookup_insert_eq|].
  do 4 (split; [reflexivity || exact Hact|]).
  split.
  - intros env clock w Hrow Hnow.
    destruct (turn_touches env clock w tid) as [H|H];
      rewrite H, Hrow; [reflexivity|].
    cbn. unfold complete_expired.
    rewrite decide_False; [reflexivity|]. cbn [Db.set_bid last_bid_at]. lia.
  - intros env now w stale Hrow Hexp.
    rewrite complete_one_db. cbn [snd thread_id fst].
    rewrite bool_decide_eq_true_2 by exact Hexp.
    rewrite (complete_auction_lookup _ _ _ Hrow).
    cbn [Db.set_bid status]. now rewrite Hact.
Qed.

(** User 8 bids 150 on thread 1 at second 5.  A sweep that reads the ledger
    afterwards, with the clock at 86400, leaves the auction active; the loop
    body holding the row as read before the bid completes it. *)
Lemma accepted_bid_has_a_day_witness :
  let sheet := [mkBalanceRow (Some 8) "B" (Some 1000)] in
  let out := Cog.bid_command None 5 (Ok sheet) db_demo
               (mkInteraction (Some 100) (Some 1) 8 "B") 150 in
  status <$> w_db (PerRow._check_auction_completions env_ok (fun _ => 86400)
                     (with_db w_demo out.1)).1 !! 1 = Some active /\
  status <$> w_db (complete_one env_ok 86400 (1, row_demo)
                     (with_db w_demo out.1)).1 !! 1 = Some completed.
Proof.
  cbv zeta.
  destruct (accepted_bid_has_a_day None 5
              (Ok [mkBalanceRow (Some 8) "B" (Some 1000)]) db_demo _
              (mkInteraction (Some 100) (Some 1) 8 "B") 150 _ eq_refl)
    as (tid & Hc & Hrow & Hact & _ & _ & _ & Hfresh & Hstale).
  cbn in Hc. injection Hc as <-.
  split.
  - pose proof (Hfresh env_ok (fun _ => 86400) (with_db w_demo _)
                  Hrow ltac:(lia)) as Hkept.
    refine (eq_trans (f_equal (fmap status) Hkept) _). exact (f_equal Some Hact).
  - pose proof (Hstale env_ok 86400 (with_db w_demo _) row_demo
                  Hrow ltac:(cbn; lia)) as Hdone.
    exact (f_equal (fmap status) Hdone).
Defined.

(** * What a settlement does to the sheet *)

Section Effects.

Variables (env : Env) (now : Z).

Implicit Types (w : World) (a : Auction) (r : Row).

(** A block that keeps [P] up to its last step, which brings about [Q]. *)
Lemma bind_effect {A B} (P Q : World -> Prop) (m : M A) (k : A -> M B) :
  preserves P m ->
  (forall w1, P w1 -> Q w1) ->
  (forall v w1 w2 y, P w1 -> k v w1 = (w2, y) -> Q w2) ->
  forall w w' x, P w -> bind m k w = (w', x) -> Q w'.
Proof.
  intros Hm HPQ Hk w w' x HP. unfold bind.
  destruct (m w) as [w1 [v|ab]] eqn:Hmw.
  - intros Hrun. exact (Hk v w1 w' x (Hm _ _ _ Hmw HP) Hrun).
  - intros [= <- _]. apply HPQ. exact (Hm _ _ _ Hmw HP).
Qed.

Ltac keeps :=
  lazymatch goal with
  | |- preserves _ (bind _ _) => apply preserves_bind; [keeps | intros ?; keeps]
  | |- preserves _ (except_http _ _) => apply preserves_except_http; keeps
  | |- preserves _ (except_any _ _) => apply preserves_except_any; keeps
  | |- preserves _ pass => apply preserves_ret
  | |- preserves _ (log _) => apply preserves_log
  | |- preserves _ (call _ _) => apply preserves_call
  | |- preserves _ (resolve _ _) => apply resolve_preserves
  | |- preserves _ (send _ _ _) => unfold send; keeps
  | |- _ => idtac
  end.

Lemma quiet_settled r w w1 : quiet w w1 -> settled r w w1.
Proof. intros (Hdb & Hs & _ & Hd). split; [exact Hdb|]. left. now split. Qed.

Lemma settled_after_quiet r w w1 w2 :
  quiet w w1 -> settled r w1 w2 -> settled r w w2.
Proof.
  intros (Hdb & Hs & _ & Hd) [Hdb2 H]. split; [congruence|].
  destruct H as [[Hs2 Hd2]|(uid & Hu & Hd2 & Hs2)].
  - left. split; congruence.
  - right. exists uid. split; [exact Hu|]. split; [congruence|].
    rewrite <- Hs. exact Hs2.
Qed.

(** The block under [# Update Google Sheets]. *)
Lemma update_sheets_settles r w w' x :
  update_sheets env now r w = (w', x) -> settled r w w'.
Proof.
  unfold update_sheets, except_any, except_http, catch, append_completed_auction,
    deduct_pom, send, call, bind.
  destruct (e_append env) as [[]|e0]; cbn;
    [|intros [= <- _]; split; [reflexivity | left; now split]].
  destruct (truthy_id (current_bidder_id r)) as [uid|] eqn:Hu; cbn;
    [|intros [= <- _]; split; [reflexivity | left; now split]].
  destruct (e_deduct env) as [[]|e1]; cbn;
    [|intros [= <- _]; split; [reflexivity|]; right; exists uid;
      split; [exact Hu|]; split; [reflexivity | now left]].
  destruct (Sheets.deduct_pom_sync (w_sheet w) uid (current_bid r))
    as [s' [|]] eqn:Hd; cbn;
    [intros [= <- _]; split; [reflexivity|]; right; exists uid;
     split; [exact Hu|]; split; [reflexivity | right; now rewrite Hd]|].
  destruct (e_send env _ _) as [[]|[|]]; cbn;
    intros [= <- _]; (split; [reflexivity|]); right; exists uid;
    (split; [exact Hu|]); (split; [reflexivity | right; now rewrite Hd]).
Qed.

Lemma settle_tail_keeps r w0 l :
  preserves (settled r w0) (refresh_pinned env r ;; log l).
Proof. unfold refresh_pinned. keeps; intros; assumption. Qed.

Lemma settle_settles a w0 : forall w w' x,
  quiet w0 w -> settle env now a w = (w', x) -> settled a.2 w0 w'.
Proof.
  unfold settle. cbv zeta.
  apply (bind_effect (quiet w0) (settled a.2 w0));
    [keeps; intros; assumption | apply quiet_settled |].
  intros thread w1 w2 y HP1.
  destruct (negb (ch_is_thread thread));
    [intros [= <- _]; now apply quiet_settled|].
  revert w1 w2 y HP1.
  apply (bind_effect (quiet w0) (settled a.2 w0));
    [keeps; intros; assumption | apply quiet_settled |].
  intros _.
  apply (bind_effect (quiet w0) (settled a.2 w0));
    [keeps; intros; assumption | apply quiet_settled |].
  intros _.
  apply (bind_effect (quiet w0) (settled a.2 w0));
    [keeps; intros; assumption | apply quiet_settled |].
  intros _.
  apply (bind_effect (quiet w0) (settled a.2 w0));
    [keeps; intros; assumption | apply quiet_settled |].
  intros _ w5 w' x HP5. unfold bind at 1.
  destruct (update_sheets env now a.2 w5) as [w6 [u|ab]] eqn:Hus.
  - apply update_sheets_settles in Hus.
    intros Hrun. refine (settle_tail_keeps a.2 w0 _ _ _ _ Hrun _).
    exact (settled_after_quiet _ _ _ _ HP5 Hus).
  - apply update_sheets_settles in Hus. intros [= <- _].
    exact (settled_after_quiet _ _ _ _ HP5 Hus).
Qed.

(** The body of the completion loop: nothing before the expiry; at or after
    it the [UPDATE], and then what a settlement does. *)
Lemma complete_one_settles a w w' x :
  complete_one env now a w = (w', x) ->
  (~ last_bid_at a.2 + 86400 <= now /\ w' = w) \/
  (last_bid_at a.2 + 86400 <= now /\
   settled a.2 (with_db w (Db.complete_auction (w_db w) (thread_id a)).1) w').
Proof.
  unfold complete_one. cbv zeta. rewrite expired_clock.
  case_bool_decide as Hexp; [|intros [= <- _]; now left].
  unfold bind at 1, complete_auction.
  destruct (Db.complete_auction (w_db w) (thread_id a)) as [db' c].
  cbn [fst]. intros Hrun. right. split; [exact Hexp|].
  destruct c as [r|].
  - exact (settle_settles a _ _ _ _ (quiet_refl _) Hrun).
  - injection Hrun as <- _. apply quiet_settled, quiet_refl.
Qed.

End Effects.

Section PerRowDebits.

Variables (env : Env) (clock : Z -> Z).

Implicit Types (w : World) (a : Auction).

(** The debits of a loop over [l], latest first, are debits due for rows of
    [l], in the order of [l], each at most once. *)
Lemma for_each_debits l : forall w w' x,
  for_each l (fun a => complete_one env (clock (thread_id a)) a) w = (w', x) ->
  exists new,
    deducts (w_trace w') = new ++ deducts (w_trace w) /\
    reverse new `sublist_of` omap (fun a => debit_due (clock (thread_id a)) a) l.
Proof.
  induction l as [|a l IH]; intros w w' x.
  { intros [= <- _]. exists []. split; [reflexivity | constructor]. }
  cbn [for_each].
  destruct (complete_one env (clock (thread_id a)) a w) as [w1 [u|[e|]]] eqn:Hb.
  all: assert (Hone : exists d,
         deducts (w_trace w1) = d ++ deducts (w_trace w) /\
         d `sublist_of` from_option (fun p => [p]) [] (debit_due (clock (thread_id a)) a)).
  all: try (apply complete_one_settles in Hb as [[_ ->]|[Hexp [_ Hs]]];
            [ exists []; split; [reflexivity | apply sublist_nil_l]
            | destruct Hs as [[_ Hd]|(uid & Hu & Hd & _)];
              [ exists []; split; [exact Hd | apply sublist_nil_l]
              | exists [(uid, current_bid a.2)]; split; [exact Hd|];
                unfold debit_due; rewrite decide_True by exact Hexp;
                rewrite Hu; reflexivity ] ]).
  all: destruct Hone as (d & Hd & Hsub).
  all: assert (Hcons : forall rest,
         rest `sublist_of` omap (fun a => debit_due (clock (thread_id a)) a) l ->
         d ++ rest `sublist_of` omap (fun a => debit_due (clock (thread_id a)) a) (a :: l)).
  all: try (intros rest Hrest; cbn [omap list_omap];
            destruct (debit_due (clock (thread_id a)) a) as [p|]; cbn in Hsub;
            [ change (p :: omap (fun a => debit_due (clock (thread_id a)) a) l)
                with ([p] ++ omap (fun a => debit_due (clock (thread_id a)) a) l);
              now apply sublist_app
            | apply sublist_nil_r in Hsub; subst d; exact Hrest ]).
  - intros Hrun. destruct (IH _ _ _ Hrun) as (new & Hnew & Hsubl).
    exists (new ++ d). split; [rewrite Hnew, Hd; now rewrite app_assoc|].
    rewrite reverse_app.
    assert (Hrev : reverse d = d).
    { destruct (debit_due (clock (thread_id a)) a); cbn in Hsub.
      - apply sublist_length in Hsub. destruct d as [|? [|? ?]]; try reflexivity.
        cbn in Hsub. lia.
      - apply sublist_nil_r in Hsub. now subst d. }
    rewrite Hrev. now apply Hcons.
  - intros [= <- _]. exists d. split; [exact Hd|].
    assert (Hrev : reverse d = d).
    { destruct (debit_due (clock (thread_id a)) a); cbn in Hsub.
      - apply sublist_length in Hsub. destruct d as [|? [|? ?]]; try reflexivity.
        cbn in Hsub. lia.
      - apply sublist_nil_r in Hsub. now subst d. }
    rewrite Hrev. rewrite <- (app_nil_r d). apply Hcons, sublist_nil_l.
  - intros Hrun. destruct (IH _ _ _ Hrun) as (new & Hnew & Hsubl).
    exists (new ++ d). split; [rewrite Hnew, Hd; now rewrite app_assoc|].
    rewrite reverse_app.
    assert (Hrev : reverse d = d).
    { destruct (debit_due (clock (thread_id a)) a); cbn in Hsub.
      - apply sublist_length in Hsub. destruct d as [|? [|? ?]]; try reflexivity.
        cbn in Hsub. lia.
      - apply sublist_nil_r in Hsub. now subst d. }
    rewrite Hrev. now apply Hcons.
Qed.

End PerRowDebits.

(** X17. The debits one completion sweep requests are debits due: each is the
    [current_bid] of a row that was active when the sweep read the ledger and
    at least 24 hours past its last bid at the clock reading of its own
    check, from the user in its [current_bidder_id]; they come in the order
    in which the sweep read the rows, that of the thread ids, and no row is
    debited twice. *)
Theorem completion_sweep_debits (env : Env) (clock : Z -> Z) (w : World) :
  let w' := (PerRow._check_auction_completions env clock w).1 in
  exists new,
    deducts (w_trace w') = new ++ deducts (w_trace w) /\
    reverse new `sublist_of`
      omap (fun a => debit_due (clock (thread_id a)) a)
        (Db.get_active_auctions_for_reminders (w_db w)) /\
    StronglySorted Z.lt
      ((Db.get_active_auctions_for_reminders (w_db w)).*1).
Proof.
  cbv zeta. rewrite turn_unfold. unfold except_any, catch.
  pose proof (active_increasing (w_db w)) as Hsorted.
  destruct (for_each _ _ w) as [w1 [u|[e|]]] eqn:Hrun; cbn [fst].
  - destruct (for_each_debits env clock _ _ _ _ Hrun) as (new & Hnew & Hsub).
    exists new. now repeat split.
  - destruct (for_each_debits env clock _ _ _ _ Hrun) as (new & Hnew & Hsub).
    exists new. now repeat split.
  - destruct (for_each_debits env clock _ _ _ _ Hrun) as (new & Hnew & Hsub).
    exists new. now repeat split.
Qed.

(** * The budget invariant *)

Section Budget.

Implicit Types (db : DB) (w : World) (a : Auction) (r : Row) (rows : Sheet).

Lemma truthy_id_some o u : truthy_id o = Some u -> o = Some u.
Proof. destruct o as [[| |]|]; cbn; congruence. Qed.

(** The balances after [deduct_pom_sync]. *)
Lemma deduct_balance rows uid amount u :
  Sheets.get_pom_balance_sync (Sheets.deduct_pom_sync rows uid amount).1 u
  = (fun b => if decide (u = uid /\ amount <= b) then b - amount else b)
      <$> Sheets.get_pom_balance_sync rows u.
Proof.
  rewrite deduct_pom_sync_rows.
  induction rows as [|r rows IH]; [reflexivity|].
  cbn [Sheets.deduct_rows]. case_bool_decide as Hid.
  - destruct (Sheets.int_or_zero (row_balance r) <? amount) eqn:Hlt; cbn [fst].
    + apply Z.ltb_lt in Hlt. rewrite balance_cons.
      case_bool_decide as Hu; cbn.
      * rewrite decide_False by lia. reflexivity.
      * destruct (Sheets.get_pom_balance_sync rows u) as [b|]; cbn; [|reflexivity].
        rewrite decide_False by (intros [-> _]; congruence). reflexivity.
    + apply Z.ltb_ge in Hlt. rewrite !balance_cons. cbn [row_id row_balance].
      case_bool_decide as Hu; cbn.
      * rewrite decide_True by (split; [congruence | lia]). reflexivity.
      * destruct (Sheets.get_pom_balance_sync rows u) as [b|]; cbn; [|reflexivity].
        rewrite decide_False by (intros [-> _]; congruence). reflexivity.
  - destruct (Sheets.deduct_rows rows uid amount) as [rest ok] eqn:Hrec.
    cbn [fst] in *. rewrite !balance_cons.
    case_bool_decide as Hu; cbn; [|exact IH].
    rewrite decide_False by (intros [-> _]; congruence). reflexivity.
Qed.

Lemma share_nonneg db tid r u :
  bids_positive db -> db !! tid = Some r -> 0 <= share u tid r.
Proof.
  intros Hpos Hr. unfold share.
  destruct (decide _); [apply Hpos in Hr|]; lia.
Qed.

Lemma share_completed u tid r : share u tid (Db.set_completed r) = 0.
Proof.
  unfold share, Db.led_by. cbn [snd status Db.set_completed].
  now rewrite decide_False by (intros [[=] _]).
Qed.

Lemma share_led u tid (bid : Z) (who : option Z) (bname : option string)
    (cid gid c l : Z) (pname : string) :
  share u tid (mkRow cid gid pname bid who bname c l active)
  = if decide (who = Some u) then bid else 0.
Proof.
  unfold share, Db.led_by. cbn [snd status current_bidder_id current_bid].
  destruct (decide (who = Some u)) as [->|Hne].
  - now rewrite decide_True by (split; reflexivity).
  - now rewrite decide_False by (intros [_ Heq]; congruence).
Qed.

(** One body of the completion loop keeps the budgets, when the row it was
    handed is the one the ledger still has. *)
Lemma complete_one_budget env now a w w' x :
  w_db w !! thread_id a = Some a.2 -> status a.2 = active ->
  bids_positive (w_db w) -> within_budget (w_db w) (w_sheet w) ->
  complete_one env now a w = (w', x) ->
  bids_positive (w_db w') /\ within_budget (w_db w') (w_sheet w').
Proof.
  intros Hrow Hact Hpos Hbud Hrun.
  apply complete_one_settles in Hrun as [[_ ->]|[Hexp [Hdb Hs]]]; [now split|].
  cbn [w_db w_sheet w_trace with_db] in Hdb, Hs.
  assert (Hdb1 : (Db.complete_auction (w_db w) (thread_id a)).1
                 = <[thread_id a := Db.set_completed a.2]> (w_db w)).
  { unfold Db.complete_auction. cbn [fst]. now rewrite Hrow, Hact. }
  rewrite Hdb1 in Hdb.
  assert (Hcom : forall u,
    Db.get_committed_pom_for_user (w_db w') u
    = Db.get_committed_pom_for_user (w_db w) u - share u (thread_id a) a.2).
  { intros u. rewrite Hdb, (committed_replace _ _ _ _ _ Hrow), share_completed.
    lia. }
  split.
  - rewrite Hdb. intros tid r.
    destruct (decide (tid = thread_id a)) as [->|Hne].
    + rewrite lookup_insert_eq. intros [= <-]. exact (Hpos _ _ Hrow).
    + rewrite lookup_insert_ne by congruence. apply Hpos.
  - intros u b Hb. rewrite Hcom.
    pose proof (share_nonneg _ _ _ u Hpos Hrow) as Hsh.
    destruct Hs as [[Hs _]|(uid & Hu & _ & [Hs|Hs])]; rewrite Hs in Hb.
    + apply Hbud in Hb. lia.
    + apply Hbud in Hb. lia.
    + rewrite deduct_balance in Hb.
      destruct (Sheets.get_pom_balance_sync (w_sheet w) u) as [b0|] eqn:Hb0;
        [|discriminate].
      cbn in Hb. injection Hb as <-. pose proof (Hbud _ _ Hb0) as Hle.
      destruct (decide (u = uid /\ current_bid a.2 <= b0)) as [[-> _]|_]; [|lia].
      assert (Hmine : share uid (thread_id a) a.2 = current_bid a.2).
      { unfold share. rewrite decide_True; [reflexivity|].
        split; [exact Hact | now apply truthy_id_some]. }
      lia.
Qed.

Lemma for_each_budget env now l :
  NoDup l.*1 ->
  forall w,
    (forall a, a ∈ l -> w_db w !! thread_id a = Some a.2 /\ status a.2 = active) ->
    bids_positive (w_db w) -> within_budget (w_db w) (w_sheet w) ->
    forall w' x, for_each l (complete_one env now) w = (w', x) ->
    bids_positive (w_db w') /\ within_budget (w_db w') (w_sheet w').
Proof.
  induction l as [|a l IH]; intros Hnd w Hrows Hpos Hbud w' x.
  { intros [= <- _]. now split. }
  apply NoDup_cons in Hnd as [Hfresh Hnd]. cbn [for_each].
  destruct (Hrows a (list_elem_of_here _ _)) as [Hrow Hact].
  pose proof (complete_one_db env now a w) as Hdb.
  destruct (complete_one env now a w) as [w1 r1] eqn:Hb. cbn [fst] in Hdb.
  destruct (complete_one_budget env now a w w1 r1 Hrow Hact Hpos Hbud Hb)
    as [Hpos1 Hbud1].
  assert (Hrows1 : forall b, b ∈ l ->
            w_db w1 !! thread_id b = Some b.2 /\ status b.2 = active).
  { intros b Hbl. destruct (Hrows b (list_elem_of_further _ _ _ Hbl)) as [Hr Ha].
    split; [|exact Ha]. rewrite Hdb. case_bool_decide; [|exact Hr].
    rewrite complete_auction_other; [exact Hr|].
    intros Heq. apply Hfresh. unfold thread_id in Heq. rewrite <- Heq.
    now apply list_elem_of_fmap_2. }
  destruct r1 as [u|[e|]].
  - now apply IH.
  - intros [= <- _]. now split.
  - now apply IH.
Qed.

Lemma completions_budget env now w :
  bids_positive (w_db w) -> within_budget (w_db w) (w_sheet w) ->
  bids_positive (w_db (_check_auction_completions env now w).1) /\
  within_budget (w_db (_check_auction_completions env now w).1)
    (w_sheet (_check_auction_completions env now w).1).
Proof.
  intros Hpos Hbud. rewrite completions_unfold. unfold except_any, catch.
  assert (Hloop : forall w' x,
    for_each (Db.get_active_auctions_for_reminders (w_db w))
      (complete_one env now) w = (w', x) ->
    bids_positive (w_db w') /\ within_budget (w_db w') (w_sheet w')).
  { apply for_each_budget; [| |exact Hpos|exact Hbud].
    - unfold Db.get_active_auctions_for_reminders.
      rewrite merge_sort_Permutation.
      apply (sublist_NoDup _ _ (NoDup_fst_map_to_list (w_db w))).
      apply fmap_sublist, sublist_filter.
    - intros a Ha. now apply active_lookup. }
  destruct (for_each _ _ w) as [w1 [u|[e|]]]; cbn [fst];
    exact (Hloop _ _ eq_refl).
Qed.

Lemma reminders_quiet env now w :
  quiet w (_check_expiry_reminders env now w).1.
Proof.
  destruct (_check_expiry_reminders env now w) as [w' x] eqn:Hrun. cbn [fst].
  refine (sweep_preserves (quiet w) env now w w' x _ _ Hrun (quiet_refl w)).
  - split; [|split]; intros; assumption.
  - intros a h' _ w1 w2 y. rewrite remind_threshold_run.
    destruct (bool_decide _); [intros [= <- _] HQ; exact HQ|].
    destruct (in_window _ _); [|intros [= <- _] HQ; exact HQ].
    destruct (e_send _ _ _) as [[]|[|]]; intros [= <- _] HQ; exact HQ.
Qed.

Lemma bid_budget chan now err w i amount :
  bids_positive (w_db w) -> within_budget (w_db w) (w_sheet w) ->
  let db' := (Cog.bid_command chan now (read_sheet w err) (w_db w) i amount).1 in
  bids_positive db' /\ within_budget db' (w_sheet w).
Proof.
  intros Hpos Hbud. cbv zeta.
  destruct (Cog.bid_command chan now (read_sheet w err) (w_db w) i amount)
    as [db' resp] eqn:Hrun. cbn [fst].
  destruct (bid_command_inv _ _ _ _ _ _ _ _ Hrun)
    as [[-> _]|(tid & r & rows & balance & _ & Hr & Hact & _ & Hhigh & Hown
                & Hor & Hbal & Hle & -> & _)]; [now split|].
  assert (Hrows : rows = w_sheet w).
  { destruct err; cbn in Hor; congruence. }
  subst rows. pose proof (Hpos _ _ Hr) as Hbid. split.
  - intros k r0. destruct (decide (k = tid)) as [->|Hne].
    + rewrite lookup_insert_eq. intros [= <-]. cbn. lia.
    + rewrite lookup_insert_ne by congruence. apply Hpos.
  - intros u b Hb. rewrite (committed_replace _ _ _ _ _ Hr).
    unfold Db.set_bid. rewrite Hact, share_led.
    pose proof (share_nonneg _ _ _ u Hpos Hr) as Hsh.
    pose proof (Hbud _ _ Hb) as Hu.
    destruct (decide (Some (i_user i) = Some u)) as [[= <-]|_]; [|lia].
    assert (Hzero : share (i_user i) tid r = 0).
    { unfold share, Db.led_by. cbn [snd].
      now rewrite decide_False by (intros [_ Hl]; contradiction). }
    rewrite Hbal in Hb. injection Hb as <-. lia.
Qed.

Lemma start_budget chan now err in_thread thread w i pname bid :
  1 <= bid ->
  bids_positive (w_db w) -> within_budget (w_db w) (w_sheet w) ->
  let db' := (AuctionCog.start chan now (read_sheet w err) in_thread thread
                (w_db w) i pname bid).1 in
  bids_positive db' /\ within_budget db' (w_sheet w).
Proof.
  intros Hbid Hpos Hbud. cbv zeta.
  destruct (AuctionCog.start chan now (read_sheet w err) in_thread thread
              (w_db w) i pname bid) as [db' resp] eqn:Hrun. cbn [fst].
  destruct (start_inv _ _ _ _ _ _ _ _ _ _ _ Hrun)
    as [[-> _]|(gid & cid & tid & rows & balance & _ & _ & _ & _ & Hor & Hbal
                & Hle & _ & Hfree & -> & _)]; [now split|].
  assert (Hrows : rows = w_sheet w).
  { destruct err; cbn in Hor; congruence. }
  subst rows. split.
  - intros k r0. destruct (decide (k = tid)) as [->|Hne].
    + rewrite lookup_insert_eq. intros [= <-]. cbn. lia.
    + rewrite lookup_insert_ne by congruence. apply Hpos.
  - intros u b Hb. rewrite (committed_insert_fresh _ _ _ _ Hfree), share_led.
    pose proof (Hbud _ _ Hb) as Hu.
    destruct (decide (Some (i_user i) = Some u)) as [[= <-]|_]; [|lia].
    rewrite Hbal in Hb. injection Hb as <-. lia.
Qed.

End Budget.

(** X18. The budget invariant.  Over any sequence of [/bid] and
    [/auction start] requests with amounts in their declared range and turns
    of the two loops, each run to its end before the next and the sheet
    written by the bot alone: if every stored bid is positive and no listed
    user is committed beyond the balance, the same holds at the end.
    ([/auction register] is not among the requests: it checks no budget.) *)
Theorem budget_invariant (chan : option string) (reqs : list Request) (w : World)
    (Hrange : Forall in_range reqs)
    (Hpos : bids_positive (w_db w))
    (Hbud : within_budget (w_db w) (w_sheet w)) :
  let w' := foldl (serve chan) w reqs in
  bids_positive (w_db w') /\ within_budget (w_db w') (w_sheet w').
Proof.
  cbv zeta. revert w Hpos Hbud.
  induction Hrange as [|q reqs Hq _ IH]; intros w Hpos Hbud; [now split|].
  cbn [foldl].
  assert (Hstep : bids_positive (w_db (serve chan w q)) /\
                  within_budget (w_db (serve chan w q)) (w_sheet (serve chan w q))).
  { destruct q as [now err i amount|now err in_thread thread i pname bid
                   |now env|now env]; cbn [serve].
    - exact (bid_budget chan now err w i amount Hpos Hbud).
    - cbn in Hq.
      exact (start_budget chan now err in_thread thread w i pname bid
               (proj1 Hq) Hpos Hbud).
    - now apply completions_budget.
    - destruct (reminders_quiet env now w) as (Hdb & Hs & _).
      rewrite Hdb, Hs. now split. }
  destruct Hstep as [Hpos1 Hbud1]. now apply IH.
Qed.

(** User 7 has 500 and leads thread 1 with 100.  A bid of 150 by user 8, who
    is not in the sheet, is refused; user 7 starts a second auction at 40;
    the completion sweep at second 86400 settles thread 1. *)
Lemma budget_invariant_witness :
  let reqs := [ReqBid 5 None (mkInteraction (Some 100) (Some 1) 8 "B") 150;
               ReqStart 9 None false (Ok 2)
                 (mkInteraction (Some 100) (Some 10) 7 "A") "Other" 40;
               ReqCompletions 86400 env_ok] in
  let w' := foldl (serve None) w_demo reqs in
  within_budget (w_db w') (w_sheet w').
Proof.
  cbv zeta.
  refine (proj2 (budget_invariant None _ w_demo _ _ _)).
  - repeat constructor; cbn; lia.
  - intros tid r Hr. unfold w_demo, db_demo in Hr. cbn in Hr.
    apply lookup_singleton_Some in Hr as [_ <-]. cbn. lia.
  - intros u b Hb. cbn in Hb. case_bool_decide as Hu; [|discriminate].
    injection Hu as <-. injection Hb as <-. vm_compute. discriminate.
Defined.

(** X19. A turn of the reminder loop writes nothing: the ledger, the balance
    sheet and the history are as before and no debit is requested; a marker
    once set stays set. *)
Theorem reminder_sweep_writes_nothing (env : Env) (now : Z) (w : World) :
  let w' := (_check_expiry_reminders env now w).1 in
  w_db w' = w_db w /\ w_sheet w' = w_sheet w /\
  w_history w' = w_history w /\
  deducts (w_trace w') = deducts (w_trace w) /\
  forall key h, h ∈ sent_for key w -> h ∈ sent_for key w'.
Proof.
  cbv zeta. destruct (reminders_quiet env now w) as (Hdb & Hs & Hh & Hd).
  repeat (split; [assumption|]).
  intros [t l] h. apply sweep_marked.
Qed.

Section Paying.

Implicit Types (db : DB) (r : Row) (rows : Sheet).

Lemma committed_nonneg db u :
  bids_positive db -> 0 <= Db.get_committed_pom_for_user db u.
Proof.
  intros Hpos. unfold Db.get_committed_pom_for_user.
  assert (Hall : Forall (fun a : Auction => 0 < current_bid a.2) (map_to_list db)).
  { apply Forall_forall. intros [k r] Hin. apply elem_of_map_to_list in Hin.
    exact (Hpos _ _ Hin). }
  induction Hall as [|a l Ha _ IH]; [cbn; lia|].
  rewrite filter_cons. destruct (decide (Db.led_by u a)); [|exact IH].
  change (0 <= current_bid a.2 + Db.sum_bids (filter (Db.led_by u) l)). lia.
Qed.

Lemma bids_positive_delete db tid :
  bids_positive db -> bids_positive (delete tid db).
Proof.
  intros Hpos k r Hr. apply lookup_delete_Some in Hr as [_ Hr].
  exact (Hpos _ _ Hr).
Qed.

Lemma deduct_ok rows uid amount b :
  Sheets.get_pom_balance_sync rows uid = Some b ->
  (Sheets.deduct_pom_sync rows uid amount).2 = bool_decide (amount <= b).
Proof.
  rewrite deduct_pom_sync_rows.
  induction rows as [|r rows IH]; [discriminate|].
  rewrite balance_cons. cbn [Sheets.deduct_rows].
  destruct (bool_decide (row_id r = Some uid)).
  - intros [= Hb]. clear IH. subst b.
    destruct (Sheets.int_or_zero (row_balance r) <? amount) eqn:Hlt; cbn [snd].
    + apply Z.ltb_lt in Hlt. now rewrite bool_decide_eq_false_2 by lia.
    + apply Z.ltb_ge in Hlt. now rewrite bool_decide_eq_true_2 by lia.
  - intros Hb. destruct (Sheets.deduct_rows rows uid amount) as [rest ok].
    cbn [snd] in *. now apply IH.
Qed.

End Paying.

(** X20. Under the budget invariant a winner can pay: for an active row led
    by a user the sheet lists, the balance covers the bid, and
    [deduct_pom_sync] of the bid from that user returns [True]. *)
Theorem winner_can_pay (db : DB) (sheet : Sheet) (tid : Z) (r : Row)
    (uid b : Z)
    (Hpos : bids_positive db) (Hbud : within_budget db sheet)
    (Hrow : db !! tid = Some r) (Hact : status r = active)
    (Hled : current_bidder_id r = Some uid)
    (Hlisted : Sheets.get_pom_balance_sync sheet uid = Some b) :
  current_bid r <= b /\
  (Sheets.deduct_pom_sync sheet uid (current_bid r)).2 = true /\
  Sheets.get_pom_balance_sync
    (Sheets.deduct_pom_sync sheet uid (current_bid r)).1 uid
  = Some (b - current_bid r).
Proof.
  assert (Hle : current_bid r <= b).
  { pose proof (Hbud _ _ Hlisted) as Hc.
    rewrite (committed_split _ _ _ uid Hrow) in Hc.
    pose proof (committed_nonneg _ uid (bids_positive_delete _ tid Hpos)) as Hrest.
    assert (Hmine : share uid tid r = current_bid r).
    { unfold share. now rewrite decide_True by (split; assumption). }
    lia. }
  split; [exact Hle|]. split.
  - rewrite (deduct_ok _ _ _ _ Hlisted). now apply bool_decide_eq_true_2.
  - rewrite deduct_balance, Hlisted. cbn.
    now rewrite decide_True by (split; [reflexivity | exact Hle]).
Qed.

Lemma winner_can_pay_witness :
  (Sheets.deduct_pom_sync sheet_demo 7 100).2 = true.
Proof.
  refine (proj1 (proj2 (winner_can_pay db_demo sheet_demo 1 row_demo 7 500
                          _ _ eq_refl eq_refl eq_refl eq_refl))).
  - intros tid r Hr. unfold db_demo in Hr.
    apply lookup_singleton_Some in Hr as [_ <-]. cbn. lia.
  - intros u b Hb. cbn in Hb. case_bool_decide as Hu; [|discriminate].
    injection Hu as <-. injection Hb as <-. vm_compute. discriminate.
Defined.

(** X21. [/auction register] checks no budget: used in a thread that has no
    row yet (the channel variable unset), it registers the auction whatever
    the sheet says, and the commitment of the user named as high bidder grows
    by the bid, beyond the balance if the bid is large enough. *)
Theorem register_ignores_budget (now : Z) (parent : option Z) (db : DB)
    (i : Interaction) (pname : string) (bid bidder : Z) (bname : string)
    (offset gid tid : Z) (sheet : Sheet) (b : Z)
    (Hg : i_guild i = Some gid) (Hc : i_channel i = Some tid)
    (Hfree : db !! tid = None)
    (Hlisted : Sheets.get_pom_balance_sync sheet bidder = Some b)
    (Hover : b < Db.get_committed_pom_for_user db bidder + bid) :
  let out := AuctionCog.register None now true parent db i pname bid bidder
               bname offset in
  (exists a, out.2 = Registered a /\ out.1 !! tid = Some a /\
             status a = active /\ current_bid a = bid /\
             current_bidder_id a = Some bidder /\
             last_bid_at a = now + offset) /\
  Db.get_committed_pom_for_user out.1 bidder
  = Db.get_committed_pom_for_user db bidder + bid /\
  ~ within_budget out.1 sheet.
Proof.
  cbv zeta. unfold AuctionCog.register, Db.get_auction_by_thread.
  rewrite Hg, Hc, Hfree. cbn [negb].
  unfold Db.register_existing_auction, Db.insert_row, Db.get_auction_by_thread.
  rewrite Hfree, lookup_insert_eq. cbn [fst snd].
  assert (Hcom : Db.get_committed_pom_for_user
                   (<[tid := mkRow (default tid (truthy_id parent)) gid pname bid
                               (Some bidder) (Some bname) (now + offset)
                               (now + offset) active]> db) bidder
                 = Db.get_committed_pom_for_user db bidder + bid).
  { rewrite (committed_insert_fresh _ _ _ _ Hfree), share_led.
    rewrite decide_True by reflexivity. lia. }
  split; [|split; [exact Hcom|]].
  - eexists. split; [reflexivity|]. split; [apply lookup_insert_eq|].
    now repeat split.
  - intros Hbud. apply Hbud in Hlisted. rewrite Hcom in Hlisted. lia.
Qed.

(** User 7 has 500 and leads thread 1 with 100; registering thread 2 with a
    bid of 450 for user 7 goes through. *)
Lemma register_ignores_budget_witness :
  Db.get_committed_pom_for_user
    (AuctionCog.register None 9 true (Some 10) db_demo
       (mkInteraction (Some 100) (Some 2) 3 "Admin") "Other" 450 7 "A" (-3600)).1 7
  = 100 + 450.
Proof.
  refine (proj1 (proj2 (register_ignores_budget 9 (Some 10) db_demo
                          (mkInteraction (Some 100) (Some 2) 3 "Admin") "Other"
                          450 7 "A" (-3600) 100 2 sheet_demo 500
                          eq_refl eq_refl eq_refl eq_refl _))).
  vm_compute. reflexivity.
Defined.

(** * Properties of the auction embed *)

Section EmbedFacts.

Lemma hours_ge (k s : Z) :
  Qle_bool (inject_Z k) (inject_Z s / inject_Z 3600) = true <-> 3600 * k <= s.
Proof.
  rewrite Qle_bool_iff. unfold Qle, Qdiv, Qmult, Qinv, inject_Z.
  cbn -[Z.mul Z.add]. lia.
Qed.

Lemma color_seconds (s : Z) :
  Embeds._embed_color_for_time_left s
  = if bool_decide (43200 <= s) then green
    else if bool_decide (10800 <= s) then gold else red.
Proof.
  unfold Embeds._embed_color_for_time_left. cbv zeta.
  destruct (Qle_bool (inject_Z 12) _) eqn:H12.
  - apply hours_ge in H12. now rewrite bool_decide_eq_true_2 by lia.
  - apply not_true_iff_false in H12. rewrite hours_ge in H12.
    rewrite bool_decide_eq_false_2 by lia.
    destruct (Qle_bool (inject_Z 3) _) eqn:H3.
    + apply hours_ge in H3. now rewrite bool_decide_eq_true_2 by lia.
    + apply not_true_iff_false in H3. rewrite hours_ge in H3.
      now rewrite bool_decide_eq_false_2 by lia.
Qed.

Lemma time_left_shown_aux (now l : Z) :
  (Embeds._format_time_left (Cog._seconds_until_expiry now l) = Expired
   <-> l + 86400 <= now) /\
  (Cog._seconds_until_expiry now l <= 0 <-> l + 86400 <= now).
Proof.
  unfold Embeds._format_time_left, Cog._seconds_until_expiry,
    Cog.BID_EXPIRY_HOURS. cbv zeta.
  destruct (_ <=? 0) eqn:Hz; [apply Z.leb_le in Hz | apply Z.leb_gt in Hz].
  - split; [split; [lia | reflexivity] | lia].
  - split; [|lia]. destruct (0 <? _); (split; [discriminate | lia]).
Qed.

End EmbedFacts.

(** X22. [_format_time_left] shows the time left rounded down to the whole
    minute: ["Expired"] exactly for no seconds left; hours and minutes from
    one hour on; minutes alone below an hour, the last minute showing as
    ["0m"]. *)
Theorem time_left_rounds_down (seconds : Z) :
  (Embeds._format_time_left seconds = Expired <-> seconds <= 0) /\
  (forall h m, Embeds._format_time_left seconds = HoursMinutes h m <->
               1 <= h /\ 0 <= m < 60 /\
               3600 * h + 60 * m <= seconds < 3600 * h + 60 * m + 60) /\
  (forall m, Embeds._format_time_left seconds = Minutes m <->
             0 < seconds /\ 0 <= m < 60 /\ 60 * m <= seconds < 60 * m + 60).
Proof.
  unfold Embeds._format_time_left. cbv zeta.
  destruct (seconds <=? 0) eqn:Hz.
  - apply Z.leb_le in Hz.
    split; [tauto|]. split; [intros h m|intros m]; (split; [discriminate | lia]).
  - apply Z.leb_gt in Hz.
    destruct (0 <? seconds / 3600) eqn:Hh;
      [apply Z.ltb_lt in Hh | apply Z.ltb_ge in Hh].
    + split; [split; [discriminate | lia]|].
      split; [intros h m | intros m].
      * split.
        -- intros [= <- <-]. Z.div_mod_to_equations. lia.
        -- intros (H1 & Hm & Hs). f_equal; Z.div_mod_to_equations; lia.
      * split; [discriminate|]. intros (_ & Hm & Hs).
        Z.div_mod_to_equations. lia.
    + split; [split; [discriminate | lia]|].
      split; [intros h m | intros m].
      * split; [discriminate|]. intros (H1 & Hm & Hs).
        Z.div_mod_to_equations. lia.
      * split.
        -- intros [= <-]. Z.div_mod_to_equations. lia.
        -- intros (_ & Hm & Hs). f_equal. Z.div_mod_to_equations. lia.
Qed.

(** X23. The embed of an auction agrees with the two loops.  It shows
    ["Expired"] exactly from the second at which the completion sweep
    completes the auction; it is green up to 12 hours after the last bid,
    gold up to 21 hours after it and red from then on; while the six-hour
    reminder is due it is gold, while the one-hour reminder is due it is
    red. *)
Theorem embed_agrees_with_sweeps (now : Z) (auction : Row) (title : string) :
  let e := Embeds._auction_embed now auction title in
  let l := last_bid_at auction in
  (em_time_left e = Expired <-> l + 86400 <= now) /\
  (em_time_left e = Expired <->
   Cog._seconds_until_expiry now l <= 0) /\
  (em_color e = green <-> now <= l + 43200) /\
  (em_color e = gold <-> l + 43200 < now <= l + 75600) /\
  (em_color e = red <-> l + 75600 < now) /\
  (in_window 6 (hours_left now l) = true -> em_color e = gold) /\
  (in_window 1 (hours_left now l) = true -> em_color e = red).
Proof.
  cbv zeta. unfold Embeds._auction_embed. cbn [em_time_left em_color].
  rewrite color_seconds.
  destruct (time_left_shown_aux now (last_bid_at auction)) as [Hexp Hsec].
  rewrite Hexp.
  rewrite !(window_clock now _ _) by lia.
  unfold window_opens, Cog.BID_EXPIRY_HOURS.
  unfold Cog._seconds_until_expiry, Cog.BID_EXPIRY_HOURS in *. cbv zeta in *.
  repeat case_bool_decide; repeat split; intros; try discriminate; try lia;
    try reflexivity.
Qed.

(** * Properties of the pinned list message *)

Section PinnedFacts.

Variables (env : PinEnv) (cid : Z) (expected : string).

Implicit Types (cache : gmap Z Z) (pins : list PinnedMsg).

Lemma tidy_raised cache e (acts : list PinAction) :
  tidy cid cache (cache, Fails e, acts).
Proof. split; [|split]; cbn; [discriminate | discriminate | reflexivity]. Qed.

Lemma create_new_tidy cache : tidy cid cache (Pinned.create_new env cid cache).
Proof.
  unfold Pinned.create_new.
  destruct (pe_send env) as [id|e]; [|apply tidy_raised].
  destruct (pe_pin env id) as [[]|e]; [|apply tidy_raised].
  split; [|split]; cbn;
    [discriminate | | intros k Hk; now apply lookup_insert_ne].
  intros _. exists id. split; [apply lookup_insert_eq | now right].
Qed.

Lemma from_pins_tidy cache :
  tidy cid cache (Pinned.from_pins env cid expected cache).
Proof.
  unfold Pinned.from_pins.
  destruct (pe_pins env) as [pins|e].
  - destruct (Pinned.search_pins env expected pins) as [[id|e]|].
    + split; [|split]; cbn;
        [discriminate | | intros k Hk; now apply lookup_insert_ne].
      intros _. exists id. split; [apply lookup_insert_eq | now left].
    + destruct (is_discord e); [apply create_new_tidy | apply tidy_raised].
    + apply create_new_tidy.
  - destruct (is_discord e); [apply create_new_tidy | apply tidy_raised].
Qed.

Lemma tidy_after_pop cache out :
  tidy cid (delete cid cache) out -> tidy cid cache out.
Proof.
  intros (H1 & H2 & H3). split; [exact H1|]. split; [exact H2|].
  intros k Hk. rewrite (H3 k Hk). now apply lookup_delete_ne.
Qed.

(** The loop over the pins stops at the first message of the bot that has
    the expected title. *)
Lemma search_first pins :
  Pinned.search_pins env expected pins
  = (fun msg => match pe_edit env (pm_id msg) with
                | Fine _ => Fine (pm_id msg)
                | Fails e => Fails e
                end) <$> first_own_pin expected pins.
Proof.
  unfold first_own_pin.
  induction pins as [|msg pins IH]; [reflexivity|].
  cbn [Pinned.search_pins]. rewrite filter_cons.
  destruct (pm_by_bot msg) eqn:Hbot; cbn [negb].
  - case_bool_decide as Ht.
    + rewrite decide_True by now split. cbn.
      now destruct (pe_edit env (pm_id msg)).
    + rewrite decide_False by (intros [_ H]; contradiction). exact IH.
  - rewrite decide_False by (intros [H _]; discriminate). exact IH.
Qed.

End PinnedFacts.

(** X24. [_update_pinned_message] on a thread does nothing and returns
    [False].  On any other channel it never returns [False]; when it returns
    [True], exactly one message has received the embed, by one edit or by one
    send and pin, and the cache entry of the channel is the id of that
    message.  The cache entries of other channels are never touched. *)
Theorem pinned_cache_points_at_message (env : PinEnv) (is_thread : bool)
    (cid : Z) (expected : string) (cache : gmap Z Z) :
  let out := Pinned._update_pinned_message env is_thread cid expected cache in
  (is_thread = true -> out = (cache, Fine false, [])) /\
  (is_thread = false -> out.1.2 <> Fine false) /\
  (out.1.2 = Fine true ->
   exists id, out.1.1 !! cid = Some id /\
              (out.2 = [Edited id] \/ out.2 = [Sent id; Pinned id])) /\
  (forall k, k <> cid -> out.1.1 !! k = cache !! k).
Proof.
  cbv zeta. unfold Pinned._update_pinned_message.
  destruct is_thread.
  { split; [reflexivity|]. split; [discriminate|]. split; [discriminate|].
    reflexivity. }
  split; [discriminate|].
  assert (Ht : tidy cid cache
                 match cache !! cid with
                 | None => Pinned.from_pins env cid expected cache
                 | Some msg_id =>
                     match pe_fetch_message env msg_id with
                     | Fails NotFound =>
                         Pinned.from_pins env cid expected (delete cid cache)
                     | Fails e => (cache, Fails e, [])
                     | Fine _ =>
                         match pe_edit env msg_id with
                         | Fine _ => (cache, Fine true, [Edited msg_id])
                         | Fails NotFound =>
                             Pinned.from_pins env cid expected (delete cid cache)
                         | Fails e => (cache, Fails e, [])
                         end
                     end
                 end).
  { destruct (cache !! cid) as [msg_id|] eqn:Hc; [|apply from_pins_tidy].
    destruct (pe_fetch_message env msg_id) as [[]|[| | |]];
      try apply tidy_raised; [|apply tidy_after_pop, from_pins_tidy].
    destruct (pe_edit env msg_id) as [[]|[| | |]];
      try apply tidy_raised; [|apply tidy_after_pop, from_pins_tidy].
    split; [|split]; cbn; [discriminate | | reflexivity].
    intros _. exists msg_id. split; [exact Hc | now left]. }
  destruct Ht as (H1 & H2 & H3). split; [intros _; exact H1|].
  split; [exact H2 | exact H3].
Qed.

(** X25. No second pinned message: when the pins of the channel can be read
    and hold a message of the bot with the expected title, and edits go
    through, nothing is sent; with no cache entry for the channel the first
    such pin receives the embed and becomes the cache entry. *)
Theorem own_pin_is_reused (env : PinEnv) (cid : Z) (expected : string)
    (cache : gmap Z Z) (pins : list PinnedMsg) (msg : PinnedMsg)
    (Hpins : pe_pins env = Fine pins)
    (Hown : first_own_pin expected pins = Some msg)
    (Hedit : forall id, pe_edit env id = Fine tt) :
  let out := Pinned._update_pinned_message env false cid expected cache in
  Forall (fun act => exists id, act = Edited id) out.2 /\
  (cache !! cid = None ->
   out = (<[cid := pm_id msg]> cache, Fine true, [Edited (pm_id msg)])).
Proof.
  cbv zeta.
  assert (Hfrom : forall c0,
    Pinned.from_pins env cid expected c0
    = (<[cid := pm_id msg]> c0, Fine true, [Edited (pm_id msg)])).
  { intros c0. unfold Pinned.from_pins.
    now rewrite Hpins, search_first, Hown; cbn; rewrite Hedit. }
  unfold Pinned._update_pinned_message.
  destruct (cache !! cid) as [c|] eqn:Hc.
  - split; [|discriminate].
    destruct (pe_fetch_message env c) as [[]|[| | |]]; rewrite ?Hedit, ?Hfrom;
      cbn; repeat constructor; eauto.
  - rewrite Hfrom. split; [|reflexivity]. cbn. repeat constructor. eauto.
Qed.

(** The channel has two pins; the second is the list of the bot.  With an
    empty cache that message is edited and remembered. *)
Lemma own_pin_is_reused_witness :
  let env := mkPinEnv (fun _ => Fine tt) (fun _ => Fine tt)
               (Fine [mkPinnedMsg 41 false (Some "List");
                      mkPinnedMsg 42 true (Some "List")])
               (Fine 43) (fun _ => Fine tt) in
  Pinned._update_pinned_message env false 10 "List" ∅
  = ({[10 := 42]}, Fine true, [Edited 42]).
Proof.
  cbv zeta.
  exact (proj2 (own_pin_is_reused
                  (mkPinEnv (fun _ => Fine tt) (fun _ => Fine tt)
                     (Fine [mkPinnedMsg 41 false (Some "List");
                            mkPinnedMsg 42 true (Some "List")])
                     (Fine 43) (fun _ => Fine tt))
                  10 "List" ∅ _ (mkPinnedMsg 42 true (Some "List"))
                  eq_refl eq_refl (fun _ => eq_refl)) eq_refl).
Defined.
